(** * compacta: Huffman compaction of a list of dictionaries

    A shallow embedding of [compacta/compacta.py].  The Python functions keep
    their names.  What the module takes from the Python runtime and from the
    [json] and [zlib] libraries is modelled first, in the modules [Py],
    [Utf8] and [Json] and in the class [Externo]. *)

From Stdlib Require Import String Ascii.
From Stdlib Require Import List ZArith NArith Lia Bool Permutation Sorted.
From Stdlib Require Import DecimalString.
From Stdlib Require DecimalPos DecimalFacts.
Import ListNotations.

Local Open Scope Z_scope.

(* ===================================================================== *)
(** * The Python runtime *)
(* ===================================================================== *)

Module Py.

(** Exception classes that the module raises, catches or lets through.
    Every one of them derives from [Exception]; [JSONDecodeError] and
    [UnicodeError] (the base of [UnicodeDecodeError] and
    [UnicodeEncodeError]) derive from [ValueError].  [IOError] is an alias of
    [OSError]. *)
Inductive exn : Set :=
  | OSError
  | ValueError
  | JSONDecodeError
  | UnicodeError
  | RuntimeError
  | ZlibError
  | OverflowError
  | IndexError
  | TypeError
  | AttributeError.

Definition isinstance_OSError (e : exn) : bool :=
  match e with OSError => true | _ => false end.

Definition isinstance_ValueError (e : exn) : bool :=
  match e with
  | ValueError | JSONDecodeError | UnicodeError => true
  | _ => false
  end.

Definition isinstance_JSONDecodeError (e : exn) : bool :=
  match e with JSONDecodeError => true | _ => false end.

(** A call either returns or raises. *)
Inductive result (A : Type) : Type :=
  | Ok (a : A)
  | Raise (e : exn).
Arguments Ok {A} a.
Arguments Raise {A} e.

Definition bind {A B} (r : result A) (k : A -> result B) : result B :=
  match r with Ok a => k a | Raise e => Raise e end.

(** [try: r except cls: raise e'], for a class given by its test. *)
Definition reraise {A} (cls : exn -> bool) (e' : exn) (r : result A) : result A :=
  match r with
  | Ok a => Ok a
  | Raise e => if cls e then Raise e' else Raise e
  end.

(** A [str] is a sequence of code points. *)
Definition str : Set := list N.

Definition chr (a : ascii) : N := N_of_ascii a.
Definition lit (s : string) : str := map N_of_ascii (list_ascii_of_string s).

(** The double quote, U+0022. *)
Definition dquote : N := 34%N.

Fixpoint list_eqb {A} (eqb : A -> A -> bool) (l1 l2 : list A) : bool :=
  match l1, l2 with
  | [], [] => true
  | x :: r1, y :: r2 => eqb x y && list_eqb eqb r1 r2
  | _, _ => false
  end.

(** [l1 < l2] on sequences: the first position where they differ decides;
    a proper prefix is smaller. *)
Fixpoint list_ltb {A} (eqb ltb : A -> A -> bool) (l1 l2 : list A) : bool :=
  match l1, l2 with
  | [], [] => false
  | [], _ :: _ => true
  | _ :: _, [] => false
  | x :: r1, y :: r2 => if eqb x y then list_ltb eqb ltb r1 r2 else ltb x y
  end.

Definition str_eqb : str -> str -> bool := list_eqb N.eqb.
Definition str_ltb : str -> str -> bool := list_ltb N.eqb N.ltb.

(** [list.sort()] and [sorted()]: a stable sort that only asks [<]. *)
Fixpoint insert {A} (ltb : A -> A -> bool) (x : A) (l : list A) : list A :=
  match l with
  | [] => [x]
  | y :: r => if ltb y x then y :: insert ltb x r else x :: y :: r
  end.

Definition sort {A} (ltb : A -> A -> bool) (l : list A) : list A :=
  fold_right (insert ltb) [] l.

(** A [dict] with [str] keys keeps its keys in insertion order. *)
Definition dict (V : Type) : Type := list (str * V).

Fixpoint dict_get {V} (d : dict V) (k : str) : option V :=
  match d with
  | [] => None
  | (k', v) :: r => if str_eqb k' k then Some v else dict_get r k
  end.

Definition dict_in {V} (k : str) (d : dict V) : bool :=
  match dict_get d k with Some _ => true | None => false end.

(** [d[k] = v]: an existing key keeps its place, a new key goes last. *)
Fixpoint dict_set {V} (k : str) (v : V) (d : dict V) : dict V :=
  match d with
  | [] => [(k, v)]
  | (k', v') :: r =>
      if str_eqb k' k then (k', v) :: r else (k', v') :: dict_set k v r
  end.

(** ** Integers and bytes *)

Abbreviation bytes := (list Byte.byte) (only parsing).

Definition byte_of_Z (z : Z) : Byte.byte :=
  match Byte.of_N (Z.to_N (z mod 256)) with
  | Some b => b
  | None => Byte.x00
  end.

Definition Z_of_byte (b : Byte.byte) : Z := Z.of_N (Byte.to_N b).

(** The [n] low base-256 digits of [v], least significant first. *)
Fixpoint bytes_little (n : nat) (v : Z) : bytes :=
  match n with
  | O => []
  | S k => byte_of_Z v :: bytes_little k (v / 256)
  end.

Inductive byteorder : Set := little | big.

(** [v.to_bytes(length, byteorder)], unsigned: a negative [v] or one that
    does not fit raises [OverflowError]. *)
Definition to_bytes (v : Z) (length : Z) (order : byteorder) : result bytes :=
  if length <? 0 then Raise ValueError
  else if (0 <=? v) && (v <? 256 ^ length) then
    Ok (match order with
        | little => bytes_little (Z.to_nat length) v
        | big => rev (bytes_little (Z.to_nat length) v)
        end)
  else Raise OverflowError.

Definition from_bytes_little (bs : bytes) : Z :=
  fold_right (fun b acc => Z_of_byte b + 256 * acc) 0 bs.

(** [int.from_bytes(bs, byteorder)], unsigned. *)
Definition from_bytes (bs : bytes) (order : byteorder) : Z :=
  match order with
  | little => from_bytes_little bs
  | big => from_bytes_little (rev bs)
  end.

(** The binary digits of a positive number, most significant first. *)
Fixpoint bin_pos (p : positive) : str :=
  match p with
  | xH => [chr "1"]
  | xO q => bin_pos q ++ [chr "0"]
  | xI q => bin_pos q ++ [chr "1"]
  end.

(** [bin(v)[2:]]: [bin] prints ['0b...'], or ['-0b...'] below zero. *)
Definition bin_2 (v : Z) : str :=
  match v with
  | Z0 => [chr "0"]
  | Zpos p => bin_pos p
  | Zneg p => chr "b" :: bin_pos p
  end.

(** [s.zfill(width)]: zeros go after a leading sign; a string already
    [width] long or longer is returned as it is. *)
Definition zfill (s : str) (width : Z) : str :=
  let zeros := repeat (chr "0") (Z.to_nat (width - Z.of_nat (length s))) in
  match s with
  | c :: r =>
      if (c =? chr "+")%N || (c =? chr "-")%N then c :: zeros ++ r
      else zeros ++ s
  | [] => zeros
  end.

Fixpoint base2_desde (acc : Z) (s : str) : result Z :=
  match s with
  | [] => Ok acc
  | c :: r =>
      if (c =? chr "0")%N then base2_desde (2 * acc) r
      else if (c =? chr "1")%N then base2_desde (2 * acc + 1) r
      else Raise ValueError
  end.

(** [int(s, 2)] on a string of binary digits; the empty string raises
    [ValueError].  The blanks, sign, ['0b'] prefix and underscores that
    [int] also reads are outside this model: the module only passes a
    concatenation of the codes it built, whose characters are ['0'] and
    ['1'] (lemma [compactar_texto_binario] below). *)
Definition int_base2 (s : str) : result Z :=
  match s with
  | [] => Raise ValueError
  | _ => base2_desde 0 s
  end.

(** [s.replace(old, new)] for one-character [old] and [new]. *)
Definition replace (old new : N) (s : str) : str :=
  map (fun c => if (c =? old)%N then new else c) s.

Fixpoint join (sep : str) (parts : list str) : str :=
  match parts with
  | [] => []
  | [p] => p
  | p :: r => p ++ sep ++ join sep r
  end.

Definition hex_digit (d : Z) : N :=
  Z.to_N (if d <? 10 then 48 + d else 87 + d).

(** [n] lower-case hexadecimal digits of [v], most significant first. *)
Fixpoint hex (n : nat) (v : Z) : str :=
  match n with
  | O => []
  | S k => hex k (v / 16) ++ [hex_digit (v mod 16)]
  end.

(** The decimal digits of an [int], as [str] and [repr] print it. *)
Definition str_int (z : Z) : str := lit (NilZero.string_of_int (Z.to_int z)).

(** ** Values

    The values a record sequence is made of and [json.loads] returns.  A
    [float] stands as the decimal literal that denotes it; its binary
    rounding is not modelled.  Dictionaries have [str] keys. *)
#[warnings="-register-all"]
Inductive pyvalue : Set :=
  | PyNone
  | PyBool (b : bool)
  | PyInt (z : Z)
  | PyFloat (literal : str)
  | PyStr (s : str)
  | PyList (l : list pyvalue)
  | PyDict (d : list (str * pyvalue)).

End Py.
Import Py.

(* ===================================================================== *)
(** * UTF-8 *)
(* ===================================================================== *)

Module Utf8.

Definition cont (b : Z) : bool := (0x80 <=? b) && (b <=? 0xBF).

(** [bs.decode('utf-8')], strict: overlong forms, surrogates and code
    points above U+10FFFF raise [UnicodeDecodeError]. *)
Fixpoint decode_desde (acc : str) (bs : bytes) {struct bs} : result str :=
  match bs with
  | [] => Ok (rev acc)
  | x1 :: r1 =>
      let b1 := Z_of_byte x1 in
      if b1 <? 0x80 then decode_desde (Z.to_N b1 :: acc) r1
      else if (0xC2 <=? b1) && (b1 <=? 0xDF) then
        match r1 with
        | x2 :: r2 =>
            let b2 := Z_of_byte x2 in
            if cont b2
            then decode_desde (Z.to_N ((b1 - 0xC0) * 64 + (b2 - 0x80)) :: acc) r2
            else Raise UnicodeError
        | _ => Raise UnicodeError
        end
      else if (0xE0 <=? b1) && (b1 <=? 0xEF) then
        match r1 with
        | x2 :: x3 :: r3 =>
            let b2 := Z_of_byte x2 in
            let b3 := Z_of_byte x3 in
            if ((if b1 =? 0xE0 then 0xA0 else 0x80) <=? b2)
               && (b2 <=? (if b1 =? 0xED then 0x9F else 0xBF))
               && cont b3
            then decode_desde
                   (Z.to_N ((b1 - 0xE0) * 4096 + (b2 - 0x80) * 64 + (b3 - 0x80))
                    :: acc) r3
            else Raise UnicodeError
        | _ => Raise UnicodeError
        end
      else if (0xF0 <=? b1) && (b1 <=? 0xF4) then
        match r1 with
        | x2 :: x3 :: x4 :: r4 =>
            let b2 := Z_of_byte x2 in
            let b3 := Z_of_byte x3 in
            let b4 := Z_of_byte x4 in
            if ((if b1 =? 0xF0 then 0x90 else 0x80) <=? b2)
               && (b2 <=? (if b1 =? 0xF4 then 0x8F else 0xBF))
               && cont b3 && cont b4
            then decode_desde
                   (Z.to_N ((b1 - 0xF0) * 262144 + (b2 - 0x80) * 4096
                            + (b3 - 0x80) * 64 + (b4 - 0x80))
                    :: acc) r4
            else Raise UnicodeError
        | _ => Raise UnicodeError
        end
      else Raise UnicodeError
  end.

Definition decode (bs : bytes) : result str := decode_desde [] bs.

(** [s.encode('utf-8')], strict: a surrogate raises [UnicodeEncodeError]. *)
Fixpoint encode (s : str) : result bytes :=
  match s with
  | [] => Ok []
  | n :: r =>
      let c := Z.of_N n in
      bind
        (if c <? 0x80 then Ok [byte_of_Z c]
         else if c <? 0x800 then
           Ok [byte_of_Z (0xC0 + c / 64); byte_of_Z (0x80 + c mod 64)]
         else if (0xD800 <=? c) && (c <=? 0xDFFF) then Raise UnicodeError
         else if c <? 0x10000 then
           Ok [byte_of_Z (0xE0 + c / 4096); byte_of_Z (0x80 + (c / 64) mod 64);
               byte_of_Z (0x80 + c mod 64)]
         else
           Ok [byte_of_Z (0xF0 + c / 262144);
               byte_of_Z (0x80 + (c / 4096) mod 64);
               byte_of_Z (0x80 + (c / 64) mod 64); byte_of_Z (0x80 + c mod 64)])
        (fun b => bind (encode r) (fun bs => Ok (b ++ bs)))
  end.

End Utf8.

(* ===================================================================== *)
(** * The json library *)
(* ===================================================================== *)

Module Json.

(** ** [json.dumps] of a [dict] from [str] to [str]

    With the default [ensure_ascii=True] and separators [', '] and [': ']. *)

Definition escape_char (n : N) : str :=
  let c := Z.of_N n in
  if (0x20 <=? c) && (c <=? 0x7E) && negb (c =? 0x5C) && negb (c =? 0x22)
  then [n]
  else if c =? 0x5C then lit "\\"
  else if c =? 0x22 then chr "\" :: [dquote]
  else if c =? 0x08 then lit "\b"
  else if c =? 0x0C then lit "\f"
  else if c =? 0x0A then lit "\n"
  else if c =? 0x0D then lit "\r"
  else if c =? 0x09 then lit "\t"
  else if 0x10000 <=? c then
    let v := c - 0x10000 in
    lit "\u" ++ hex 4 (0xD800 + (v / 1024) mod 1024)
    ++ lit "\u" ++ hex 4 (0xDC00 + v mod 1024)
  else lit "\u" ++ hex 4 c.

Definition encode_basestring_ascii (s : str) : str :=
  [dquote] ++ flat_map escape_char s ++ [dquote].

Definition dumps (d : dict str) : str :=
  lit "{"
  ++ join (lit ", ")
       (map (fun kv => encode_basestring_ascii (fst kv) ++ lit ": "
                       ++ encode_basestring_ascii (snd kv)) d)
  ++ lit "}".

(** ** [json.loads] of a [str] *)

Definition is_ws (c : N) : bool :=
  (c =? 0x20)%N || (c =? 0x09)%N || (c =? 0x0A)%N || (c =? 0x0D)%N.

Fixpoint skip_ws (s : str) : str :=
  match s with
  | c :: r => if is_ws c then skip_ws r else s
  | [] => []
  end.

Definition is_digit (c : N) : bool := (48 <=? c)%N && (c <=? 57)%N.

Definition hex_value (c : N) : option Z :=
  let z := Z.of_N c in
  if is_digit c then Some (z - 48)
  else if (97 <=? z) && (z <=? 102) then Some (z - 87)
  else if (65 <=? z) && (z <=? 70) then Some (z - 55)
  else None.

Definition hex4 (h1 h2 h3 h4 : N) : option Z :=
  match hex_value h1, hex_value h2, hex_value h3, hex_value h4 with
  | Some a, Some b, Some c, Some d => Some (((a * 16 + b) * 16 + c) * 16 + d)
  | _, _, _, _ => None
  end.

Definition simple_escape (e : N) : option N :=
  if (e =? dquote)%N then Some (dquote)
  else if (e =? chr "\")%N then Some (chr "\")
  else if (e =? chr "/")%N then Some (chr "/")
  else if (e =? chr "b")%N then Some 0x08%N
  else if (e =? chr "f")%N then Some 0x0C%N
  else if (e =? chr "n")%N then Some 0x0A%N
  else if (e =? chr "r")%N then Some 0x0D%N
  else if (e =? chr "t")%N then Some 0x09%N
  else None.

(** The body of a string after its opening quote, in strict mode: returns
    the string and what follows the closing quote. *)
Fixpoint scanstring (acc : str) (s : str) {struct s} : result (str * str) :=
  match s with
  | [] => Raise JSONDecodeError
  | c :: r =>
      if (c =? dquote)%N then Ok (rev acc, r)
      else if (c =? chr "\")%N then
        match r with
        | [] => Raise JSONDecodeError
        | e :: r1 =>
            if (e =? chr "u")%N then
              match r1 with
              | h1 :: h2 :: h3 :: h4 :: r2 =>
                  match hex4 h1 h2 h3 h4 with
                  | None => Raise JSONDecodeError
                  | Some u =>
                      if (0xD800 <=? u) && (u <=? 0xDBFF) then
                        match r2 with
                        | b :: u' :: g1 :: g2 :: g3 :: g4 :: r3 =>
                            if (b =? chr "\")%N && (u' =? chr "u")%N then
                              match hex4 g1 g2 g3 g4 with
                              | None => Raise JSONDecodeError
                              | Some lo =>
                                  if (0xDC00 <=? lo) && (lo <=? 0xDFFF) then
                                    scanstring
                                      (Z.to_N (0x10000 + (u - 0xD800) * 1024
                                               + (lo - 0xDC00)) :: acc) r3
                                  else scanstring (Z.to_N u :: acc) r2
                              end
                            else scanstring (Z.to_N u :: acc) r2
                        | _ => scanstring (Z.to_N u :: acc) r2
                        end
                      else scanstring (Z.to_N u :: acc) r2
                  end
              | _ => Raise JSONDecodeError
              end
            else
              match simple_escape e with
              | Some x => scanstring (x :: acc) r1
              | None => Raise JSONDecodeError
              end
        end
      else if (c <? 0x20)%N then Raise JSONDecodeError
      else scanstring (c :: acc) r
  end.

Fixpoint span_digits (s : str) : str * str :=
  match s with
  | c :: r =>
      if is_digit c then let (d, r') := span_digits r in (c :: d, r')
      else ([], s)
  | [] => ([], [])
  end.

Fixpoint decimal_desde (acc : Z) (digits : str) : Z :=
  match digits with
  | [] => acc
  | c :: r => decimal_desde (10 * acc + (Z.of_N c - 48)) r
  end.

(** The integer part: an optional ['-'], then ['0'] or a digit from 1 to 9
    followed by digits. *)
Definition match_integer (s : str) : option (str * str) :=
  let (sign, s1) :=
    match s with
    | c :: r => if (c =? chr "-")%N then ([c], r) else ([], s)
    | [] => ([], [])
    end in
  match s1 with
  | c :: r =>
      if (c =? chr "0")%N then Some (sign ++ [c], r)
      else if is_digit c then
        let (d, r') := span_digits r in Some (sign ++ c :: d, r')
      else None
  | [] => None
  end.

(** The fraction, when present: ['.'] and at least one digit. *)
Definition match_frac (s : str) : str * str :=
  match s with
  | p :: d :: r =>
      if (p =? chr ".")%N && is_digit d then
        let (ds, r') := span_digits r in (p :: d :: ds, r')
      else ([], s)
  | _ => ([], s)
  end.

(** The exponent, when present: ['e'] or ['E'], an optional sign and at
    least one digit. *)
Definition match_exp (s : str) : str * str :=
  match s with
  | e :: r =>
      if (e =? chr "e")%N || (e =? chr "E")%N then
        let (sign, r1) :=
          match r with
          | g :: r' =>
              if (g =? chr "+")%N || (g =? chr "-")%N then ([g], r')
              else ([], r)
          | [] => ([], [])
          end in
        match span_digits r1 with
        | ([], _) => ([], s)
        | (ds, r2) => (e :: sign ++ ds, r2)
        end
      else ([], s)
  | [] => ([], s)
  end.

Definition match_number (s : str) : result (pyvalue * str) :=
  match match_integer s with
  | None => Raise JSONDecodeError
  | Some (i, r) =>
      let (f, r1) := match_frac r in
      let (e, r2) := match_exp r1 in
      match f, e with
      | [], [] =>
          Ok (PyInt (match i with
                     | c :: d => if (c =? chr "-")%N then - decimal_desde 0 d
                                 else decimal_desde 0 i
                     | [] => 0
                     end), r2)
      | _, _ => Ok (PyFloat (i ++ f ++ e), r2)
      end
  end.

Fixpoint strip_prefix (p s : str) : option str :=
  match p, s with
  | [], _ => Some s
  | a :: p', b :: s' => if (a =? b)%N then strip_prefix p' s' else None
  | _ :: _, [] => None
  end.

(** A literal of the grammar at the head of the text, or a number. *)
Definition scan_atom (s : str) : result (pyvalue * str) :=
  match strip_prefix (lit "null") s with
  | Some r => Ok (PyNone, r)
  | None =>
  match strip_prefix (lit "true") s with
  | Some r => Ok (PyBool true, r)
  | None =>
  match strip_prefix (lit "false") s with
  | Some r => Ok (PyBool false, r)
  | None =>
  match strip_prefix (lit "NaN") s with
  | Some r => Ok (PyFloat (lit "nan"), r)
  | None =>
  match strip_prefix (lit "Infinity") s with
  | Some r => Ok (PyFloat (lit "inf"), r)
  | None =>
  match strip_prefix (lit "-Infinity") s with
  | Some r => Ok (PyFloat (lit "-inf"), r)
  | None => match_number s
  end end end end end end.

(** A [dict] built from the pairs of an object: a repeated key keeps its
    first place and its last value. *)
Definition dict_of_pairs {V} (pairs : list (str * V)) : dict V :=
  fold_left (fun d kv => dict_set (fst kv) (snd kv) d) pairs [].

(** The scanner.  [fuel] bounds the number of nested or chained calls, as
    the interpreter's recursion limit does ([RecursionError] is a
    [RuntimeError]); [loads] gives more than a text of its length can use. *)
Fixpoint scan_once (fuel : nat) (s : str) {struct fuel}
  : result (pyvalue * str) :=
  match fuel with
  | O => Raise RuntimeError
  | S k =>
      match s with
      | [] => Raise JSONDecodeError
      | c :: r =>
          if (c =? dquote)%N then
            bind (scanstring [] r) (fun xr => Ok (PyStr (fst xr), snd xr))
          else if (c =? chr "{")%N then
            match skip_ws r with
            | c' :: r' =>
                if (c' =? chr "}")%N then Ok (PyDict [], r')
                else bind (scan_members k [] (c' :: r'))
                       (fun pr => Ok (PyDict (dict_of_pairs (fst pr)), snd pr))
            | [] => Raise JSONDecodeError
            end
          else if (c =? chr "[")%N then
            match skip_ws r with
            | c' :: r' =>
                if (c' =? chr "]")%N then Ok (PyList [], r')
                else bind (scan_items k [] (c' :: r'))
                       (fun lr => Ok (PyList (fst lr), snd lr))
            | [] => Raise JSONDecodeError
            end
          else scan_atom s
      end
  end

with scan_members (fuel : nat) (acc : list (str * pyvalue)) (s : str)
    {struct fuel} : result (list (str * pyvalue) * str) :=
  match fuel with
  | O => Raise RuntimeError
  | S k =>
      match s with
      | q :: r =>
          if (q =? dquote)%N then
            bind (scanstring [] r) (fun kr =>
            match skip_ws (snd kr) with
            | colon :: r1 =>
                if (colon =? chr ":")%N then
                  bind (scan_once k (skip_ws r1)) (fun vr =>
                  match skip_ws (snd vr) with
                  | d :: r2 =>
                      if (d =? chr "}")%N
                      then Ok (rev ((fst kr, fst vr) :: acc), r2)
                      else if (d =? chr ",")%N
                      then scan_members k ((fst kr, fst vr) :: acc) (skip_ws r2)
                      else Raise JSONDecodeError
                  | [] => Raise JSONDecodeError
                  end)
                else Raise JSONDecodeError
            | [] => Raise JSONDecodeError
            end)
          else Raise JSONDecodeError
      | [] => Raise JSONDecodeError
      end
  end

with scan_items (fuel : nat) (acc : list pyvalue) (s : str) {struct fuel}
  : result (list pyvalue * str) :=
  match fuel with
  | O => Raise RuntimeError
  | S k =>
      bind (scan_once k s) (fun vr =>
      match skip_ws (snd vr) with
      | d :: r =>
          if (d =? chr "]")%N then Ok (rev (fst vr :: acc), r)
          else if (d =? chr ",")%N then scan_items k (fst vr :: acc) (skip_ws r)
          else Raise JSONDecodeError
      | [] => Raise JSONDecodeError
      end)
  end.

Definition loads (s : str) : result pyvalue :=
  bind (scan_once (2 * length s + 2) (skip_ws s)) (fun vr =>
  match skip_ws (snd vr) with
  | [] => Ok (fst vr)
  | _ :: _ => Raise JSONDecodeError
  end).

End Json.

(* ===================================================================== *)
(** * What the platform provides *)
(* ===================================================================== *)

(** The [zlib] codec is an opaque transformation of bytes, and whether a
    code point outside ASCII is printable is a table of the Unicode
    database: both are taken as given. *)
Class Externo : Type := {
  zlib_compress : bytes -> bytes;
  zlib_decompress : bytes -> result bytes;
  unicode_isprintable : N -> bool
}.

(** A file-like object open in binary mode: [write] and [read] return or
    raise, and leave the object in a new state either way. *)
Class FileLike (F : Type) : Type := {
  file_write : bytes -> F -> result unit * F;
  file_read : Z -> F -> result bytes * F
}.

(** Statements that use a file: they return or raise, and pass the file on. *)
Definition io (F A : Type) : Type := F -> result A * F.

Definition io_ret {F A} (a : A) : io F A := fun f => (Ok a, f).

Definition io_lift {F A} (r : result A) : io F A := fun f => (r, f).

Definition io_bind {F A B} (m : io F A) (k : A -> io F B) : io F B :=
  fun f =>
    match m f with
    | (Ok a, f') => k a f'
    | (Raise e, f') => (Raise e, f')
    end.

Notation "x <- m ;; k" := (io_bind m (fun x => k))
  (at level 61, m at next level, right associativity).
Notation "m ;;; k" := (io_bind m (fun _ => k))
  (at level 61, right associativity).

(** ** [str] of the record sequence *)

Section Repr.
Context {E : Externo}.

Definition repr_char (quote : N) (n : N) : str :=
  let c := Z.of_N n in
  if (n =? quote)%N || (n =? chr "\")%N then [chr "\"; n]
  else if c =? 0x09 then lit "\t"
  else if c =? 0x0A then lit "\n"
  else if c =? 0x0D then lit "\r"
  else if (c <? 0x20) || (c =? 0x7F) then lit "\x" ++ hex 2 c
  else if c <? 0x7F then [n]
  else if unicode_isprintable n then [n]
  else if c <=? 0xFF then lit "\x" ++ hex 2 c
  else if c <=? 0xFFFF then lit "\u" ++ hex 4 c
  else lit "\U" ++ hex 8 c.

(** [repr] of a [str]: double quotes only when the string has a single
    quote and no double quote. *)
Definition repr_str (s : str) : str :=
  let quote :=
    if existsb (N.eqb (chr "'")) s && negb (existsb (N.eqb dquote) s)
    then dquote else chr "'" in
  [quote] ++ flat_map (repr_char quote) s ++ [quote].

Fixpoint repr (v : pyvalue) : str :=
  match v with
  | PyNone => lit "None"
  | PyBool true => lit "True"
  | PyBool false => lit "False"
  | PyInt z => str_int z
  | PyFloat literal => literal
  | PyStr s => repr_str s
  | PyList l => lit "[" ++ join (lit ", ") (map repr l) ++ lit "]"
  | PyDict d =>
      lit "{"
      ++ join (lit ", ")
           (map (fun kv => repr_str (fst kv) ++ lit ": " ++ repr (snd kv)) d)
      ++ lit "}"
  end.

End Repr.

(* ===================================================================== *)
(** * Frequencies, tree and codes *)
(* ===================================================================== *)

(** [frequencias[caractere] = frequencias.get(caractere, 0) + 1] for each
    character of the text. *)
Definition _calcular_frequencias (representacao_lista : str) : dict Z :=
  fold_left
    (fun frequencias caractere =>
       dict_set [caractere]
         (match dict_get frequencias [caractere] with
          | Some n => n
          | None => 0
          end + 1)
         frequencias)
    representacao_lista [].

(** A heap entry [[freq, [simbolo, codigo], ...]]: the weight followed by
    the pairs of the leaves below it. *)
Definition par : Set := (str * str)%type.
Definition entrada : Set := (Z * list par)%type.

Definition par_eqb (p q : par) : bool :=
  str_eqb (fst p) (fst q) && str_eqb (snd p) (snd q).

(** [[s, c] < [s', c']] on two-element lists. *)
Definition par_ltb (p q : par) : bool :=
  if str_eqb (fst p) (fst q) then str_ltb (snd p) (snd q)
  else str_ltb (fst p) (fst q).

(** [[f, p1, ...] < [f', q1, ...]]. *)
Definition entrada_ltb (a b : entrada) : bool :=
  if fst a =? fst b then list_ltb par_eqb par_ltb (snd a) (snd b)
  else fst a <? fst b.

Definition prefixar (bit : N) (p : par) : par := (fst p, bit :: snd p).

(** [[lo[0] + hi[0]] + lo[1:] + hi[1:]], after the codes below [lo] got a
    ['0'] in front and those below [hi] a ['1']. *)
Definition fundir (lo hi : entrada) : entrada :=
  (fst lo + fst hi,
   map (prefixar (chr "0")) (snd lo) ++ map (prefixar (chr "1")) (snd hi)).

(** [while len(heap) > 1: ...], run at most [fuel] times; each turn sorts
    the heap, pops its two smallest entries and appends their merge. *)
Fixpoint huffman_loop (fuel : nat) (heap : list entrada) : list entrada :=
  match fuel with
  | O => heap
  | S k =>
      if (1 <? length heap)%nat then
        match Py.sort entrada_ltb heap with
        | lo :: hi :: resto => huffman_loop k (resto ++ [fundir lo hi])
        | _ => heap
        end
      else heap
  end.

(** The key of the final [sorted]: [(len(p[-1]), p)]. *)
Definition chave_ltb (p q : par) : bool :=
  if Nat.eqb (length (snd p)) (length (snd q)) then par_ltb p q
  else Nat.ltb (length (snd p)) (length (snd q)).

(** The loop gets as many turns as the heap has entries, one more than it
    can take (lemma [huffman_loop_termina]). *)
Definition _construir_arvore_huffman (frequencias : dict Z)
  : result (list par) :=
  let heap := map (fun sf => (snd sf, [(fst sf, @nil N)])) frequencias in
  match huffman_loop (length heap) heap with
  | [] => Raise IndexError
  | raiz :: _ => Ok (Py.sort chave_ltb (snd raiz))
  end.

Definition _gerar_codigo_huffman (arvore_huffman : list par) : dict str :=
  fold_left (fun d sc => dict_set (fst sc) (snd sc) d) arvore_huffman [].

(** Appends the code of each character; a character without a code raises
    [ValueError]. *)
Fixpoint codificar_desde (texto_codificado : str) (resto : str)
    (codigo_huffman : dict str) : result str :=
  match resto with
  | [] => Ok texto_codificado
  | caractere :: r =>
      match dict_get codigo_huffman [caractere] with
      | Some codigo => codificar_desde (texto_codificado ++ codigo) r codigo_huffman
      | None => Raise ValueError
      end
  end.

Definition _codificar_lista (representacao_lista : str)
    (codigo_huffman : dict str) : result str :=
  codificar_desde [] representacao_lista codigo_huffman.


(* ===================================================================== *)
(** * Decoding and the text of the list *)
(* ===================================================================== *)

(** [{codigo: simbolo for simbolo, codigo in codigo_huffman.items()}].
    Only a [dict] has [items]; a [list] or [dict] as a code cannot be a
    key.  The loop only looks up strings, which equal no key of another
    type, so the inverted dictionary keeps the entries whose code is a
    string. *)
Fixpoint inverter (items : list (str * pyvalue)) (codigo_invertido : dict str)
  : result (dict str) :=
  match items with
  | [] => Ok codigo_invertido
  | (simbolo, codigo) :: r =>
      match codigo with
      | PyList _ | PyDict _ => Raise TypeError
      | PyStr c => inverter r (dict_set c simbolo codigo_invertido)
      | _ => inverter r codigo_invertido
      end
  end.

(** The loop over the bits, from [(simbolo_atual, texto_decodificado)]. *)
Fixpoint decodificar_desde (codigo_invertido : dict str)
    (simbolo_atual texto_decodificado : str) (bits : str) : str * str :=
  match bits with
  | [] => (simbolo_atual, texto_decodificado)
  | bit :: r =>
      let simbolo_atual := simbolo_atual ++ [bit] in
      match dict_get codigo_invertido simbolo_atual with
      | Some simbolo =>
          decodificar_desde codigo_invertido [] (texto_decodificado ++ simbolo) r
      | None =>
          decodificar_desde codigo_invertido simbolo_atual texto_decodificado r
      end
  end.

Definition _decodificar_texto (texto_codificado : str)
    (codigo_huffman : pyvalue) : result str :=
  match codigo_huffman with
  | PyDict items =>
      bind (inverter items []) (fun codigo_invertido =>
      Ok (snd (decodificar_desde codigo_invertido [] [] texto_codificado)))
  | _ => Raise AttributeError
  end.

Definition is_dict (v : pyvalue) : bool :=
  match v with PyDict _ => true | _ => false end.

Definition _texto_para_lista (texto : str) : result (list pyvalue) :=
  reraise isinstance_JSONDecodeError ValueError
    (let texto := replace (chr "'") dquote texto in
     bind (Json.loads texto) (fun lista_dicionarios =>
     match lista_dicionarios with
     | PyList itens =>
         if forallb is_dict itens then Ok itens else Raise ValueError
     | _ => Raise ValueError
     end)).

(* ===================================================================== *)
(** * The container and the two public functions *)
(* ===================================================================== *)

(** Return codes. *)
Module CODES.
Definition SUCESSO : Z := 0.
Definition ERRO_ARQUIVO : Z := 1.
Definition ERRO_CODIFICACAO : Z := 2.
Definition ERRO_DECODIFICACAO : Z := 3.
Definition ERRO_CONSTRUCAO_ARVORE : Z := 4.
Definition ERRO_FORMATO_DADOS : Z := 5.
End CODES.

(** What [descompactar_lista] returns beside the code: a list, or [str(e)]
    for the exception [e] it caught. *)
Inductive retorno : Set :=
  | Lista (l : list pyvalue)
  | Mensagem (e : exn).

Section Container.
Context {E : Externo} {F : Type} {FL : FileLike F}.

Definition len {A} (l : list A) : Z := Z.of_nat (length l).

(** [int(texto_codificado, 2).to_bytes((tamanho + 7) // 8, 'big')]: the
    bits as one unsigned integer, most significant bit first, in the bytes
    that cover [tamanho] bits. *)
Definition pack (texto_codificado : str) : result bytes :=
  let tamanho := len texto_codificado in
  bind (int_base2 texto_codificado) (fun v =>
  to_bytes v ((tamanho + 7) / 8) big).

(** [bin(int.from_bytes(valor, 'big'))[2:].zfill(tamanho)]. *)
Definition unpack (valor : bytes) (tamanho : Z) : str :=
  zfill (bin_2 (from_bytes valor big)) tamanho.

Definition _escrever_binario (texto_codificado : str)
    (codigo_huffman : dict str) : io F unit :=
  fun arquivo =>
    let (r, arquivo') :=
      (let tamanho := len texto_codificado in
       cabecalho <- io_lift (to_bytes tamanho 4 little) ;;
       file_write cabecalho ;;;
       valor <- io_lift (pack texto_codificado) ;;
       file_write valor ;;;
       json_data <- io_lift (Utf8.encode (Json.dumps codigo_huffman)) ;;
       let compressed_data := zlib_compress json_data in
       cabecalho <- io_lift (to_bytes (len compressed_data) 4 little) ;;
       file_write cabecalho ;;;
       file_write compressed_data) arquivo in
    (reraise isinstance_OSError RuntimeError r, arquivo').

(** The two [except] clauses of [_ler_binario]. *)
Definition ler_except {A} (r : result A) : result A :=
  match r with
  | Ok x => Ok x
  | Raise e =>
      if isinstance_OSError e then Raise RuntimeError
      else if isinstance_JSONDecodeError e then Raise ValueError
      else Raise e
  end.

Definition _ler_binario : io F (str * pyvalue) :=
  fun arquivo =>
    let (r, arquivo') :=
      (lido <- file_read 4 ;;
       let tamanho := from_bytes lido little in
       let num_bytes := (tamanho + 7) / 8 in
       valor <- file_read num_bytes ;;
       let texto_codificado := unpack valor tamanho in
       lido <- file_read 4 ;;
       let tamanho_comprimido := from_bytes lido little in
       conteudo_comprimido <- file_read tamanho_comprimido ;;
       json_data <- io_lift (bind (zlib_decompress conteudo_comprimido)
                                  Utf8.decode) ;;
       codigo_huffman <- io_lift (Json.loads json_data) ;;
       io_ret (texto_codificado, codigo_huffman)) arquivo in
    (ler_except r, arquivo').

(** The statements of [compactar_lista] inside its [try]. *)
Definition compactar_corpo (lista_dicionarios : list pyvalue) : io F unit :=
  let lista_string := repr (PyList lista_dicionarios) in
  let frequencias := _calcular_frequencias lista_string in
  arvore_huffman <- io_lift (_construir_arvore_huffman frequencias) ;;
  let codigo_huffman := _gerar_codigo_huffman arvore_huffman in
  texto_codificado <- io_lift (_codificar_lista lista_string codigo_huffman) ;;
  _escrever_binario texto_codificado codigo_huffman.

(** The [return] after the body and the three [except] clauses. *)
Definition compactar_retorno (r : result unit * F) : Z * F :=
  match r with
  | (Ok _, arquivo') => (CODES.SUCESSO, arquivo')
  | (Raise e, arquivo') =>
      if isinstance_OSError e then (CODES.ERRO_ARQUIVO, arquivo')
      else if isinstance_ValueError e then (CODES.ERRO_CODIFICACAO, arquivo')
      else (CODES.ERRO_CODIFICACAO, arquivo')
  end.

Definition compactar_lista (lista_dicionarios : list pyvalue) (arquivo : F)
  : Z * F :=
  compactar_retorno (compactar_corpo lista_dicionarios arquivo).

(** The statements of [descompactar_lista] inside its [try]. *)
Definition descompactar_corpo : io F (list pyvalue) :=
  lido <- _ler_binario ;;
  let texto_codificado := fst lido in
  let codigo_huffman := snd lido in
  texto_decodificado <-
    io_lift (_decodificar_texto texto_codificado codigo_huffman) ;;
  io_lift (_texto_para_lista texto_decodificado).

Definition descompactar_retorno (r : result (list pyvalue) * F)
  : (Z * retorno) * F :=
  match r with
  | (Ok lista_decodificada, arquivo') =>
      ((CODES.SUCESSO, Lista lista_decodificada), arquivo')
  | (Raise e, arquivo') =>
      if isinstance_OSError e then ((CODES.ERRO_ARQUIVO, Lista []), arquivo')
      else if isinstance_ValueError e
      then ((CODES.ERRO_DECODIFICACAO, Mensagem e), arquivo')
      else ((CODES.ERRO_DECODIFICACAO, Mensagem e), arquivo')
  end.

Definition descompactar_lista (arquivo : F) : (Z * retorno) * F :=
  descompactar_retorno (descompactar_corpo arquivo).

End Container.

(* ===================================================================== *)
(** * Concrete files and a concrete platform *)
(* ===================================================================== *)

(** A pipe of bytes: [write] appends, [read(n)] takes up to [n] bytes from
    the front, so that what one call wrote another reads back. *)
#[export] Instance Pipe : FileLike bytes := {
  file_write b f := (Ok tt, f ++ b);
  file_read n f := (Ok (firstn (Z.to_nat n) f), skipn (Z.to_nat n) f)
}.

(** A file whose every operation raises [OSError]. *)
Inductive quebrado : Set := Quebrado.

#[export] Instance ArquivoQuebrado : FileLike quebrado := {
  file_write _ f := (Raise OSError, f);
  file_read _ f := (Raise OSError, f)
}.

(** A codec for the stored subset of the zlib format (RFC 1950 and the
    stored blocks of RFC 1951): a two-byte header, blocks of at most 65535
    bytes each with its length and the complement of its length, and the
    Adler-32 checksum of the data. *)
Module Stored.

Definition adler32 (b : bytes) : Z :=
  let '(a, s) :=
    fold_left (fun st x =>
                 let a' := (fst st + Z_of_byte x) mod 65521 in
                 (a', (snd st + a') mod 65521)) b (1, 0) in
  s * 65536 + a.

Fixpoint blocks (fuel : nat) (b : bytes) : bytes :=
  match fuel with
  | O => []
  | S k =>
      let n := Z.to_nat 65535 in
      let chunk := firstn n b in
      let rest := skipn n b in
      let l := len chunk in
      let header bfinal :=
        [byte_of_Z bfinal; byte_of_Z l; byte_of_Z (l / 256);
         byte_of_Z (255 - l mod 256); byte_of_Z (255 - l / 256)] in
      match rest with
      | [] => header 1 ++ chunk
      | _ :: _ => header 0 ++ chunk ++ blocks k rest
      end
  end.

Definition compress (b : bytes) : bytes :=
  [Byte.x78; Byte.x01] ++ blocks (S (length b)) b
  ++ rev (bytes_little 4 (adler32 b)).

Fixpoint inflate (fuel : nat) (acc : bytes) (s : bytes) : result bytes :=
  match fuel with
  | O => Raise ZlibError
  | S k =>
      match s with
      | h :: l0 :: l1 :: n0 :: n1 :: r =>
          let l := Z_of_byte l0 + 256 * Z_of_byte l1 in
          if ((Z_of_byte h / 2) mod 4 =? 0)
             && (Z_of_byte n0 + 256 * Z_of_byte n1 =? 65535 - l)
             && (l <=? len r)
          then
            let acc := acc ++ firstn (Z.to_nat l) r in
            let r := skipn (Z.to_nat l) r in
            if Z_of_byte h mod 2 =? 1 then
              match r with
              | c3 :: c2 :: c1 :: c0 :: _ =>
                  if from_bytes [c3; c2; c1; c0] big =? adler32 acc
                  then Ok acc else Raise ZlibError
              | _ => Raise ZlibError
              end
            else inflate k acc r
          else Raise ZlibError
      | _ => Raise ZlibError
      end
  end.

Definition decompress (s : bytes) : result bytes :=
  match s with
  | cmf :: flg :: r =>
      if (Z_of_byte cmf mod 16 =? 8) && (Z_of_byte cmf / 16 <=? 7)
         && ((Z_of_byte cmf * 256 + Z_of_byte flg) mod 31 =? 0)
         && ((Z_of_byte flg / 32) mod 2 =? 0)
      then inflate (S (length r)) [] r
      else Raise ZlibError
  | _ => Raise ZlibError
  end.

(** Printable code points: exact up to U+00FF; above, every code point but
    the surrogates is taken as printable. *)
Definition isprintable (n : N) : bool :=
  let c := Z.of_N n in
  if c <? 0x20 then false
  else if c <? 0x7F then true
  else if c <=? 0xA0 then false
  else if c =? 0xAD then false
  else if c <=? 0xFF then true
  else negb ((0xD800 <=? c) && (c <=? 0xDFFF)).

End Stored.

Definition Plataforma : Externo := {|
  zlib_compress := Stored.compress;
  zlib_decompress := Stored.decompress;
  unicode_isprintable := Stored.isprintable
|}.


(* ===================================================================== *)
(** * Which exceptions reach the two boundaries *)
(* ===================================================================== *)

(** [json.loads] raises nothing but [JSONDecodeError], or [RuntimeError]
    for the recursion limit. *)
Definition json_exn (e : exn) : Prop := e = JSONDecodeError \/ e = RuntimeError.

(** What a call may raise: [so P r] holds when [r] returns, or raises an
    exception in [P]. *)
Definition so {A} (P : exn -> Prop) (r : result A) : Prop :=
  match r with
  | Ok _ => True
  | Raise e => P e
  end.

Lemma so_raise {A} (P : exn -> Prop) (r : result A) (e : exn) :
  so P r -> r = Raise e -> P e.
Proof. intros H ->. exact H. Qed.

Lemma so_mono {A} (P Q : exn -> Prop) (r : result A) :
  (forall e, P e -> Q e) -> so P r -> so Q r.
Proof. intros H. destruct r; simpl; auto. Qed.

Lemma so_bind {A B} (P : exn -> Prop) (r : result A) (k : A -> result B) :
  so P r -> (forall a, so P (k a)) -> so P (bind r k).
Proof. destruct r; simpl; auto. Qed.

(** Follows the tests of a function down to each of its results. *)
Ltac folhas fim :=
  repeat match goal with
         | |- so _ (Ok _) => exact I
         | |- so _ (Raise _) =>
             first [reflexivity | left; reflexivity | right; reflexivity]
         | |- so _ (if ?b then _ else _) => destruct b
         | |- so _ (match ?x with _ => _ end) => destruct x
         | |- so _ (let (_, _) := ?x in _) => destruct x
         | _ => fim
         end.

Lemma scanstring_so (n : nat) :
  forall (s acc : str),
    (length s <= n)%nat ->
    so (eq JSONDecodeError) (Json.scanstring acc s).
Proof.
  induction n as [|n IH]; intros s acc Hn.
  - destruct s; [reflexivity | simpl in Hn; lia].
  - destruct s as [|c r]; [reflexivity|].
    cbn [Json.scanstring].
    folhas ltac:(apply IH; simpl in Hn |- *; lia).
Qed.

Lemma json_exn_decode (e : exn) : JSONDecodeError = e -> json_exn e.
Proof. intros <-. left. reflexivity. Qed.

Lemma scanstring_json (s acc : str) : so json_exn (Json.scanstring acc s).
Proof.
  eapply so_mono; [apply json_exn_decode|].
  apply (scanstring_so _ s acc (le_n _)).
Qed.

Lemma match_number_so (s : str) :
  so (eq JSONDecodeError) (Json.match_number s).
Proof. unfold Json.match_number. folhas fail. Qed.

Lemma scan_atom_json (s : str) : so json_exn (Json.scan_atom s).
Proof.
  unfold Json.scan_atom.
  folhas ltac:(eapply so_mono; [apply json_exn_decode | apply match_number_so]).
Qed.

Lemma scan_so (fuel : nat) :
  (forall s, so json_exn (Json.scan_once fuel s))
  /\ (forall acc s, so json_exn (Json.scan_members fuel acc s))
  /\ (forall acc s, so json_exn (Json.scan_items fuel acc s)).
Proof.
  induction fuel as [|k (IHo & IHm & IHi)].
  - repeat split; intros; right; reflexivity.
  - repeat split; intros;
      cbn [Json.scan_once Json.scan_members Json.scan_items];
      folhas ltac:(first [ apply IHo | apply IHm | apply IHi
                         | apply scanstring_json | apply scan_atom_json
                         | apply so_bind; [|intros] ]).
Qed.

Lemma loads_so (s : str) : so json_exn (Json.loads s).
Proof.
  unfold Json.loads.
  apply so_bind; [apply (proj1 (scan_so _))|].
  intros vr. folhas fail.
Qed.

Lemma loads_raise (s : str) (e : exn) :
  Json.loads s = Raise e -> json_exn e.
Proof. apply so_raise, loads_so. Qed.

Lemma bind_raise {A B} (r : result A) (k : A -> result B) (e : exn) :
  bind r k = Raise e ->
  r = Raise e \/ exists a, r = Ok a /\ k a = Raise e.
Proof.
  destruct r; simpl; intros H; [right; eauto |].
  left. inversion H. reflexivity.
Qed.

Section Fronteira.
Context {E : Externo} {F : Type} {FL : FileLike F}.

Lemma codificar_desde_raise (resto acc : str) (codigo : dict str) (e : exn) :
  codificar_desde acc resto codigo = Raise e -> e = ValueError.
Proof.
  revert acc. induction resto as [|c r IH]; intros acc H; simpl in H.
  - discriminate.
  - destruct (dict_get codigo [c]).
    + eapply IH; eassumption.
    + congruence.
Qed.

Lemma construir_raise (frequencias : dict Z) (e : exn) :
  _construir_arvore_huffman frequencias = Raise e -> e = IndexError.
Proof.
  unfold _construir_arvore_huffman.
  destruct (huffman_loop _ _); congruence.
Qed.

(** [_escrever_binario] turns every [OSError] into a [RuntimeError]. *)
Lemma escrever_sem_OSError (texto : str) (codigo : dict str) (arq : F) (e : exn) :
  fst (_escrever_binario texto codigo arq) = Raise e ->
  isinstance_OSError e = false.
Proof.
  unfold _escrever_binario.
  destruct (io_bind _ _ arq) as [r arq']. simpl.
  destruct r as [u|e0]; simpl; [discriminate|].
  destruct (isinstance_OSError e0) eqn:He0; intros H; inversion H; subst; auto.
Qed.

(** [_ler_binario] turns every [OSError] into a [RuntimeError] and every
    [JSONDecodeError] into a [ValueError]. *)
Lemma ler_sem_OSError (arq : F) (e : exn) :
  fst (_ler_binario arq) = Raise e ->
  isinstance_OSError e = false /\ isinstance_JSONDecodeError e = false.
Proof.
  unfold _ler_binario.
  destruct (io_bind _ _ arq) as [r arq']. simpl.
  destruct r as [u|e0]; simpl; [discriminate|].
  destruct (isinstance_OSError e0) eqn:He0.
  - intros H; inversion H; subst; auto.
  - destruct (isinstance_JSONDecodeError e0) eqn:He1;
      intros H; inversion H; subst; auto.
Qed.

Lemma decodificar_raise (texto : str) (codigo : pyvalue) (e : exn) :
  _decodificar_texto texto codigo = Raise e ->
  isinstance_OSError e = false.
Proof.
  unfold _decodificar_texto. destruct codigo; try (intros H; inversion H; reflexivity).
  destruct (inverter d []) as [inv|e0] eqn:Hinv; simpl; [discriminate|].
  intros H; inversion H; subst. clear H.
  revert Hinv. generalize (@nil (str * str)).
  induction d as [|[s c] r IH]; intros acc; simpl; [discriminate|].
  destruct c; try apply IH; intros H; inversion H; reflexivity.
Qed.

Lemma texto_para_lista_raise (texto : str) (e : exn) :
  _texto_para_lista texto = Raise e -> isinstance_OSError e = false.
Proof.
  unfold _texto_para_lista, reraise. intros H.
  destruct (bind _ _) as [l|e0] eqn:Hb; [discriminate|].
  apply bind_raise in Hb as [Hb|[v [_ Hb]]].
  - apply loads_raise in Hb as [->| ->]; simpl in H; inversion H; reflexivity.
  - assert (e0 = ValueError) as ->.
    { destruct v; try congruence. destruct (forallb is_dict l); congruence. }
    simpl in H. inversion H; reflexivity.
Qed.

(** Whatever the list and the file, the body of [compactar_lista] lets no
    [OSError] out. *)
Lemma compactar_corpo_sem_OSError (l : list pyvalue) (arq : F) (e : exn) :
  fst (compactar_corpo l arq) = Raise e -> isinstance_OSError e = false.
Proof.
  unfold compactar_corpo, io_bind, io_lift.
  destruct (_construir_arvore_huffman _) as [a|e0] eqn:Ha; simpl.
  - destruct (_codificar_lista _ _) as [t|e1] eqn:Ht; simpl.
    + apply escrever_sem_OSError.
    + intros H; inversion H; subst.
      apply codificar_desde_raise in Ht. subst. reflexivity.
  - intros H; inversion H; subst.
    apply construir_raise in Ha. subst. reflexivity.
Qed.

(** Nor does the body of [descompactar_lista]. *)
Lemma descompactar_corpo_sem_OSError (arq : F) (e : exn) :
  fst (descompactar_corpo arq) = Raise e -> isinstance_OSError e = false.
Proof.
  unfold descompactar_corpo, io_bind, io_lift.
  destruct (_ler_binario arq) as [[lido|e0] arq'] eqn:Hl; simpl.
  - destruct (_decodificar_texto _ _) as [t|e1] eqn:Ht; simpl.
    + apply texto_para_lista_raise.
    + intros H; inversion H; subst. eapply decodificar_raise; eassumption.
  - intros H; inversion H; subst.
    apply (ler_sem_OSError arq e). rewrite Hl. reflexivity.
Qed.

Lemma compactar_codigos (l : list pyvalue) (arq : F) :
  fst (compactar_lista l arq) = CODES.SUCESSO
  \/ fst (compactar_lista l arq) = CODES.ERRO_CODIFICACAO.
Proof.
  unfold compactar_lista, compactar_retorno.
  pose proof (compactar_corpo_sem_OSError l arq) as H.
  destruct (compactar_corpo l arq) as [[u|e] arq']; simpl in *.
  - left; reflexivity.
  - rewrite (H e eq_refl). right. destruct (isinstance_ValueError e); reflexivity.
Qed.

Lemma descompactar_codigos (arq : F) :
  (exists l, fst (descompactar_lista arq) = (CODES.SUCESSO, Lista l))
  \/ (exists e, fst (descompactar_lista arq)
                = (CODES.ERRO_DECODIFICACAO, Mensagem e)).
Proof.
  unfold descompactar_lista, descompactar_retorno.
  pose proof (descompactar_corpo_sem_OSError arq) as H.
  destruct (descompactar_corpo arq) as [[l|e] arq']; simpl in *.
  - left; eauto.
  - rewrite (H e eq_refl). right. exists e.
    destruct (isinstance_ValueError e); reflexivity.
Qed.

End Fronteira.

(* ===================================================================== *)
(** * Frequencies and codes of a one-symbol text *)
(* ===================================================================== *)

Lemma str_eqb_refl (s : str) : str_eqb s s = true.
Proof.
  induction s as [|c r IH]; [reflexivity|].
  unfold str_eqb in *. simpl. rewrite N.eqb_refl, IH. reflexivity.
Qed.

Lemma str_eqb_eq (s t : str) : str_eqb s t = true <-> s = t.
Proof.
  split; [|intros ->; apply str_eqb_refl].
  revert t. induction s as [|c r IH]; intros [|d t]; simpl; try discriminate.
  - reflexivity.
  - unfold str_eqb. simpl. intros H.
    apply andb_true_iff in H as [Hc Hr].
    apply N.eqb_eq in Hc. apply IH in Hr. congruence.
Qed.

Lemma frequencias_repetido (c : N) (k : nat) (m : Z) :
  fold_left
    (fun frequencias caractere =>
       dict_set [caractere]
         (match dict_get frequencias [caractere] with
          | Some n => n
          | None => 0
          end + 1)
         frequencias)
    (repeat c k) [([c], m)]
  = [([c], m + Z.of_nat k)].
Proof.
  revert m. induction k as [|k IH]; intros m.
  - simpl. rewrite Z.add_0_r. reflexivity.
  - cbn [repeat fold_left dict_get dict_set].
    rewrite str_eqb_refl. rewrite IH. f_equal. f_equal. lia.
Qed.

Lemma calcular_frequencias_repetido (c : N) (n : nat) :
  _calcular_frequencias (repeat c (S n)) = [([c], Z.of_nat (S n))].
Proof.
  unfold _calcular_frequencias. cbn [repeat fold_left dict_get dict_set].
  rewrite frequencias_repetido. f_equal. f_equal. lia.
Qed.

Lemma codificar_desde_vazio (c : N) (k : nat) (acc : str) :
  codificar_desde acc (repeat c k) [([c], [])] = Ok acc.
Proof.
  induction k as [|k IH]; [reflexivity|].
  cbn [repeat codificar_desde dict_get]. rewrite str_eqb_refl.
  rewrite app_nil_r. exact IH.
Qed.

(** The text of a list starts with ['['] and ends with [']']. *)
Lemma repr_lista_colchetes {E : Externo} (l : list pyvalue) :
  In (chr "[") (repr (PyList l)) /\ In (chr "]") (repr (PyList l)).
Proof.
  cbn [repr]. change (lit "[") with [chr "["]. change (lit "]") with [chr "]"].
  split.
  - left. reflexivity.
  - apply in_or_app. right. apply in_or_app. right. left. reflexivity.
Qed.

(** C2 (as the code has it).  A text made of one character repeated
    [S n] times has one entry in its frequency table; the heap has one
    entry, the merging loop does not run, and the character keeps the empty
    code it started with: a 0-bit code.  The text then encodes to no bit at
    all, and writing the container stops at [int('', 2)] with a
    [ValueError], after the four bytes of the length were written.  No
    list is rendered as such a text: [str(lista)] always holds ['['] and
    [']'], two different characters. *)
Theorem simbolo_unico_codigo_vazio (E : Externo) (c : N) (n : nat)
    (arquivo : bytes) (lista : list pyvalue) :
  let texto := repeat c (S n) in
  let codigo := [([c], @nil N)] in
  bind (_construir_arvore_huffman (_calcular_frequencias texto))
       (fun arvore => Ok (_gerar_codigo_huffman arvore)) = Ok codigo
  /\ _codificar_lista texto codigo = Ok []
  /\ pack [] = Raise ValueError
  /\ _escrever_binario [] codigo arquivo
     = (Raise ValueError,
        arquivo ++ [Byte.x00; Byte.x00; Byte.x00; Byte.x00])
  /\ repr (PyList lista) <> texto.
Proof.
  intros texto codigo. unfold texto, codigo.
  rewrite calcular_frequencias_repetido.
  split; [reflexivity|]. split.
  { unfold _codificar_lista. apply codificar_desde_vazio. }
  split; [reflexivity|]. split; [reflexivity|].
  intros Heq. destruct (repr_lista_colchetes lista) as [Ha Hf].
  rewrite Heq in Ha, Hf.
  apply repeat_spec in Ha. apply repeat_spec in Hf.
  rewrite <- Hf in Ha. discriminate Ha.
Qed.

(** C2 (as the spec states it) fails at the text ['aaa']: the code of
    ['a'] is the empty string, not one bit; the text encodes to no bit, not
    to three; and [int('', 2)] raises [ValueError], so nothing is packed
    and nothing comes back. *)
Lemma simbolo_unico_counterexample :
  bind (_construir_arvore_huffman (_calcular_frequencias (lit "aaa")))
       (fun arvore => Ok (_gerar_codigo_huffman arvore))
  = Ok [(lit "a", [])]
  /\ _codificar_lista (lit "aaa") [(lit "a", [])] = Ok []
  /\ ~ (exists arvore codigo,
          _construir_arvore_huffman (_calcular_frequencias (lit "aaa"))
          = Ok arvore
          /\ dict_get (_gerar_codigo_huffman arvore) (lit "a") = Some codigo
          /\ len codigo = 1)
  /\ ~ (exists valor, pack [] = Ok valor).
Proof.
  split; [reflexivity|]. split; [reflexivity|]. split.
  - intros (arvore & codigo & Ha & Hc & Hl).
    vm_compute in Ha. inversion Ha; subst arvore.
    vm_compute in Hc. inversion Hc; subst codigo. discriminate Hl.
  - intros [valor H]. discriminate H.
Qed.

(* ===================================================================== *)
(** * Encoding *)
(* ===================================================================== *)

(** The code of a character, or nothing when it has none. *)
Definition codigo_de (codigo_huffman : dict str) (caractere : N) : str :=
  match dict_get codigo_huffman [caractere] with
  | Some codigo => codigo
  | None => []
  end.

Lemma codificar_desde_spec (resto acc : str) (codigo : dict str) :
  codificar_desde acc resto codigo
  = if forallb (fun c => dict_in [c] codigo) resto
    then Ok (acc ++ flat_map (codigo_de codigo) resto)
    else Raise ValueError.
Proof.
  revert acc. induction resto as [|c r IH]; intros acc.
  - simpl. rewrite app_nil_r. reflexivity.
  - cbn [codificar_desde forallb flat_map]. unfold dict_in at 1, codigo_de at 1.
    destruct (dict_get codigo [c]) as [x|]; cbn [andb].
    + rewrite IH. rewrite app_assoc. reflexivity.
    + reflexivity.
Qed.

(** C6.  [_codificar_lista] returns the codes of the characters, joined in
    the order of the text, when every character has an entry in the code
    table, and raises [ValueError] when some character has none; and the
    boundary of [compactar_lista] answers a [ValueError] with the code
    [ERRO_CODIFICACAO], whatever the file. *)
Theorem codificar_lista_spec (texto : str) (codigo_huffman : dict str) :
  _codificar_lista texto codigo_huffman
  = (if forallb (fun c => dict_in [c] codigo_huffman) texto
     then Ok (flat_map (codigo_de codigo_huffman) texto)
     else Raise ValueError)
  /\ (forall (F : Type) (arquivo : F),
        fst (compactar_retorno (Raise ValueError, arquivo))
        = CODES.ERRO_CODIFICACAO).
Proof.
  split; [|reflexivity].
  unfold _codificar_lista. rewrite codificar_desde_spec. reflexivity.
Qed.

(* ===================================================================== *)
(** * Decoding *)
(* ===================================================================== *)

(** The code table as [json.loads] gives it back: every code a string. *)
Definition tabela_lida (codigo_huffman : dict str) : pyvalue :=
  PyDict (map (fun sc => (fst sc, PyStr (snd sc))) codigo_huffman).

(** The inverted dictionary of a table of strings. *)
Definition codigo_invertido (codigo_huffman : dict str) : dict str :=
  fold_left (fun inv sc => dict_set (snd sc) (fst sc) inv) codigo_huffman [].

Lemma inverter_tabela_lida (codigo : dict str) (inv : dict str) :
  inverter (map (fun sc => (fst sc, PyStr (snd sc))) codigo) inv
  = Ok (fold_left (fun inv sc => dict_set (snd sc) (fst sc) inv) codigo inv).
Proof.
  revert inv. induction codigo as [|[s c] r IH]; intros inv; simpl.
  - reflexivity.
  - apply IH.
Qed.

Lemma decodificar_tabela_lida (bits : str) (codigo : dict str) :
  _decodificar_texto bits (tabela_lida codigo)
  = Ok (snd (decodificar_desde (codigo_invertido codigo) [] [] bits)).
Proof.
  unfold _decodificar_texto, tabela_lida.
  rewrite inverter_tabela_lida. reflexivity.
Qed.

(** The loop over [bits ++ resto] is the loop over [resto] from the state
    the loop over [bits] ends in. *)
Lemma decodificar_desde_app (inv : dict str) (bits resto atual texto : str) :
  decodificar_desde inv atual texto (bits ++ resto)
  = decodificar_desde inv
      (fst (decodificar_desde inv atual texto bits))
      (snd (decodificar_desde inv atual texto bits)) resto.
Proof.
  revert atual texto. induction bits as [|b r IH]; intros atual texto.
  - reflexivity.
  - cbn [app decodificar_desde].
    destruct (dict_get inv (atual ++ [b])); apply IH.
Qed.

(** Bits that complete no code leave the decoded text as it was. *)
Lemma decodificar_desde_pendente (inv : dict str) (resto atual texto : str) :
  (forall k, (0 < k <= length resto)%nat ->
             dict_get inv (atual ++ firstn k resto) = None) ->
  decodificar_desde inv atual texto resto = (atual ++ resto, texto).
Proof.
  revert atual. induction resto as [|b r IH]; intros atual H.
  - simpl. rewrite app_nil_r. reflexivity.
  - cbn [decodificar_desde].
    pose proof (H 1%nat) as H1. cbn [firstn] in H1.
    rewrite H1 by (simpl; lia).
    rewrite IH.
    + rewrite <- app_assoc. reflexivity.
    + intros k Hk. rewrite <- app_assoc.
      apply (H (S k)). simpl. lia.
Qed.

(** The bits a text is left with when the loop ends: [simbolo_atual]. *)
Definition pendente (codigo_huffman : dict str) (bits : str) : str :=
  fst (decodificar_desde (codigo_invertido codigo_huffman) [] [] bits).

(** C7 (as the code has it).  [_decodificar_texto] has no failure of its
    own: for a table of strings it always returns a text.  When the bits
    run out while the accumulated prefix matches no code, the prefix is
    dropped and the symbols matched so far are returned: bits [resto]
    that, added to what is pending, never complete a code, change nothing
    in the result. *)
Theorem decodificar_descarta_prefixo (codigo_huffman : dict str) :
  (forall bits, exists texto,
      _decodificar_texto bits (tabela_lida codigo_huffman) = Ok texto)
  /\ (forall bits resto,
        (forall k, (0 < k <= length resto)%nat ->
                   dict_get (codigo_invertido codigo_huffman)
                     (pendente codigo_huffman bits ++ firstn k resto) = None) ->
        _decodificar_texto (bits ++ resto) (tabela_lida codigo_huffman)
        = _decodificar_texto bits (tabela_lida codigo_huffman)).
Proof.
  split.
  - intros bits. rewrite decodificar_tabela_lida. eauto.
  - intros bits resto H. rewrite !decodificar_tabela_lida.
    rewrite decodificar_desde_app.
    rewrite decodificar_desde_pendente by exact H. reflexivity.
Qed.

(** The table [{'a': '0', 'b': '11'}] and the bits ['01']: after ['0']
    gives ['a'], the bit ['1'] is left over. *)
Lemma decodificar_descarta_prefixo_witness :
  _decodificar_texto (lit "0" ++ lit "1")
    (tabela_lida [(lit "a", lit "0"); (lit "b", lit "11")])
  = _decodificar_texto (lit "0")
      (tabela_lida [(lit "a", lit "0"); (lit "b", lit "11")]).
Proof.
  apply (proj2 (decodificar_descarta_prefixo
                  [(lit "a", lit "0"); (lit "b", lit "11")])).
  intros k Hk. simpl in Hk.
  assert (k = 1%nat) as -> by lia. reflexivity.
Defined.

(** C7 (as the spec states it) fails: with the table [{'a': '0', 'b':
    '11'}] the bits ['01'] end in the middle of a symbol, the pending
    prefix ['1'] matches no code, and the call returns ['a']. *)
Lemma decodificar_meio_simbolo_counterexample :
  pendente [(lit "a", lit "0"); (lit "b", lit "11")] (lit "01") = lit "1"
  /\ dict_get (codigo_invertido [(lit "a", lit "0"); (lit "b", lit "11")])
       (lit "1") = None
  /\ _decodificar_texto (lit "01")
       (tabela_lida [(lit "a", lit "0"); (lit "b", lit "11")])
     = Ok (lit "a")
  /\ (forall e, _decodificar_texto (lit "01")
                  (tabela_lida [(lit "a", lit "0"); (lit "b", lit "11")])
                <> Raise e).
Proof. repeat split. discriminate. Qed.

(* ===================================================================== *)
(** * The codes the two public functions return *)
(* ===================================================================== *)

(** C10.  Whatever the stream gives or raises, [descompactar_lista]
    returns [(SUCESSO, list)] or [(ERRO_DECODIFICACAO, message)], never
    [ERRO_ARQUIVO], [ERRO_CONSTRUCAO_ARVORE] or [ERRO_FORMATO_DADOS]:
    [_ler_binario] lets out neither an [OSError] (it raises [RuntimeError]
    in its place) nor a [JSONDecodeError] (it raises [ValueError]). *)
Theorem descompactar_lista_codigos (E : Externo) (F : Type) (FL : FileLike F)
    (arquivo : F) :
  ((exists lista, fst (descompactar_lista arquivo) = (CODES.SUCESSO, Lista lista))
   \/ (exists e, fst (descompactar_lista arquivo)
                 = (CODES.ERRO_DECODIFICACAO, Mensagem e)))
  /\ fst (fst (descompactar_lista arquivo)) <> CODES.ERRO_ARQUIVO
  /\ fst (fst (descompactar_lista arquivo)) <> CODES.ERRO_CONSTRUCAO_ARVORE
  /\ fst (fst (descompactar_lista arquivo)) <> CODES.ERRO_FORMATO_DADOS
  /\ so (fun e => isinstance_OSError e = false
                  /\ isinstance_JSONDecodeError e = false)
        (fst (_ler_binario arquivo)).
Proof.
  split; [apply descompactar_codigos|].
  repeat split;
    try (destruct (descompactar_codigos arquivo) as [[l H]|[e H]];
         rewrite H; discriminate).
  pose proof (ler_sem_OSError arquivo) as H.
  destruct (fst (_ler_binario arquivo)) as [x|e]; simpl; auto.
Qed.

Section FalhaDeArquivo.
Context {E : Externo} {F : Type} {FL : FileLike F}.

(** With a [write] that raises [OSError], the body of [compactar_lista]
    does not return. *)
Lemma compactar_corpo_falha (l : list pyvalue) (arq : F) :
  (forall b f, fst (file_write b f) = Raise OSError) ->
  forall u, fst (compactar_corpo l arq) <> Ok u.
Proof.
  intros Hw u H. unfold compactar_corpo, io_bind, io_lift in H.
  destruct (_construir_arvore_huffman _) as [a|e0];
    [|simpl in H; discriminate H].
  destruct (_codificar_lista _ _) as [t|e1]; [|simpl in H; discriminate H].
  unfold _escrever_binario, io_bind, io_lift in H.
  destruct (to_bytes (len t) 4 little) as [cab|e2].
  - specialize (Hw cab arq).
    destruct (file_write cab arq) as [r arq']. simpl in Hw. subst r.
    discriminate H.
  - simpl in H. destruct (isinstance_OSError e2); discriminate H.
Qed.

Lemma descompactar_corpo_falha (arq : F) :
  (forall n f, fst (file_read n f) = Raise OSError) ->
  fst (descompactar_corpo arq) = Raise RuntimeError.
Proof.
  intros Hr. unfold descompactar_corpo, _ler_binario, io_bind.
  specialize (Hr 4 arq).
  destruct (file_read 4 arq) as [r arq']. simpl in Hr. subst r.
  reflexivity.
Qed.

End FalhaDeArquivo.

(** C9 (the code falls short of it).  When every [write] of the file
    raises [OSError], [compactar_lista] returns [ERRO_CODIFICACAO], not
    [ERRO_ARQUIVO]; when every [read] raises [OSError],
    [descompactar_lista] returns [ERRO_DECODIFICACAO]: the inner functions
    have already turned the [OSError] into a [RuntimeError], which the
    boundary takes in its last clause. *)
Theorem falha_de_arquivo_codigos (E : Externo) (F : Type) (FL : FileLike F)
    (lista_dicionarios : list pyvalue) (arquivo : F) :
  (forall b f, fst (file_write b f) = Raise OSError) ->
  (forall n f, fst (file_read n f) = Raise OSError) ->
  fst (compactar_lista lista_dicionarios arquivo) = CODES.ERRO_CODIFICACAO
  /\ fst (descompactar_lista arquivo)
     = (CODES.ERRO_DECODIFICACAO, Mensagem RuntimeError).
Proof.
  intros Hw Hr. split.
  - destruct (compactar_codigos lista_dicionarios arquivo) as [H|H]; [|exact H].
    exfalso. unfold compactar_lista, compactar_retorno in H.
    pose proof (compactar_corpo_falha lista_dicionarios arquivo Hw) as Hn.
    destruct (compactar_corpo lista_dicionarios arquivo) as [[u|e] arq'].
    + exact (Hn u eq_refl).
    + simpl in H. destruct (isinstance_OSError e);
        [|destruct (isinstance_ValueError e)]; discriminate.
  - unfold descompactar_lista, descompactar_retorno.
    pose proof (descompactar_corpo_falha arquivo Hr) as H.
    destruct (descompactar_corpo arquivo) as [r arq']. simpl in H. subst r.
    reflexivity.
Qed.

(** The file that fails at every operation. *)
Lemma falha_de_arquivo_codigos_witness :
  fst (compactar_lista (E := Plataforma) [] Quebrado) = CODES.ERRO_CODIFICACAO
  /\ fst (descompactar_lista (E := Plataforma) Quebrado)
     = (CODES.ERRO_DECODIFICACAO, Mensagem RuntimeError).
Proof.
  apply (falha_de_arquivo_codigos Plataforma quebrado ArquivoQuebrado [] Quebrado).
  - intros b f. reflexivity.
  - intros n f. reflexivity.
Defined.

(** C8 (the code falls short of it).  A container that lost its last byte
    is never answered with [ERRO_FORMATO_DADOS]: the code is [SUCESSO] or
    [ERRO_DECODIFICACAO] for every stream.  On the container of the empty
    list, with a codec that rejects the truncated stream as zlib does, the
    [zlib.error] reaches the last clause of the boundary and the code is
    [ERRO_DECODIFICACAO]. *)
Theorem truncado_nao_e_erro_de_formato :
  (forall (E : Externo) (lista_dicionarios : list pyvalue),
      let container := snd (compactar_lista lista_dicionarios []) in
      fst (fst (descompactar_lista (removelast container)))
      <> CODES.ERRO_FORMATO_DADOS)
  /\ (let container := snd (compactar_lista (E := Plataforma) [] []) in
      fst (compactar_lista (E := Plataforma) [] []) = CODES.SUCESSO
      /\ descompactar_lista (E := Plataforma) (removelast container)
         = ((CODES.ERRO_DECODIFICACAO, Mensagem ZlibError), [])).
Proof.
  split.
  - intros E l container.
    destruct (descompactar_codigos (removelast container)) as [[x H]|[e H]];
      rewrite H; discriminate.
  - vm_compute. split; reflexivity.
Qed.

(* ===================================================================== *)
(** * What is written does not depend on the file *)
(* ===================================================================== *)

(** On a pipe, the statements of the module only append: their result and
    the bytes they add are those of a run on the empty pipe. *)
Definition anexa {A} (m : io bytes A) : Prop :=
  forall arq : bytes, m arq = (fst (m []), arq ++ snd (m [])).

Lemma anexa_lift {A} (r : result A) : anexa (io_lift r).
Proof. intros arq. unfold io_lift. simpl. rewrite app_nil_r. reflexivity. Qed.

Lemma anexa_write (b : bytes) : anexa (file_write b).
Proof. intros arq. reflexivity. Qed.

Lemma anexa_bind {A B} (m : io bytes A) (k : A -> io bytes B) :
  anexa m -> (forall a, anexa (k a)) -> anexa (io_bind m k).
Proof.
  intros Hm Hk arq. unfold io_bind.
  rewrite (Hm arq). destruct (m []) as [[a|e] w]; simpl.
  - rewrite (Hk a (arq ++ w)), (Hk a w). simpl.
    rewrite app_assoc. reflexivity.
  - reflexivity.
Qed.

Lemma anexa_except {A} (m : io bytes A) (g : result A -> result A) :
  anexa m ->
  anexa (fun arquivo => let (r, arquivo') := m arquivo in (g r, arquivo')).
Proof.
  intros Hm arq. rewrite (Hm arq). destruct (m []) as [r w]. reflexivity.
Qed.

Section Determinismo.
Context {E : Externo}.

Lemma anexa_escrever (texto : str) (codigo : dict str) :
  anexa (_escrever_binario texto codigo).
Proof.
  unfold _escrever_binario. apply anexa_except.
  repeat first [ apply anexa_bind; [|intros ?]
               | apply anexa_lift | apply anexa_write ].
Qed.

Lemma anexa_compactar (l : list pyvalue) : anexa (compactar_corpo l).
Proof.
  unfold compactar_corpo.
  repeat first [ apply anexa_bind; [|intros ?]
               | apply anexa_lift | apply anexa_escrever ].
Qed.

End Determinismo.

(** C4.  The return code and the bytes of the container are a function of
    the record sequence alone: two calls on the same list, on files in
    whatever state, return the same code and append the same bytes. *)
Theorem compactar_lista_deterministico (E : Externo)
    (lista_dicionarios : list pyvalue) (arquivo1 arquivo2 : bytes) :
  exists (codigo : Z) (container : bytes),
    compactar_lista lista_dicionarios arquivo1 = (codigo, arquivo1 ++ container)
    /\ compactar_lista lista_dicionarios arquivo2
       = (codigo, arquivo2 ++ container).
Proof.
  pose proof (anexa_compactar lista_dicionarios arquivo1) as H1.
  pose proof (anexa_compactar lista_dicionarios arquivo2) as H2.
  unfold compactar_lista, compactar_retorno. rewrite H1, H2. clear H1 H2.
  destruct (compactar_corpo (F := bytes) lista_dicionarios []) as [[u|e] w];
    simpl.
  - exists CODES.SUCESSO, w. split; reflexivity.
  - exists (if isinstance_OSError e then CODES.ERRO_ARQUIVO
            else CODES.ERRO_CODIFICACAO), w.
    destruct (isinstance_OSError e); [|destruct (isinstance_ValueError e)];
      split; reflexivity.
Qed.

(* ===================================================================== *)
(** * Integers to bytes and back *)
(* ===================================================================== *)

Lemma Z_of_byte_of_Z (z : Z) : Z_of_byte (byte_of_Z z) = z mod 256.
Proof.
  unfold Z_of_byte, byte_of_Z.
  assert (Hm : 0 <= z mod 256 < 256) by (apply Z.mod_pos_bound; lia).
  destruct (Byte.of_N (Z.to_N (z mod 256))) as [b|] eqn:Hb.
  - apply Byte.to_of_N in Hb. rewrite Hb. apply Z2N.id. lia.
  - apply Byte.of_N_None_iff in Hb. lia.
Qed.

Lemma Z_of_byte_range (b : Byte.byte) : 0 <= Z_of_byte b < 256.
Proof.
  unfold Z_of_byte. pose proof (Byte.to_N_bounded b). lia.
Qed.

Lemma length_bytes_little (n : nat) (v : Z) : length (bytes_little n v) = n.
Proof.
  revert v. induction n as [|n IH]; intros v; simpl; [|rewrite IH]; reflexivity.
Qed.

Lemma from_bytes_little_bytes_little (n : nat) (v : Z) :
  from_bytes_little (bytes_little n v) = v mod 256 ^ Z.of_nat n.
Proof.
  revert v. induction n as [|n IH]; intros v.
  - simpl. rewrite Z.mod_1_r. reflexivity.
  - cbn [bytes_little from_bytes_little fold_right].
    fold (from_bytes_little (bytes_little n (v / 256))).
    rewrite IH, Z_of_byte_of_Z.
    rewrite Nat2Z.inj_succ, Z.pow_succ_r by lia.
    rewrite Z.rem_mul_r by (try apply Z.pow_pos_nonneg; lia).
    reflexivity.
Qed.

(** What [to_bytes] wrote, [from_bytes] reads back, in either order. *)
Lemma from_bytes_to_bytes (v n : Z) (order : byteorder) (bs : bytes) :
  to_bytes v n order = Ok bs ->
  from_bytes bs order = v /\ len bs = n.
Proof.
  unfold to_bytes.
  destruct (n <? 0) eqn:Hn; [discriminate|].
  destruct ((0 <=? v) && (v <? 256 ^ n)) eqn:Hv; [|discriminate].
  apply Z.ltb_ge in Hn. apply andb_true_iff in Hv as [H0 H1].
  apply Z.leb_le in H0. apply Z.ltb_lt in H1.
  intros H; inversion H; subst bs; clear H. unfold len.
  split.
  - assert (from_bytes_little (bytes_little (Z.to_nat n) v) = v) as Hl.
    { rewrite from_bytes_little_bytes_little, Z2Nat.id by lia.
      apply Z.mod_small. lia. }
    destruct order; unfold from_bytes; [|rewrite rev_involutive]; exact Hl.
  - destruct order; [|rewrite length_rev]; rewrite length_bytes_little; lia.
Qed.

Lemma to_bytes_ok (v n : Z) (order : byteorder) :
  0 <= n -> 0 <= v < 256 ^ n ->
  exists bs, to_bytes v n order = Ok bs.
Proof.
  intros Hn Hv. unfold to_bytes.
  destruct (n <? 0) eqn:Hn'; [apply Z.ltb_lt in Hn'; lia|].
  destruct (Z.leb_spec 0 v); [|lia].
  destruct (Z.ltb_spec v (256 ^ n)); [|lia].
  simpl. eauto.
Qed.

(* ===================================================================== *)
(** * Bits to an integer and back *)
(* ===================================================================== *)

(** A text of binary digits. *)
Definition binario (s : str) : bool :=
  forallb (fun c => (c =? chr "0")%N || (c =? chr "1")%N) s.

Definition bit_de (c : N) : Z := if (c =? chr "1")%N then 1 else 0.

Lemma base2_desde_app (s : str) (c : N) (acc : Z) :
  binario (s ++ [c]) = true ->
  exists v, base2_desde acc s = Ok v
            /\ base2_desde acc (s ++ [c]) = Ok (2 * v + bit_de c).
Proof.
  revert acc. induction s as [|d r IH]; intros acc H.
  - exists acc. split; [reflexivity|].
    unfold binario in H. cbn [app forallb] in H. rewrite andb_true_r in H.
    cbn [app base2_desde]. unfold bit_de.
    destruct (c =? chr "0")%N eqn:H0; destruct (c =? chr "1")%N eqn:H1.
    + apply N.eqb_eq in H0, H1. subst c. discriminate H1.
    + f_equal. lia.
    + reflexivity.
    + discriminate H.
  - unfold binario in H. cbn [app forallb] in H.
    apply andb_true_iff in H as [Hd Hr].
    cbn [app base2_desde].
    destruct (d =? chr "0")%N; [apply IH; exact Hr|].
    rewrite orb_false_l in Hd. rewrite Hd. apply IH; exact Hr.
Qed.

Lemma binario_app (s t : str) :
  binario (s ++ t) = binario s && binario t.
Proof. unfold binario. apply forallb_app. Qed.

(** The value of a text of binary digits is below [2 ^ length]. *)
Lemma base2_desde_valor (s : str) :
  binario s = true ->
  exists v, base2_desde 0 s = Ok v /\ 0 <= v < 2 ^ len s.
Proof.
  induction s as [|c s IH] using rev_ind; intros H.
  - exists 0. split; [reflexivity|]. unfold len. simpl. lia.
  - destruct (base2_desde_app s c 0 H) as [v [Hv Hvc]].
    rewrite binario_app in H. apply andb_true_iff in H as [Hs Hc].
    destruct (IH Hs) as [v' [Hv' Hb]].
    rewrite Hv in Hv'. inversion Hv'; subst v'.
    exists (2 * v + bit_de c). split; [exact Hvc|].
    unfold len in *. rewrite length_app. simpl length.
    rewrite Nat2Z.inj_add. change (Z.of_nat 1) with 1.
    rewrite Z.pow_add_r by lia. change (2 ^ 1) with 2.
    unfold bit_de. destruct (c =? chr "1")%N; lia.
Qed.

Lemma binario_um (c : N) :
  binario [c] = true -> c = chr "0" \/ c = chr "1".
Proof.
  unfold binario. cbn [forallb]. rewrite andb_true_r. intros H.
  apply orb_true_iff in H as [H|H]; apply N.eqb_eq in H; auto.
Qed.

Lemma bin_pos_cabeca (p : positive) : exists t, bin_pos p = chr "1" :: t.
Proof.
  induction p as [p [t IH]|p [t IH]|]; cbn [bin_pos].
  - rewrite IH. cbn [app]. eauto.
  - rewrite IH. cbn [app]. eauto.
  - eauto.
Qed.

(** Without a sign in front, [zfill] only puts zeros in front. *)
Lemma zfill_digito (c : N) (r : str) (w : Z) :
  c = chr "0" \/ c = chr "1" ->
  zfill (c :: r) w
  = repeat (chr "0") (Z.to_nat (w - len (c :: r))) ++ c :: r.
Proof. intros [-> | ->]; reflexivity. Qed.

Lemma repeat_snoc {A} (x : A) (n : nat) : repeat x n ++ [x] = x :: repeat x n.
Proof. induction n as [|n IH]; simpl; [|rewrite IH]; reflexivity. Qed.

(** Filling [t ++ [c]] to one more place is filling [t] and adding [c]. *)
Lemma zfill_snoc (d c : N) (t : str) (w : Z) :
  d = chr "0" \/ d = chr "1" ->
  zfill ((d :: t) ++ [c]) (w + 1) = zfill (d :: t) w ++ [c].
Proof.
  intros Hd. cbn [app]. rewrite !zfill_digito by exact Hd.
  rewrite <- app_assoc. cbn [app]. f_equal. f_equal.
  unfold len. cbn [length]. rewrite length_app. cbn [length]. lia.
Qed.

(** [bin] of the value of a text of binary digits, filled with zeros to
    the length of the text, is the text. *)
Lemma zfill_bin_base2 (s : str) (v : Z) :
  s <> [] -> binario s = true -> base2_desde 0 s = Ok v ->
  zfill (bin_2 v) (len s) = s.
Proof.
  revert v. induction s as [|c s IH] using rev_ind; intros v Hne Hb Hv;
    [congruence|].
  destruct (base2_desde_app s c 0 Hb) as [v' [Hv' Hvc]].
  assert (v = 2 * v' + bit_de c) as -> by congruence. clear Hv.
  rewrite binario_app in Hb. apply andb_true_iff in Hb as [Hs Hc].
  apply binario_um in Hc.
  destruct s as [|d s].
  - simpl in Hv'. inversion Hv'; subst v'.
    destruct Hc as [-> | ->]; reflexivity.
  - specialize (IH v' ltac:(discriminate) Hs Hv').
    assert (Hlen : len ((d :: s) ++ [c]) = len (d :: s) + 1).
    { unfold len. rewrite length_app. simpl length. lia. }
    rewrite Hlen.
    destruct (base2_desde_valor (d :: s) Hs) as [v0 [Hv0 Hpos]].
    rewrite Hv' in Hv0. inversion Hv0; subst v0.
    assert (Hbit : bin_2 (2 * v' + bit_de c)
                   = match v' with
                     | 0 => [c]
                     | _ => bin_2 v' ++ [c]
                     end).
    { destruct v' as [|p|p]; [| |lia];
        destruct Hc as [-> | ->]; reflexivity. }
    rewrite Hbit. destruct v' as [|p|p]; [| |lia].
    + (* the text so far is all zeros *)
      assert (Hn : 1 <= len (d :: s)) by (unfold len; simpl length; lia).
      remember (len (d :: s)) as n eqn:En. clear En.
      rewrite <- IH. change (bin_2 0) with [chr "0"].
      rewrite !zfill_digito by auto.
      assert (Z.to_nat (n + 1 - len [c])
              = S (Z.to_nat (n - len [chr "0"]))) as ->
        by (unfold len; simpl length; lia).
      cbn [repeat]. rewrite <- repeat_snoc.
      rewrite <- !app_assoc. reflexivity.
    + cbn [bin_2] in *.
      destruct (bin_pos_cabeca p) as [t Ht]. rewrite Ht in *.
      rewrite zfill_snoc by auto. rewrite IH. reflexivity.
Qed.

Lemma ceil8 (n : Z) : 0 <= n -> n <= 8 * ((n + 7) / 8).
Proof.
  intros Hn. pose proof (Z.div_mod (n + 7) 8 ltac:(lia)).
  pose proof (Z.mod_pos_bound (n + 7) 8 ltac:(lia)). lia.
Qed.

Lemma pack_unpack_lema (b : str) :
  b <> [] -> binario b = true ->
  exists (v : Z) (valor : bytes),
    int_base2 b = Ok v
    /\ pack b = Ok valor
    /\ len valor = (len b + 7) / 8
    /\ from_bytes valor big = v
    /\ unpack valor (len b) = b.
Proof.
  intros Hne Hb.
  destruct (base2_desde_valor b Hb) as [v [Hv Hrange]].
  assert (Hi : int_base2 b = Ok v).
  { destruct b; [congruence | exact Hv]. }
  assert (Hlen : 0 <= len b) by (unfold len; lia).
  assert (Hn : 0 <= (len b + 7) / 8) by (apply Z.div_pos; lia).
  assert (Hfit : 0 <= v < 256 ^ ((len b + 7) / 8)).
  { split; [lia|].
    change 256 with (2 ^ 8). rewrite <- Z.pow_mul_r by lia.
    apply Z.lt_le_trans with (2 ^ len b); [lia|].
    apply Z.pow_le_mono_r; [lia | apply ceil8; lia]. }
  destruct (to_bytes_ok v _ big Hn Hfit) as [valor Hvalor].
  destruct (from_bytes_to_bytes _ _ _ _ Hvalor) as [Hfrom Hsize].
  exists v, valor. unfold pack, unpack. rewrite Hi. cbn [bind].
  repeat split; try assumption.
  rewrite Hfrom. apply zfill_bin_base2; assumption.
Qed.

(** C5 (as the code has it).  A non-empty bit sequence [b] (a text of
    ['0'] and ['1']) is read by [pack] as the binary digits of one
    unsigned integer, most significant first, and written big-endian into
    exactly [(len(b) + 7) // 8] bytes; [unpack] reads that integer and
    fills its binary digits with zeros on the left up to [len(b)], which
    gives [b] back, leading zeros included. *)
Theorem pack_unpack (b : str) :
  b <> [] -> binario b = true ->
  exists (v : Z) (valor : bytes),
    int_base2 b = Ok v
    /\ pack b = Ok valor
    /\ len valor = (len b + 7) / 8
    /\ from_bytes valor big = v
    /\ unpack valor (len b) = b.
Proof. exact (pack_unpack_lema b). Qed.

(** The bit sequence ['00101'], whose two leading zeros the integer 5 does
    not keep. *)
Lemma pack_unpack_witness :
  exists (v : Z) (valor : bytes),
    int_base2 (lit "00101") = Ok v
    /\ pack (lit "00101") = Ok valor
    /\ len valor = (len (lit "00101") + 7) / 8
    /\ from_bytes valor big = v
    /\ unpack valor (len (lit "00101")) = lit "00101".
Proof.
  apply (pack_unpack (lit "00101")).
  - discriminate.
  - reflexivity.
Defined.

(** C5 (as the spec states it) fails at the empty bit sequence: [int('',
    2)] raises [ValueError], so there is nothing to unpack; and no bytes
    unpack to the empty sequence, since [bin] prints at least one digit. *)
Lemma pack_vazio_counterexample :
  pack [] = Raise ValueError
  /\ unpack [] (len (@nil N)) = lit "0"
  /\ ~ (exists valor, pack [] = Ok valor /\ unpack valor (len (@nil N)) = []).
Proof.
  repeat split. intros [valor [H _]]. discriminate H.
Qed.

(* ===================================================================== *)
(** * Reading back what was written *)
(* ===================================================================== *)

(** The first field of a container. *)
Definition campo_bit_length (container : bytes) : Z :=
  from_bytes (firstn 4 container) little.

Lemma firstn_exato {A} (l r : list A) (n : nat) :
  length l = n -> firstn n (l ++ r) = l.
Proof.
  intros <-. rewrite firstn_app, Nat.sub_diag, firstn_all. simpl.
  apply app_nil_r.
Qed.

Lemma skipn_exato {A} (l r : list A) (n : nat) :
  length l = n -> skipn n (l ++ r) = r.
Proof.
  intros <-. rewrite skipn_app, Nat.sub_diag, skipn_all. reflexivity.
Qed.

(** Reading from a pipe the number of bytes that come first in it. *)
Lemma ler_exato (n : Z) (l r : bytes) :
  len l = n ->
  file_read n (l ++ r) = (Ok l, r).
Proof.
  intros Hn. cbn [file_read Pipe].
  assert (length l = Z.to_nat n) as Hl by (unfold len in Hn; lia).
  rewrite firstn_exato, skipn_exato by exact Hl. reflexivity.
Qed.

(** Reading more than what is left gives what is left. *)
Lemma ler_resto (n : Z) (l : bytes) :
  len l <= n ->
  file_read n l = (Ok l, []).
Proof.
  intros Hn. cbn [file_read Pipe].
  assert (length l <= Z.to_nat n)%nat as Hl by (unfold len in Hn; lia).
  rewrite firstn_all2, skipn_all2 by exact Hl. reflexivity.
Qed.

Lemma from_bytes_little_4 (n : Z) :
  0 <= n < 2 ^ 32 -> from_bytes (bytes_little 4 n) little = n.
Proof.
  intros Hn. unfold from_bytes. rewrite from_bytes_little_bytes_little.
  apply Z.mod_small. change (256 ^ Z.of_nat 4) with (2 ^ 32). exact Hn.
Qed.

Lemma to_bytes_4 (n : Z) :
  0 <= n < 2 ^ 32 -> to_bytes n 4 little = Ok (bytes_little 4 n).
Proof.
  intros Hn. unfold to_bytes. change (4 <? 0) with false. cbv iota.
  change (256 ^ 4) with (2 ^ 32).
  destruct (Z.leb_spec 0 n); [|lia].
  destruct (Z.ltb_spec n (2 ^ 32)); [|lia]. reflexivity.
Qed.

Section Ida_e_volta.
Context {E : Externo}.

(** What [_ler_binario] makes of the four fields of a container, the last
    of which may be shorter than its length field says. *)
Lemma ler_binario_campos (tamanho tlen : Z) (valor blob : bytes) :
  0 <= tamanho < 2 ^ 32 -> len valor = (tamanho + 7) / 8 ->
  0 <= tlen < 2 ^ 32 -> len blob <= tlen ->
  _ler_binario
    (bytes_little 4 tamanho ++ valor ++ bytes_little 4 tlen ++ blob)
  = (ler_except
       (bind (bind (zlib_decompress blob) Utf8.decode) (fun json_data =>
        bind (Json.loads json_data) (fun codigo_huffman =>
        Ok (unpack valor tamanho, codigo_huffman)))),
     []).
Proof.
  intros Ht Hv Hl Hb. unfold _ler_binario, io_bind.
  rewrite (ler_exato 4 (bytes_little 4 tamanho))
    by (unfold len; rewrite length_bytes_little; reflexivity).
  rewrite from_bytes_little_4 by exact Ht.
  rewrite (ler_exato ((tamanho + 7) / 8) valor) by exact Hv.
  rewrite (ler_exato 4 (bytes_little 4 tlen))
    by (unfold len; rewrite length_bytes_little; reflexivity).
  rewrite from_bytes_little_4 by exact Hl.
  rewrite (ler_resto tlen blob) by exact Hb.
  unfold io_lift, io_ret.
  destruct (zlib_decompress blob) as [d|e]; [|reflexivity].
  cbn [bind]. destruct (Utf8.decode d) as [j|e]; [|reflexivity].
  cbn [bind]. destruct (Json.loads j) as [c|e]; reflexivity.
Qed.

(** What [_escrever_binario] appends to a pipe. *)
Lemma escrever_binario_campos (texto : str) (codigo : dict str)
    (valor json_data : bytes) (arquivo : bytes) :
  len texto < 2 ^ 32 -> pack texto = Ok valor ->
  Utf8.encode (Json.dumps codigo) = Ok json_data ->
  len (zlib_compress json_data) < 2 ^ 32 ->
  _escrever_binario texto codigo arquivo
  = (Ok tt,
     arquivo ++ bytes_little 4 (len texto) ++ valor
     ++ bytes_little 4 (len (zlib_compress json_data))
     ++ zlib_compress json_data).
Proof.
  intros Ht Hp Hj Hz. unfold _escrever_binario, io_bind, io_lift.
  rewrite to_bytes_4 by (unfold len in *; lia).
  cbn [file_write Pipe]. rewrite Hp, Hj.
  rewrite to_bytes_4 by (unfold len in *; lia).
  cbn [reraise]. rewrite <- !app_assoc. reflexivity.
Qed.

(** The container that holds a non-empty bit sequence and a code table
    is read back as that bit sequence and the table that the JSON text
    of the table parses to, when the codec gives back what it took. *)
Lemma container_ida_e_volta (texto : str) (codigo : dict str)
    (json_data : bytes) :
  texto <> [] -> binario texto = true -> len texto < 2 ^ 32 ->
  Utf8.encode (Json.dumps codigo) = Ok json_data ->
  zlib_decompress (zlib_compress json_data) = Ok json_data ->
  len (zlib_compress json_data) < 2 ^ 32 ->
  exists container,
    _escrever_binario texto codigo [] = (Ok tt, container)
    /\ campo_bit_length container = len texto
    /\ _ler_binario container
       = (ler_except
            (bind (Utf8.decode json_data) (fun json_text =>
             bind (Json.loads json_text) (fun codigo_lido =>
             Ok (texto, codigo_lido)))),
          []).
Proof.
  intros Hne Hb Ht Hj Hz Hzl.
  destruct (pack_unpack_lema texto Hne Hb) as [v [valor (_ & Hp & Hsize & _ & Hun)]].
  eexists. split; [|split].
  - rewrite (escrever_binario_campos texto codigo valor json_data [])
      by assumption.
    reflexivity.
  - unfold campo_bit_length. cbn [app].
    rewrite firstn_exato by apply length_bytes_little.
    apply from_bytes_little_4. unfold len in *. lia.
  - cbn [app].
    rewrite ler_binario_campos;
      [| unfold len in *; lia | exact Hsize | unfold len in *; lia | lia].
    rewrite Hz, Hun. reflexivity.
Qed.

End Ida_e_volta.

(* ===================================================================== *)
(** * Compacting and decompacting a given list *)
(* ===================================================================== *)

(** The JSON text of the code table of a record sequence, in bytes: what
    [_escrever_binario] hands to [zlib.compress]. *)
Definition tabela_json {E : Externo} (l : list pyvalue) : result bytes :=
  bind (_construir_arvore_huffman (_calcular_frequencias (repr (PyList l))))
       (fun arvore => Utf8.encode (Json.dumps (_gerar_codigo_huffman arvore))).

(** The codec gives back the serialized code table of [l], in a stream
    whose length fits the four bytes of its field. *)
Definition zlib_fiel (E : Externo) (l : list pyvalue) : Prop :=
  forall json_data,
    tabela_json l = Ok json_data ->
    zlib_decompress (zlib_compress json_data) = Ok json_data
    /\ len (zlib_compress json_data) < 2 ^ 32.

(** What [descompactar_lista] does once [_ler_binario] has returned. *)
Definition depois_de_ler (lido : result (str * pyvalue))
  : result (list pyvalue) :=
  bind lido (fun tc =>
  bind (_decodificar_texto (fst tc) (snd tc)) _texto_para_lista).

Section Lista_dada.
Context {E : Externo}.

Lemma compactar_descompactar (l : list pyvalue) (arvore : list par)
    (texto : str) (json_data : bytes) :
  _construir_arvore_huffman (_calcular_frequencias (repr (PyList l)))
  = Ok arvore ->
  _codificar_lista (repr (PyList l)) (_gerar_codigo_huffman arvore)
  = Ok texto ->
  texto <> [] -> binario texto = true -> len texto < 2 ^ 32 ->
  Utf8.encode (Json.dumps (_gerar_codigo_huffman arvore)) = Ok json_data ->
  zlib_fiel E l ->
  exists container,
    compactar_lista l [] = (CODES.SUCESSO, container)
    /\ campo_bit_length container = len texto
    /\ descompactar_lista container
       = descompactar_retorno
           (depois_de_ler
              (ler_except
                 (bind (Utf8.decode json_data) (fun json_text =>
                  bind (Json.loads json_text) (fun codigo_lido =>
                  Ok (texto, codigo_lido))))),
            []).
Proof.
  intros Ha Ht Hne Hb Hlen Hj Hz.
  destruct (Hz json_data) as [Hz1 Hz2].
  { unfold tabela_json. rewrite Ha. exact Hj. }
  destruct (container_ida_e_volta texto _ json_data Hne Hb Hlen Hj Hz1 Hz2)
    as [container (Hw & Hc & Hr)].
  exists container. split; [|split; [exact Hc|]].
  - unfold compactar_lista, compactar_corpo, io_bind, io_lift.
    rewrite Ha, Ht, Hw. reflexivity.
  - unfold descompactar_lista, descompactar_corpo, io_bind, io_lift.
    rewrite Hr. unfold depois_de_ler.
    destruct (ler_except _) as [[t c]|e]; [|reflexivity].
    cbn [bind fst snd].
    destruct (_decodificar_texto t c) as [d|e]; reflexivity.
Qed.

End Lista_dada.

(** C3 (as the code has it).  The empty record sequence is rendered as the
    text ['[]'], of two characters: its code table has the two entries
    ['[' -> '0'] and [']' -> '1'], the bit sequence is ['01'] and the
    [bit_length] field of the container is 2.  Decompacting that container
    returns the empty sequence, when the codec gives the serialized table
    back. *)
Theorem lista_vazia (E : Externo) :
  zlib_fiel E [] ->
  exists container,
    compactar_lista [] [] = (CODES.SUCESSO, container)
    /\ campo_bit_length container = 2
    /\ bind (_construir_arvore_huffman
               (_calcular_frequencias (repr (PyList []))))
            (fun arvore => Ok (_gerar_codigo_huffman arvore))
       = Ok [(lit "[", lit "0"); (lit "]", lit "1")]
    /\ descompactar_lista container = ((CODES.SUCESSO, Lista []), []).
Proof.
  intros Hz.
  destruct (compactar_descompactar []
              [(lit "[", lit "0"); (lit "]", lit "1")] (lit "01")
              (match Utf8.encode
                       (Json.dumps [(lit "[", lit "0"); (lit "]", lit "1")])
               with Ok j => j | Raise _ => [] end))
    as [container (Hc & Hb & Hd)];
    try reflexivity; try discriminate; try exact Hz.
  exists container. repeat split; assumption.
Qed.

(** The stored codec is faithful on the table of the empty list. *)
Lemma lista_vazia_witness :
  exists container,
    compactar_lista (E := Plataforma) [] [] = (CODES.SUCESSO, container)
    /\ campo_bit_length container = 2
    /\ bind (_construir_arvore_huffman
               (_calcular_frequencias (repr (E := Plataforma) (PyList []))))
            (fun arvore => Ok (_gerar_codigo_huffman arvore))
       = Ok [(lit "[", lit "0"); (lit "]", lit "1")]
    /\ descompactar_lista (E := Plataforma) container
       = ((CODES.SUCESSO, Lista []), []).
Proof.
  apply (lista_vazia Plataforma).
  intros json_data H. vm_compute in H. inversion H; subst json_data.
  vm_compute. split; reflexivity.
Defined.

(** C3 (as the spec states it) fails: the container of the empty record
    sequence has 2 in its [bit_length] field, not 0, and its code table has
    two entries, not one or none. *)
Lemma lista_vazia_counterexample :
  compactar_lista (E := Plataforma) [] []
  = (CODES.SUCESSO, snd (compactar_lista (E := Plataforma) [] []))
  /\ campo_bit_length (snd (compactar_lista (E := Plataforma) [] [])) <> 0
  /\ option_map (@length (str * str))
       (match _construir_arvore_huffman
                (_calcular_frequencias (repr (E := Plataforma) (PyList [])))
        with
        | Ok arvore => Some (_gerar_codigo_huffman arvore)
        | Raise _ => None
        end) = Some 2%nat.
Proof. vm_compute. repeat split. discriminate. Qed.

(** The list [[{'a': True}]]. *)
Definition registro_booleano : list pyvalue :=
  [PyDict [(lit "a", PyBool true)]].

(** C1 (the code falls short of it).  The list [[{'a': True}]] is made of
    JSON-representable values and has no quote in it.  [str] renders it
    as [[{'a': True}]]; compaction succeeds; decompaction decodes that
    same text, turns the single quotes into double quotes and hands
    [[{"a": True}]] to [json.loads], which knows [true] but not [True]:
    the call returns [ERRO_DECODIFICACAO] instead of the list. *)
Theorem booleano_nao_volta (E : Externo) :
  zlib_fiel E registro_booleano ->
  exists container,
    compactar_lista registro_booleano [] = (CODES.SUCESSO, container)
    /\ descompactar_lista container
       = ((CODES.ERRO_DECODIFICACAO, Mensagem ValueError), [])
    /\ repr (PyList registro_booleano) = lit "[{'a': True}]"
    /\ Json.loads (replace (chr "'") dquote (lit "[{'a': True}]"))
       = Raise JSONDecodeError.
Proof.
  intros Hz.
  pose (arvore :=
          match _construir_arvore_huffman
                  (_calcular_frequencias (repr (PyList registro_booleano)))
          with Ok a => a | Raise _ => [] end).
  pose (texto :=
          match _codificar_lista (repr (PyList registro_booleano))
                  (_gerar_codigo_huffman arvore)
          with Ok t => t | Raise _ => [] end).
  pose (json_data :=
          match Utf8.encode (Json.dumps (_gerar_codigo_huffman arvore))
          with Ok j => j | Raise _ => [] end).
  assert (Ha : _construir_arvore_huffman
                 (_calcular_frequencias (repr (PyList registro_booleano)))
               = Ok arvore) by (vm_compute; reflexivity).
  assert (Ht : _codificar_lista (repr (PyList registro_booleano))
                 (_gerar_codigo_huffman arvore) = Ok texto)
    by (vm_compute; reflexivity).
  assert (Hne : texto <> []) by (vm_compute; discriminate).
  assert (Hb : binario texto = true) by (vm_compute; reflexivity).
  assert (Hlen : len texto < 2 ^ 32) by (vm_compute; reflexivity).
  assert (Hj : Utf8.encode (Json.dumps (_gerar_codigo_huffman arvore))
               = Ok json_data) by (vm_compute; reflexivity).
  destruct (compactar_descompactar registro_booleano arvore texto json_data
              Ha Ht Hne Hb Hlen Hj Hz) as [container (Hc & _ & Hd)].
  exists container. split; [exact Hc|]. split; [|split; reflexivity].
  rewrite Hd. vm_compute. reflexivity.
Qed.

(** The stored codec is faithful on the table of that list. *)
Lemma booleano_nao_volta_witness :
  exists container,
    compactar_lista (E := Plataforma) registro_booleano []
    = (CODES.SUCESSO, container)
    /\ descompactar_lista (E := Plataforma) container
       = ((CODES.ERRO_DECODIFICACAO, Mensagem ValueError), [])
    /\ repr (E := Plataforma) (PyList registro_booleano)
       = lit "[{'a': True}]"
    /\ Json.loads (replace (chr "'") dquote (lit "[{'a': True}]"))
       = Raise JSONDecodeError.
Proof.
  apply (booleano_nao_volta Plataforma).
  intros json_data H. vm_compute in H. inversion H; subst json_data.
  vm_compute. split; reflexivity.
Defined.

(* ===================================================================== *)
(** * The tree builder: the loop ends, the symbols stay, the codes are
      prefix-free *)
(* ===================================================================== *)

Lemma insert_perm {A} (ltb : A -> A -> bool) (x : A) (l : list A) :
  Permutation (Py.insert ltb x l) (x :: l).
Proof.
  induction l as [|y r IH]; simpl; [reflexivity|].
  destruct (ltb y x); [|reflexivity].
  rewrite IH. apply perm_swap.
Qed.

(** [sort] reorders and nothing else. *)
Lemma sort_perm {A} (ltb : A -> A -> bool) (l : list A) :
  Permutation (Py.sort ltb l) l.
Proof.
  induction l as [|x r IH]; simpl; [reflexivity|].
  fold (Py.sort ltb r). rewrite insert_perm, IH. reflexivity.
Qed.

Lemma sort_length {A} (ltb : A -> A -> bool) (l : list A) :
  length (Py.sort ltb l) = length l.
Proof. apply Permutation_length, sort_perm. Qed.

(** One turn of the loop takes one entry off the heap, so [fuel] turns
    are enough for a heap of [fuel + 1] entries. *)
Lemma huffman_loop_length (fuel : nat) (heap : list entrada) :
  (length heap <= S fuel)%nat ->
  (length (huffman_loop fuel heap) <= 1)%nat.
Proof.
  revert heap. induction fuel as [|k IH]; intros heap H.
  - exact H.
  - cbn [huffman_loop].
    destruct (Nat.ltb_spec 1 (length heap)) as [Hlt|Hle]; [|exact Hle].
    pose proof (sort_length entrada_ltb heap) as Hs.
    destruct (Py.sort entrada_ltb heap) as [|lo [|hi resto]];
      simpl in Hs; try lia.
    apply IH. rewrite length_app. simpl. lia.
Qed.

(** When [_construir_arvore_huffman] leaves its loop, the condition of the
    [while] is false. *)
Lemma huffman_loop_termina (heap : list entrada) :
  (length (huffman_loop (length heap) heap) <= 1)%nat.
Proof. apply huffman_loop_length. lia. Qed.

(** ** Dictionaries *)

Lemma str_eqb_neq (s t : str) : str_eqb s t = false <-> s <> t.
Proof.
  split.
  - intros H Heq. apply str_eqb_eq in Heq. congruence.
  - intros H. destruct (str_eqb s t) eqn:He; [|reflexivity].
    apply str_eqb_eq in He. contradiction.
Qed.

Lemma dict_get_In {V} (d : dict V) (k : str) (v : V) :
  dict_get d k = Some v -> In (k, v) d.
Proof.
  induction d as [|[k' v'] r IH]; simpl; [discriminate|].
  destruct (str_eqb k' k) eqn:He.
  - apply str_eqb_eq in He. intros H; inversion H; subst. left. reflexivity.
  - intros H. right. apply IH, H.
Qed.

Lemma dict_get_None {V} (d : dict V) (k : str) :
  dict_get d k = None <-> ~ In k (map fst d).
Proof.
  induction d as [|[k' v'] r IH]; simpl.
  - split; [intros _ []|reflexivity].
  - destruct (str_eqb k' k) eqn:He.
    + apply str_eqb_eq in He. split; [discriminate|]. intros H. exfalso. auto.
    + apply str_eqb_neq in He. rewrite IH. tauto.
Qed.

(** With distinct keys, a pair of the list is what [dict_get] finds. *)
Lemma In_dict_get {V} (d : dict V) (k : str) (v : V) :
  NoDup (map fst d) -> In (k, v) d -> dict_get d k = Some v.
Proof.
  induction d as [|[k' v'] r IH]; simpl; [intros _ []|].
  intros Hnd [H|H].
  - inversion H; subst. rewrite str_eqb_refl. reflexivity.
  - inversion Hnd as [|? ? Hnotin Hnd']; subst.
    destruct (str_eqb k' k) eqn:He.
    + apply str_eqb_eq in He. subst k'. exfalso. apply Hnotin.
      apply (in_map fst) in H. exact H.
    + apply IH; assumption.
Qed.

Lemma dict_set_novo {V} (d : dict V) (k : str) (v : V) :
  ~ In k (map fst d) -> dict_set k v d = d ++ [(k, v)].
Proof.
  induction d as [|[k' v'] r IH]; simpl; [reflexivity|].
  intros H. destruct (str_eqb k' k) eqn:He.
  - apply str_eqb_eq in He. exfalso. auto.
  - rewrite IH by tauto. reflexivity.
Qed.

Lemma dict_set_chaves {V} (d : dict V) (k : str) (v : V) :
  map fst (dict_set k v d)
  = if dict_in k d then map fst d else map fst d ++ [k].
Proof.
  unfold dict_in. induction d as [|[k' v'] r IH]; simpl; [reflexivity|].
  destruct (str_eqb k' k) eqn:He; simpl; [reflexivity|].
  rewrite IH. destruct (dict_get r k); reflexivity.
Qed.

(** A dictionary built from pairs of distinct keys is the list of pairs. *)
Lemma fold_dict_set {V} (l acc : list (str * V)) :
  NoDup (map fst (acc ++ l)) ->
  fold_left (fun d kv => dict_set (fst kv) (snd kv) d) l acc = acc ++ l.
Proof.
  revert acc. induction l as [|[k v] r IH]; intros acc H; simpl.
  - rewrite app_nil_r. reflexivity.
  - rewrite dict_set_novo.
    + rewrite IH; rewrite <- app_assoc; [reflexivity | exact H].
    + rewrite map_app in H. simpl in H.
      apply NoDup_remove_2 in H. intros Hin. apply H.
      apply in_or_app. left. exact Hin.
Qed.

(** ** Frequencies *)

(** The keys of the frequency table are the characters of the text, each
    once. *)
Lemma frequencias_chaves (texto : str) (acc : dict Z) :
  NoDup (map fst acc) ->
  let d := fold_left
             (fun frequencias caractere =>
                dict_set [caractere]
                  (match dict_get frequencias [caractere] with
                   | Some n => n
                   | None => 0
                   end + 1)
                  frequencias) texto acc in
  NoDup (map fst d)
  /\ (forall k, In k (map fst d) <->
                In k (map fst acc) \/ exists c, In c texto /\ k = [c]).
Proof.
  revert acc. induction texto as [|c r IH]; intros acc Hnd; simpl.
  - split; [exact Hnd|]. intros k. split; [auto|].
    intros [H|[c [[] _]]]. exact H.
  - match goal with
    | |- context [fold_left ?f r ?a] => specialize (IH a)
    end.
    assert (Hk : forall k v, In k (map fst (dict_set [c] v acc))
                             <-> In k (map fst acc) \/ k = [c]).
    { intros k v. rewrite dict_set_chaves. unfold dict_in.
      destruct (dict_get acc [c]) as [n|] eqn:Hg.
      - apply dict_get_In in Hg. apply (in_map fst) in Hg. simpl in Hg.
        split; [auto|]. intros [H| ->]; assumption.
      - rewrite in_app_iff. simpl. intuition (subst; auto). }
    destruct IH as [IH1 IH2].
    { rewrite dict_set_chaves. unfold dict_in.
      destruct (dict_get acc [c]) as [n|] eqn:Hg; [exact Hnd|].
      apply dict_get_None in Hg.
      apply NoDup_app; [exact Hnd | repeat constructor; intros [] |].
      intros x Hx [Hc|[]]. subst x. contradiction. }
    split; [exact IH1|].
    intros k. rewrite IH2, Hk. split.
    + intros [[H| ->]|[c' [Hc' ->]]]; eauto 6.
    + intros [H|[c' [[->|Hc'] ->]]]; eauto 6.
Qed.

Lemma calcular_frequencias_chaves (texto : str) :
  NoDup (map fst (_calcular_frequencias texto))
  /\ (forall k, In k (map fst (_calcular_frequencias texto))
                <-> exists c, In c texto /\ k = [c]).
Proof.
  destruct (frequencias_chaves texto [] (NoDup_nil _)) as [H1 H2].
  split; [exact H1|]. intros k. unfold _calcular_frequencias.
  rewrite H2. simpl. tauto.
Qed.

(** ** The heap *)

(** The pairs of all the entries of a heap. *)
Definition pares (heap : list entrada) : list par := flat_map snd heap.

(** [p] is a prefix of [q]. *)
Definition prefixo (p q : str) : Prop := exists r, q = p ++ r.

(** No code is a prefix of the code of another pair. *)
Definition livre_de_prefixo (ps : list par) : Prop :=
  forall p q, In p ps -> In q ps -> prefixo (snd p) (snd q) -> p = q.

(** What holds of the pairs of one entry: prefix-free codes of binary
    digits, and either one leaf that has not been merged, with the empty
    code, or codes that all have at least one digit. *)
Definition arvore_ok (ps : list par) : Prop :=
  livre_de_prefixo ps
  /\ (forall p, In p ps -> binario (snd p) = true)
  /\ ((exists s, ps = [(s, [])]) \/ (forall p, In p ps -> snd p <> [])).

Definition heap_ok (heap : list entrada) : Prop :=
  NoDup (map fst (pares heap)) /\ Forall (fun e => arvore_ok (snd e)) heap.

Lemma prefixar_simbolo (bit : N) (ps : list par) :
  map fst (map (prefixar bit) ps) = map fst ps.
Proof. rewrite map_map. reflexivity. Qed.

Lemma In_prefixar (bit : N) (ps : list par) (p : par) :
  In p (map (prefixar bit) ps) ->
  exists p0, In p0 ps /\ p = (fst p0, bit :: snd p0).
Proof.
  intros H. apply in_map_iff in H as [p0 [<- H]]. eauto.
Qed.

Lemma prefixo_cons (b c : N) (p q : str) :
  prefixo (b :: p) (c :: q) -> b = c /\ prefixo p q.
Proof.
  intros [r H]. simpl in H. inversion H; subst. split; [reflexivity|].
  exists r. reflexivity.
Qed.

(** The merge of two entries that share no symbol. *)
Lemma fundir_ok (lo hi : entrada) :
  arvore_ok (snd lo) -> arvore_ok (snd hi) ->
  arvore_ok (snd (fundir lo hi))
  /\ (forall p, In p (snd (fundir lo hi)) -> snd p <> []).
Proof.
  intros (Hl1 & Hl2 & _) (Hh1 & Hh2 & _).
  assert (Hne : forall p, In p (snd (fundir lo hi)) -> snd p <> []).
  { intros p Hp. cbn [fundir snd] in Hp. apply in_app_or in Hp.
    destruct Hp as [Hp|Hp]; apply In_prefixar in Hp as [p0 [_ ->]];
      discriminate. }
  split; [|exact Hne]. split; [|split; [|right; exact Hne]].
  - intros p q Hp Hq Hpre. cbn [fundir snd] in Hp, Hq.
    apply in_app_or in Hp. apply in_app_or in Hq.
    destruct Hp as [Hp|Hp]; apply In_prefixar in Hp as [p0 [Hp0 ->]];
      destruct Hq as [Hq|Hq]; apply In_prefixar in Hq as [q0 [Hq0 ->]];
      cbn [snd] in Hpre; apply prefixo_cons in Hpre as [Hb Hpre];
      try discriminate Hb.
    + rewrite (Hl1 p0 q0 Hp0 Hq0 Hpre). reflexivity.
    + rewrite (Hh1 p0 q0 Hp0 Hq0 Hpre). reflexivity.
  - intros p Hp. cbn [fundir snd] in Hp. apply in_app_or in Hp.
    destruct Hp as [Hp|Hp]; apply In_prefixar in Hp as [p0 [Hp0 ->]];
      cbn [snd]; unfold binario; cbn [forallb];
      [apply (Hl2 p0 Hp0) | apply (Hh2 p0 Hp0)].
Qed.

Lemma pares_perm (h1 h2 : list entrada) :
  Permutation h1 h2 -> Permutation (pares h1) (pares h2).
Proof. intros H. unfold pares. apply Permutation_flat_map, H. Qed.

Lemma heap_ok_perm (h1 h2 : list entrada) :
  Permutation h1 h2 -> heap_ok h1 -> heap_ok h2.
Proof.
  intros Hp [Hnd Hall]. split.
  - eapply Permutation_NoDup; [|exact Hnd].
    apply Permutation_map, pares_perm, Hp.
  - eapply Permutation_Forall; eassumption.
Qed.

(** One turn of the loop keeps the heap well formed and its symbols. *)
Lemma passo_ok (lo hi : entrada) (resto : list entrada) :
  heap_ok (lo :: hi :: resto) ->
  heap_ok (resto ++ [fundir lo hi])
  /\ Permutation (map fst (pares (resto ++ [fundir lo hi])))
                 (map fst (pares (lo :: hi :: resto))).
Proof.
  intros [Hnd Hall].
  assert (Hsym : Permutation (map fst (pares (resto ++ [fundir lo hi])))
                             (map fst (pares (lo :: hi :: resto)))).
  { unfold pares. rewrite flat_map_app. cbn [flat_map fundir snd].
    rewrite app_nil_r, !map_app, !prefixar_simbolo.
    rewrite (app_assoc (map fst (snd lo))). apply Permutation_app_comm. }
  split; [split|exact Hsym].
  - eapply Permutation_NoDup; [apply Permutation_sym, Hsym | exact Hnd].
  - inversion Hall as [|? ? Hlo Hall']; subst.
    inversion Hall' as [|? ? Hhi Hresto]; subst.
    apply Forall_app. split; [exact Hresto|].
    constructor; [|constructor]. apply fundir_ok; assumption.
Qed.

Lemma huffman_loop_ok (fuel : nat) (heap : list entrada) :
  heap_ok heap ->
  heap_ok (huffman_loop fuel heap)
  /\ Permutation (map fst (pares (huffman_loop fuel heap)))
                 (map fst (pares heap)).
Proof.
  revert heap. induction fuel as [|k IH]; intros heap Hok.
  - split; [exact Hok | reflexivity].
  - cbn [huffman_loop]. destruct (1 <? length heap)%nat;
      [|split; [exact Hok | reflexivity]].
    pose proof (sort_perm entrada_ltb heap) as Hs.
    destruct (Py.sort entrada_ltb heap) as [|lo [|hi resto]];
      try (split; [exact Hok | reflexivity]).
    assert (Hok' : heap_ok (lo :: hi :: resto))
      by (eapply heap_ok_perm; [apply Permutation_sym, Hs | exact Hok]).
    destruct (passo_ok lo hi resto Hok') as [Hnew Hsym].
    destruct (IH _ Hnew) as [IH1 IH2]. split; [exact IH1|].
    rewrite IH2, Hsym. apply Permutation_map, pares_perm, Hs.
Qed.

(** Once merged, always merged: if the heap had two entries or more, the
    entry that is left has no empty code. *)
Lemma huffman_loop_fundido (fuel : nat) (heap : list entrada) (raiz : entrada) :
  heap_ok heap -> (2 <= length heap)%nat ->
  (forall e, In e heap -> snd e <> []) ->
  huffman_loop fuel heap = [raiz] ->
  forall p, In p (snd raiz) -> snd p <> [].
Proof.
  intros Hok Hlen Hne Hloop.
  destruct (huffman_loop_ok fuel heap Hok) as [[_ Hall] Hsym].
  rewrite Hloop in Hall, Hsym.
  inversion Hall as [|? ? (_ & _ & [[s Hs]|H]) _]; subst; [|exact H].
  exfalso. apply Permutation_length in Hsym.
  unfold pares in Hsym. cbn [flat_map] in Hsym.
  rewrite app_nil_r, Hs in Hsym. simpl in Hsym.
  destruct heap as [|e1 [|e2 r]]; simpl in Hlen; try lia.
  cbn [flat_map] in Hsym. rewrite !length_map, !length_app in Hsym.
  pose proof (Hne e1 (or_introl eq_refl)) as H1.
  pose proof (Hne e2 (or_intror (or_introl eq_refl))) as H2.
  destruct (snd e1); [congruence|]. destruct (snd e2); [congruence|].
  simpl in Hsym. lia.
Qed.

(** ** The tree of a frequency table *)

Lemma pares_heap_inicial (frequencias : dict Z) :
  pares (map (fun sf => (snd sf, [(fst sf, @nil N)])) frequencias)
  = map (fun sf => (fst sf, @nil N)) frequencias.
Proof.
  unfold pares. induction frequencias as [|sf r IH]; simpl; [|rewrite IH];
    reflexivity.
Qed.

Lemma heap_inicial_ok (frequencias : dict Z) :
  NoDup (map fst frequencias) ->
  heap_ok (map (fun sf => (snd sf, [(fst sf, @nil N)])) frequencias).
Proof.
  intros Hnd. split.
  - rewrite pares_heap_inicial, map_map. exact Hnd.
  - apply Forall_forall. intros e He.
    apply in_map_iff in He as [sf [<- _]]. cbn [snd].
    split; [|split].
    + intros p q [<-|[]] [<-|[]] _. reflexivity.
    + intros p [<-|[]]. reflexivity.
    + left. eauto.
Qed.

(** With two symbols or more, the tree has every symbol once, with a
    non-empty code of binary digits that is a prefix of no other code. *)
Lemma construir_arvore_ok (frequencias : dict Z) :
  NoDup (map fst frequencias) -> (2 <= length frequencias)%nat ->
  exists arvore,
    _construir_arvore_huffman frequencias = Ok arvore
    /\ Permutation (map fst arvore) (map fst frequencias)
    /\ livre_de_prefixo arvore
    /\ (forall p, In p arvore -> binario (snd p) = true /\ snd p <> []).
Proof.
  intros Hnd Hlen. unfold _construir_arvore_huffman.
  set (heap := map (fun sf => (snd sf, [(fst sf, @nil N)])) frequencias).
  cbv zeta.
  pose proof (heap_inicial_ok frequencias Hnd) as Hok. fold heap in Hok.
  destruct (huffman_loop_ok (length heap) heap Hok) as [Hfim Hsym].
  assert (Hsimb : map fst (pares heap) = map fst frequencias).
  { unfold heap. rewrite pares_heap_inicial, map_map. reflexivity. }
  rewrite Hsimb in Hsym.
  destruct (huffman_loop (length heap) heap) as [|raiz [|e r]] eqn:Hloop.
  - apply Permutation_length in Hsym. cbn [pares flat_map map length] in Hsym.
    rewrite length_map in Hsym. lia.
  - exists (Py.sort chave_ltb (snd raiz)).
    pose proof (sort_perm chave_ltb (snd raiz)) as Hs.
    assert (Hin : forall p, In p (Py.sort chave_ltb (snd raiz))
                            <-> In p (snd raiz)).
    { intros p. split; apply Permutation_in;
        [exact Hs | apply Permutation_sym, Hs]. }
    destruct Hfim as [_ Hall].
    inversion Hall as [|? ? (Hlivre & Hbin & _) _]; subst.
    split; [reflexivity|]. split; [|split].
    + rewrite (Permutation_map fst Hs).
      unfold pares in Hsym. cbn [flat_map] in Hsym.
      rewrite app_nil_r in Hsym. exact Hsym.
    + intros p q Hp Hq. apply Hin in Hp, Hq. apply Hlivre; assumption.
    + intros p Hp. apply Hin in Hp. split; [apply Hbin, Hp|].
      apply (huffman_loop_fundido (length heap) heap raiz Hok); auto.
      * unfold heap. rewrite length_map. exact Hlen.
      * intros e He. unfold heap in He.
        apply in_map_iff in He as [sf [<- _]]. discriminate.
  - assert (Ht : (length (raiz :: e :: r) <= 1)%nat)
      by (rewrite <- Hloop; apply huffman_loop_termina).
    simpl in Ht. lia.
Qed.

(** ** Encoding then decoding *)

Lemma prefixo_refl (p : str) : prefixo p p.
Proof. exists []. rewrite app_nil_r. reflexivity. Qed.

(** Feeding the loop the code of a symbol, digit by digit, matches nothing
    before the last digit, and the symbol at the last. *)
Lemma decodificar_um_codigo (inv : dict str) (simbolo codigo : str) :
  dict_get inv codigo = Some simbolo ->
  (forall pre suf, codigo = pre ++ suf -> pre <> [] -> suf <> [] ->
                   dict_get inv pre = None) ->
  forall suf pre texto resto,
    codigo = pre ++ suf -> suf <> [] ->
    decodificar_desde inv pre texto (suf ++ resto)
    = decodificar_desde inv [] (texto ++ simbolo) resto.
Proof.
  intros Hget Hnone.
  induction suf as [|b suf IH]; intros pre texto resto Hc Hne; [congruence|].
  cbn [app decodificar_desde].
  destruct suf as [|b' suf'].
  - rewrite <- Hc, Hget. reflexivity.
  - rewrite (Hnone (pre ++ [b]) (b' :: suf')).
    + apply IH; [|discriminate]. rewrite <- app_assoc. exact Hc.
    + rewrite <- app_assoc. exact Hc.
    + destruct pre; discriminate.
    + discriminate.
Qed.

Section Codec.

Variable codigo_huffman : dict str.
Hypothesis chaves_distintas : NoDup (map fst codigo_huffman).
Hypothesis sem_prefixo : livre_de_prefixo codigo_huffman.
Hypothesis sem_vazio : forall p, In p codigo_huffman -> snd p <> [].

Lemma codigos_distintos : NoDup (map fst (map (fun sc => (snd sc, fst sc)) codigo_huffman)).
Proof.
  rewrite map_map. cbn [fst].
  clear sem_vazio. induction codigo_huffman as [|p r IH]; [constructor|].
  cbn [map]. inversion chaves_distintas as [|? ? Hnotin Hnd]; subst.
  constructor.
  - intros Hin. apply in_map_iff in Hin as [q [Hq Hin]].
    assert (q = p).
    { apply sem_prefixo; [right; exact Hin | left; reflexivity |].
      rewrite Hq. apply prefixo_refl. }
    subst q. apply Hnotin. apply in_map, Hin.
  - apply IH; [exact Hnd|].
    intros a b Ha Hb. apply sem_prefixo; right; assumption.
Qed.

(** The inverted dictionary is the table with each pair turned around. *)
Lemma codigo_invertido_lista :
  codigo_invertido codigo_huffman
  = map (fun sc => (snd sc, fst sc)) codigo_huffman.
Proof.
  unfold codigo_invertido.
  pose proof codigos_distintos as Hnd.
  etransitivity;
    [|exact (fold_dict_set (map (fun sc => (snd sc, fst sc)) codigo_huffman)
               [] Hnd)].
  generalize (@nil (str * str)).
  clear. induction codigo_huffman as [|p r IH]; intros acc; [reflexivity|].
  cbn [map fold_left fst snd]. apply IH.
Qed.

Lemma invertido_acha (simbolo codigo : str) :
  In (simbolo, codigo) codigo_huffman ->
  dict_get (codigo_invertido codigo_huffman) codigo = Some simbolo.
Proof.
  intros Hin. rewrite codigo_invertido_lista.
  apply In_dict_get; [apply codigos_distintos|].
  apply in_map_iff. exists (simbolo, codigo). auto.
Qed.

Lemma invertido_nao_acha (simbolo pre suf : str) :
  In (simbolo, pre ++ suf) codigo_huffman -> suf <> [] ->
  dict_get (codigo_invertido codigo_huffman) pre = None.
Proof.
  intros Hin Hsuf. rewrite codigo_invertido_lista.
  apply dict_get_None. rewrite map_map. cbn [fst]. intros H.
  apply in_map_iff in H as [q [Hq Hqin]].
  assert (q = (simbolo, pre ++ suf)).
  { apply sem_prefixo; [exact Hqin | exact Hin |].
    rewrite Hq. exists suf. reflexivity. }
  subst q. cbn [snd] in Hq.
  apply Hsuf. apply (app_inv_head pre). rewrite app_nil_r. exact Hq.
Qed.

(** The loop over the codes of a text whose characters all have a code
    gives the text. *)
Lemma decodificar_codificado (texto acc : str) :
  (forall c, In c texto -> In [c] (map fst codigo_huffman)) ->
  decodificar_desde (codigo_invertido codigo_huffman) [] acc
    (flat_map (codigo_de codigo_huffman) texto)
  = ([], acc ++ texto).
Proof.
  revert acc. induction texto as [|c r IH]; intros acc Hin.
  - simpl. rewrite app_nil_r. reflexivity.
  - cbn [flat_map].
    assert (Hc : In [c] (map fst codigo_huffman)) by (apply Hin; left; auto).
    apply in_map_iff in Hc as [[s codigo] [Hs Hc]]. cbn [fst] in Hs. subst s.
    unfold codigo_de at 1.
    rewrite (In_dict_get _ _ _ chaves_distintas Hc).
    rewrite (decodificar_um_codigo (codigo_invertido codigo_huffman)
               [c] codigo) with (pre := []).
    + rewrite IH by (intros c' Hc'; apply Hin; right; exact Hc').
      rewrite <- app_assoc. reflexivity.
    + apply invertido_acha, Hc.
    + intros pre suf Heq _ Hsuf. subst codigo.
      eapply invertido_nao_acha; eassumption.
    + reflexivity.
    + apply (sem_vazio _ Hc).
Qed.

End Codec.

(** ** From a text to its bits and back *)

(** Whatever the number of symbols, the tree of a table of distinct symbols
    has distinct symbols and codes of binary digits. *)
Lemma construir_arvore_binario (frequencias : dict Z) (arvore : list par) :
  NoDup (map fst frequencias) ->
  _construir_arvore_huffman frequencias = Ok arvore ->
  NoDup (map fst arvore)
  /\ (forall p, In p arvore -> binario (snd p) = true).
Proof.
  intros Hnd. unfold _construir_arvore_huffman. cbv zeta.
  pose proof (heap_inicial_ok frequencias Hnd) as Hok.
  destruct (huffman_loop_ok
              (length (map (fun sf => (snd sf, [(fst sf, @nil N)])) frequencias))
              _ Hok) as [[Hnd' Hall] _].
  destruct (huffman_loop _ _) as [|raiz r]; [discriminate|].
  intros H. inversion H; subst arvore. clear H.
  pose proof (sort_perm chave_ltb (snd raiz)) as Hs.
  inversion Hall as [|? ? (_ & Hbin & _) _]; subst.
  split.
  - apply (Permutation_NoDup (Permutation_sym (Permutation_map fst Hs))).
    unfold pares in Hnd'. cbn [flat_map] in Hnd'.
    rewrite map_app in Hnd'. apply NoDup_app_remove_r in Hnd'. exact Hnd'.
  - intros p Hp. apply Hbin. apply (Permutation_in _ Hs), Hp.
Qed.

(** The dictionary of a tree of distinct symbols is the tree. *)
Lemma gerar_codigo_arvore (arvore : list par) :
  NoDup (map fst arvore) -> _gerar_codigo_huffman arvore = arvore.
Proof.
  intros Hnd. unfold _gerar_codigo_huffman.
  exact (fold_dict_set arvore [] Hnd).
Qed.

Lemma codigo_de_binario (codigo_huffman : dict str) (texto : str) :
  (forall p, In p codigo_huffman -> binario (snd p) = true) ->
  binario (flat_map (codigo_de codigo_huffman) texto) = true.
Proof.
  intros Hbin. induction texto as [|c r IH]; [reflexivity|].
  cbn [flat_map]. rewrite binario_app, IH, andb_true_r.
  unfold codigo_de. destruct (dict_get codigo_huffman [c]) as [x|] eqn:Hg;
    [|reflexivity].
  apply dict_get_In in Hg. apply (Hbin _ Hg).
Qed.

(** What [compactar_lista] hands to [int(_, 2)] holds only the digits
    ['0'] and ['1']. *)
Lemma compactar_texto_binario (texto outro bits : str) (arvore : list par) :
  _construir_arvore_huffman (_calcular_frequencias texto) = Ok arvore ->
  _codificar_lista outro (_gerar_codigo_huffman arvore) = Ok bits ->
  binario bits = true.
Proof.
  intros Ha Hc.
  destruct (construir_arvore_binario _ _
              (proj1 (calcular_frequencias_chaves texto)) Ha) as [Hnd Hbin].
  rewrite (gerar_codigo_arvore _ Hnd) in Hc.
  unfold _codificar_lista in Hc. rewrite codificar_desde_spec in Hc.
  destruct (forallb _ outro); [|discriminate].
  inversion Hc; subst bits. cbn [app].
  apply codigo_de_binario, Hbin.
Qed.

Lemma dois_simbolos (texto : str) (a b : N) :
  In a texto -> In b texto -> a <> b ->
  (2 <= length (_calcular_frequencias texto))%nat.
Proof.
  intros Ha Hb Hab.
  destruct (calcular_frequencias_chaves texto) as [Hnd Hk].
  assert (Hia : In [a] (map fst (_calcular_frequencias texto)))
    by (apply Hk; eauto).
  assert (Hib : In [b] (map fst (_calcular_frequencias texto)))
    by (apply Hk; eauto).
  rewrite <- (length_map fst).
  destruct (map fst (_calcular_frequencias texto)) as [|x [|y r]];
    simpl in *; [tauto | | lia].
  destruct Hia as [Hx|[]]. destruct Hib as [Hy|[]]. congruence.
Qed.

(** A text with two different characters or more: the tree is built, the
    text is encoded into a non-empty sequence of binary digits, and decoding
    that sequence with the table as it is read back gives the text. *)
Lemma texto_ida_e_volta (texto : str) (a b : N) :
  In a texto -> In b texto -> a <> b ->
  exists arvore bits,
    _construir_arvore_huffman (_calcular_frequencias texto) = Ok arvore
    /\ _codificar_lista texto (_gerar_codigo_huffman arvore) = Ok bits
    /\ bits <> []
    /\ binario bits = true
    /\ _decodificar_texto bits (tabela_lida (_gerar_codigo_huffman arvore))
       = Ok texto.
Proof.
  intros Ha Hb Hab.
  destruct (calcular_frequencias_chaves texto) as [Hnd Hk].
  destruct (construir_arvore_ok _ Hnd (dois_simbolos texto a b Ha Hb Hab))
    as (arvore & Harv & Hperm & Hlivre & Hcod).
  assert (Hnd' : NoDup (map fst arvore))
    by (apply (Permutation_NoDup (Permutation_sym Hperm)), Hnd).
  assert (Hin : forall c, In c texto -> In [c] (map fst arvore)).
  { intros c Hc. apply (Permutation_in _ (Permutation_sym Hperm)).
    apply Hk. eauto. }
  assert (Hcod_de : _codificar_lista texto arvore
                    = Ok (flat_map (codigo_de arvore) texto)).
  { unfold _codificar_lista. rewrite codificar_desde_spec.
    replace (forallb (fun c => dict_in [c] arvore) texto) with true;
      [reflexivity|].
    symmetry. apply forallb_forall. intros c Hc. unfold dict_in.
    destruct (dict_get arvore [c]) eqn:Hg; [reflexivity|].
    apply dict_get_None in Hg. elim Hg. apply Hin, Hc. }
  exists arvore, (flat_map (codigo_de arvore) texto).
  rewrite (gerar_codigo_arvore _ Hnd').
  split; [exact Harv|]. split; [exact Hcod_de|]. split; [|split].
  - destruct texto as [|c r]; [destruct Ha|]. cbn [flat_map].
    assert (Hc : In [c] (map fst arvore)) by (apply Hin; left; reflexivity).
    apply in_map_iff in Hc as [[s codigo] [Hs Hc]]. cbn [fst] in Hs. subst s.
    unfold codigo_de. rewrite (In_dict_get _ _ _ Hnd' Hc).
    intros H. apply app_eq_nil in H as [H _].
    apply (proj2 (Hcod _ Hc)). exact H.
  - apply codigo_de_binario. intros p Hp. apply (Hcod _ Hp).
  - rewrite decodificar_tabela_lida.
    rewrite (decodificar_codificado arvore Hnd' Hlivre
               (fun p Hp => proj2 (Hcod p Hp)) texto [] Hin).
    reflexivity.
Qed.

(* ===================================================================== *)
(** * Further properties of the functions *)
(* ===================================================================== *)

(** ** The frequencies count the occurrences *)

Lemma dict_get_set {V} (d : dict V) (k k' : str) (v : V) :
  dict_get (dict_set k v d) k'
  = if str_eqb k k' then Some v else dict_get d k'.
Proof.
  induction d as [|[k0 v0] r IH]; simpl; [reflexivity|].
  destruct (str_eqb k0 k) eqn:H0; simpl.
  - apply str_eqb_eq in H0. subst k0. destruct (str_eqb k k'); reflexivity.
  - rewrite IH. destruct (str_eqb k0 k') eqn:H1; [|reflexivity].
    apply str_eqb_eq in H1. subst k0.
    replace (str_eqb k k') with false; [reflexivity|].
    symmetry. apply str_eqb_neq. apply str_eqb_neq in H0. congruence.
Qed.

(** How many times [c] stands in [texto]. *)
Definition ocorrencias (c : N) (texto : str) : Z :=
  Z.of_nat (count_occ N.eq_dec texto c).

Lemma frequencias_conta (texto : str) (acc : dict Z) (c : N) :
  dict_get
    (fold_left
       (fun frequencias caractere =>
          dict_set [caractere]
            (match dict_get frequencias [caractere] with
             | Some n => n
             | None => 0
             end + 1)
            frequencias) texto acc) [c]
  = if ocorrencias c texto =? 0 then dict_get acc [c]
    else Some (match dict_get acc [c] with Some n => n | None => 0 end
               + ocorrencias c texto).
Proof.
  revert acc. induction texto as [|x r IH]; intros acc; [reflexivity|].
  cbn [fold_left]. rewrite IH, dict_get_set. unfold ocorrencias.
  cbn [str_eqb list_eqb]. rewrite andb_true_r.
  destruct (N.eqb_spec x c) as [->|Hne].
  - rewrite count_occ_cons_eq by reflexivity.
    destruct (Z.eqb_spec (Z.of_nat (S (count_occ N.eq_dec r c))) 0); [lia|].
    destruct (Z.eqb_spec (Z.of_nat (count_occ N.eq_dec r c)) 0) as [H0|H0];
      f_equal; lia.
  - rewrite count_occ_cons_neq by exact Hne. reflexivity.
Qed.

(** ** The tree builder on any table *)

(** The turns of the loop keep the symbols, whatever the heap. *)
Lemma huffman_loop_simbolos (fuel : nat) (heap : list entrada) :
  Permutation (map fst (pares (huffman_loop fuel heap)))
              (map fst (pares heap)).
Proof.
  revert heap. induction fuel as [|k IH]; intros heap; [reflexivity|].
  cbn [huffman_loop]. destruct (1 <? length heap)%nat; [|reflexivity].
  pose proof (sort_perm entrada_ltb heap) as Hs.
  destruct (Py.sort entrada_ltb heap) as [|lo [|hi resto]];
    try reflexivity.
  rewrite IH. rewrite <- (Permutation_map fst (pares_perm _ _ Hs)).
  unfold pares. rewrite flat_map_app. cbn [flat_map fundir snd].
  rewrite app_nil_r, !map_app, !prefixar_simbolo.
  rewrite (app_assoc (map fst (snd lo))). apply Permutation_app_comm.
Qed.

(** Sorting with a comparison that agrees with a preorder [R] gives a list
    in the order of [R]. *)
Lemma insert_sorted {A} (ltb : A -> A -> bool) (R : A -> A -> Prop)
    (x : A) (l : list A) :
  (forall a b c, R a b -> R b c -> R a c) ->
  (forall a b, ltb a b = true -> R a b) ->
  (forall a b, ltb a b = false -> R b a) ->
  StronglySorted R l -> StronglySorted R (Py.insert ltb x l).
Proof.
  intros Htrans Ht Hf. induction l as [|y r IH]; intros Hs; simpl.
  - constructor; constructor.
  - inversion Hs as [|? ? Hr Hall]; subst.
    destruct (ltb y x) eqn:Hyx.
    + constructor; [apply IH, Hr|].
      apply Forall_forall. intros z Hz.
      apply (Permutation_in _ (insert_perm ltb x r)) in Hz.
      destruct Hz as [<-|Hz]; [apply Ht, Hyx|].
      rewrite Forall_forall in Hall. apply Hall, Hz.
    + constructor; [exact Hs|]. constructor; [apply Hf, Hyx|].
      apply Forall_forall. intros z Hz. rewrite Forall_forall in Hall.
      apply (Htrans x y z); [apply Hf, Hyx | apply Hall, Hz].
Qed.

Lemma sort_sorted {A} (ltb : A -> A -> bool) (R : A -> A -> Prop)
    (l : list A) :
  (forall a b c, R a b -> R b c -> R a c) ->
  (forall a b, ltb a b = true -> R a b) ->
  (forall a b, ltb a b = false -> R b a) ->
  StronglySorted R (Py.sort ltb l).
Proof.
  intros Htrans Ht Hf. induction l as [|x r IH]; simpl; [constructor|].
  fold (Py.sort ltb r). apply insert_sorted with (R := R); assumption.
Qed.

(** A pair comes no later than another when its code is no longer. *)
Definition mais_curto (p q : par) : Prop :=
  (length (snd p) <= length (snd q))%nat.

(** X1.  [_calcular_frequencias] maps each character of the text to the
    number of its occurrences and has no entry for a character the text
    does not hold; its keys are one-character strings, each listed once. *)
Theorem calcular_frequencias_conta (texto : str) (c : N) :
  dict_get (_calcular_frequencias texto) [c]
  = (if ocorrencias c texto =? 0 then None else Some (ocorrencias c texto))
  /\ NoDup (map fst (_calcular_frequencias texto))
  /\ (forall k, In k (map fst (_calcular_frequencias texto)) ->
                exists a, In a texto /\ k = [a]).
Proof.
  split; [|split].
  - unfold _calcular_frequencias. rewrite frequencias_conta. reflexivity.
  - apply calcular_frequencias_chaves.
  - intros k Hk. apply calcular_frequencias_chaves, Hk.
Qed.

(** X2.  [_construir_arvore_huffman] raises (an [IndexError], from
    [heap[0]]) on the empty table and on no other: on every table with an
    entry its loop ends and it returns one pair for each entry of the table,
    with the symbols of the table. *)
Theorem construir_arvore_total (frequencias : dict Z) :
  (frequencias = []
   /\ _construir_arvore_huffman frequencias = Raise IndexError)
  \/ (frequencias <> []
      /\ exists arvore,
           _construir_arvore_huffman frequencias = Ok arvore
           /\ Permutation (map fst arvore) (map fst frequencias)).
Proof.
  destruct frequencias as [|sf r]; [left; split; reflexivity|].
  right. split; [discriminate|].
  unfold _construir_arvore_huffman. cbv zeta.
  remember (map (fun sf => (snd sf, [(fst sf, @nil N)])) (sf :: r)) as heap
    eqn:Hheap.
  pose proof (huffman_loop_simbolos (length heap) heap) as Hsym.
  assert (Hsimb : map fst (pares heap) = map fst (sf :: r)).
  { subst heap. rewrite pares_heap_inicial, map_map. reflexivity. }
  rewrite Hsimb in Hsym.
  destruct (huffman_loop (length heap) heap) as [|raiz [|e resto]] eqn:Hloop.
  - apply Permutation_length in Hsym. simpl in Hsym. lia.
  - exists (Py.sort chave_ltb (snd raiz)). split; [reflexivity|].
    rewrite (Permutation_map fst (sort_perm chave_ltb (snd raiz))).
    unfold pares in Hsym. cbn [flat_map] in Hsym.
    rewrite app_nil_r in Hsym. exact Hsym.
  - assert (Ht : (length (raiz :: e :: resto) <= 1)%nat)
      by (rewrite <- Hloop; apply huffman_loop_termina).
    simpl in Ht. lia.
Qed.

(** The code table of a text with two different characters or more. *)
Lemma codigo_huffman_ok (texto : str) (a b : N) :
  In a texto -> In b texto -> a <> b ->
  exists arvore,
    _construir_arvore_huffman (_calcular_frequencias texto) = Ok arvore
    /\ NoDup (map fst (_gerar_codigo_huffman arvore))
    /\ (forall k, In k (map fst (_gerar_codigo_huffman arvore))
                  <-> exists c, In c texto /\ k = [c])
    /\ livre_de_prefixo (_gerar_codigo_huffman arvore)
    /\ (forall p, In p (_gerar_codigo_huffman arvore) ->
                  binario (snd p) = true /\ snd p <> []).
Proof.
  intros Ha Hb Hab.
  destruct (calcular_frequencias_chaves texto) as [Hnd Hk].
  destruct (construir_arvore_ok _ Hnd (dois_simbolos texto a b Ha Hb Hab))
    as (arvore & Harv & Hperm & Hlivre & Hcod).
  assert (Hnd' : NoDup (map fst arvore))
    by (apply (Permutation_NoDup (Permutation_sym Hperm)), Hnd).
  exists arvore. rewrite (gerar_codigo_arvore _ Hnd').
  split; [exact Harv|]. split; [exact Hnd'|]. split; [|split; assumption].
  intros k. rewrite <- Hk. split; apply Permutation_in;
    [exact Hperm | apply Permutation_sym, Hperm].
Qed.

(** X3.  For a text with two different characters or more, the code table
    of [_gerar_codigo_huffman] has one entry for each character of the text
    and no other; every code is a non-empty string of ['0'] and ['1'], and
    no code is a prefix of the code of another character. *)
Theorem codigo_huffman_livre_de_prefixo (texto : str) (a b : N) :
  In a texto -> In b texto -> a <> b ->
  exists arvore,
    _construir_arvore_huffman (_calcular_frequencias texto) = Ok arvore
    /\ NoDup (map fst (_gerar_codigo_huffman arvore))
    /\ (forall k, In k (map fst (_gerar_codigo_huffman arvore))
                  <-> exists c, In c texto /\ k = [c])
    /\ livre_de_prefixo (_gerar_codigo_huffman arvore)
    /\ (forall p, In p (_gerar_codigo_huffman arvore) ->
                  binario (snd p) = true /\ snd p <> []).
Proof. exact (codigo_huffman_ok texto a b). Qed.

Lemma codigo_huffman_livre_de_prefixo_witness :
  exists arvore,
    _construir_arvore_huffman (_calcular_frequencias (lit "abracadabra"))
    = Ok arvore
    /\ NoDup (map fst (_gerar_codigo_huffman arvore))
    /\ (forall k, In k (map fst (_gerar_codigo_huffman arvore))
                  <-> exists c, In c (lit "abracadabra") /\ k = [c])
    /\ livre_de_prefixo (_gerar_codigo_huffman arvore)
    /\ (forall p, In p (_gerar_codigo_huffman arvore) ->
                  binario (snd p) = true /\ snd p <> []).
Proof.
  apply (codigo_huffman_livre_de_prefixo (lit "abracadabra")
           (chr "a") (chr "b")).
  - left. reflexivity.
  - right. left. reflexivity.
  - discriminate.
Defined.

Lemma chave_mais_curto_true (p q : par) :
  chave_ltb p q = true -> mais_curto p q.
Proof.
  unfold chave_ltb, mais_curto.
  destruct (Nat.eqb_spec (length (snd p)) (length (snd q))) as [He|Hne];
    [lia|].
  intros H. apply Nat.ltb_lt in H. lia.
Qed.

Lemma chave_mais_curto_false (p q : par) :
  chave_ltb p q = false -> mais_curto q p.
Proof.
  unfold chave_ltb, mais_curto.
  destruct (Nat.eqb_spec (length (snd p)) (length (snd q))) as [He|Hne];
    [lia|].
  intros H. apply Nat.ltb_ge in H. lia.
Qed.

(** X4.  The pairs that [_construir_arvore_huffman] returns are listed
    from the shortest code to the longest: no pair has a shorter code than
    a pair listed before it. *)
Theorem arvore_ordenada (frequencias : dict Z) (arvore : list par) :
  _construir_arvore_huffman frequencias = Ok arvore ->
  StronglySorted mais_curto arvore.
Proof.
  unfold _construir_arvore_huffman. cbv zeta.
  destruct (huffman_loop _ _) as [|raiz r]; [discriminate|].
  intros H. inversion H; subst arvore.
  apply sort_sorted.
  - unfold mais_curto. intros x y z Hxy Hyz. lia.
  - apply chave_mais_curto_true.
  - apply chave_mais_curto_false.
Qed.

Lemma arvore_ordenada_witness :
  StronglySorted mais_curto
    [(lit "a", lit "1"); (lit "b", lit "00");
     (lit "c", lit "010"); (lit "d", lit "011")].
Proof.
  apply (arvore_ordenada
           [(lit "a", 5); (lit "b", 2); (lit "c", 1); (lit "d", 1)]).
  vm_compute. reflexivity.
Defined.

(** X5.  The return code of [compactar_lista] is [SUCESSO] or
    [ERRO_CODIFICACAO], whatever the list, the file and the platform:
    the codes [ERRO_ARQUIVO] and [ERRO_CONSTRUCAO_ARVORE] are never
    returned, since no [OSError] leaves [_escrever_binario] and every other
    exception is answered with [ERRO_CODIFICACAO]. *)
Theorem compactar_lista_codigos (E : Externo) (F : Type) (FL : FileLike F)
    (lista_dicionarios : list pyvalue) (arquivo : F) :
  (fst (compactar_lista lista_dicionarios arquivo) = CODES.SUCESSO
   \/ fst (compactar_lista lista_dicionarios arquivo) = CODES.ERRO_CODIFICACAO)
  /\ fst (compactar_lista lista_dicionarios arquivo) <> CODES.ERRO_ARQUIVO
  /\ fst (compactar_lista lista_dicionarios arquivo)
     <> CODES.ERRO_CONSTRUCAO_ARVORE
  /\ so (fun e => isinstance_OSError e = false)
        (fst (compactar_corpo lista_dicionarios arquivo)).
Proof.
  pose proof (compactar_codigos lista_dicionarios arquivo) as H.
  split; [exact H|].
  split; [|split].
  - destruct H as [-> | ->]; discriminate.
  - destruct H as [-> | ->]; discriminate.
  - pose proof (compactar_corpo_sem_OSError lista_dicionarios arquivo) as Hc.
    destruct (compactar_corpo lista_dicionarios arquivo) as [[u|e] arq'];
      simpl in *; [exact I | apply Hc; reflexivity].
Qed.

(** ** The code table through [json.dumps] and [json.loads] *)

(** A Unicode scalar value: a code point that is not a surrogate. *)
Definition escalar (c : N) : bool :=
  ((c <? 0xD800) || (0xE000 <=? c))%N && (c <? 0x110000)%N.

Lemma hex_value_digit (d : Z) :
  0 <= d < 16 -> Json.hex_value (hex_digit d) = Some d.
Proof.
  intros H.
  assert (d = 0 \/ d = 1 \/ d = 2 \/ d = 3 \/ d = 4 \/ d = 5 \/ d = 6
          \/ d = 7 \/ d = 8 \/ d = 9 \/ d = 10 \/ d = 11 \/ d = 12
          \/ d = 13 \/ d = 14 \/ d = 15) as Hd by lia.
  repeat (destruct Hd as [->|Hd]; [reflexivity|]). subst d. reflexivity.
Qed.

Lemma hex4_hex (v : Z) :
  0 <= v < 65536 ->
  exists h1 h2 h3 h4,
    hex 4 v = [h1; h2; h3; h4] /\ Json.hex4 h1 h2 h3 h4 = Some v.
Proof.
  intros Hv. do 4 eexists. split; [reflexivity|].
  unfold Json.hex4.
  rewrite !hex_value_digit by (apply Z.mod_pos_bound; lia).
  f_equal. Z.div_mod_to_equations. lia.
Qed.

Lemma scanstring_u (acc : str) (h1 h2 h3 h4 : N) (r2 : str) (u : Z) :
  Json.hex4 h1 h2 h3 h4 = Some u ->
  (0xD800 <=? u) && (u <=? 0xDBFF) = false ->
  Json.scanstring acc (chr "\" :: chr "u" :: h1 :: h2 :: h3 :: h4 :: r2)
  = Json.scanstring (Z.to_N u :: acc) r2.
Proof.
  intros Hh Hu. cbn [Json.scanstring].
  change (chr "\" =? dquote)%N with false.
  change (chr "\" =? chr "\")%N with true.
  change (chr "u" =? chr "u")%N with true.
  cbv iota. rewrite Hh, Hu. reflexivity.
Qed.

Lemma scanstring_par (acc : str) (h1 h2 h3 h4 g1 g2 g3 g4 : N) (r3 : str)
    (u lo : Z) :
  Json.hex4 h1 h2 h3 h4 = Some u ->
  (0xD800 <=? u) && (u <=? 0xDBFF) = true ->
  Json.hex4 g1 g2 g3 g4 = Some lo ->
  (0xDC00 <=? lo) && (lo <=? 0xDFFF) = true ->
  Json.scanstring acc
    (chr "\" :: chr "u" :: h1 :: h2 :: h3 :: h4
     :: chr "\" :: chr "u" :: g1 :: g2 :: g3 :: g4 :: r3)
  = Json.scanstring
      (Z.to_N (0x10000 + (u - 0xD800) * 1024 + (lo - 0xDC00)) :: acc) r3.
Proof.
  intros Hh Hu Hg Hlo. cbn [Json.scanstring].
  change (chr "\" =? dquote)%N with false.
  change (chr "\" =? chr "\")%N with true.
  change (chr "u" =? chr "u")%N with true.
  cbv iota. rewrite Hh, Hu. cbn [andb]. rewrite Hg, Hlo. reflexivity.
Qed.

Ltac testes :=
  repeat match goal with
    | |- context [Z.leb ?a ?b] => destruct (Z.leb_spec a b); try lia
    | |- context [Z.ltb ?a ?b] => destruct (Z.ltb_spec a b); try lia
    | |- context [Z.eqb ?a ?b] => destruct (Z.eqb_spec a b); try lia
    | |- context [N.eqb ?a ?b] => destruct (N.eqb_spec a b); try lia
    | |- context [N.ltb ?a ?b] => destruct (N.ltb_spec a b); try lia
    | |- context [N.leb ?a ?b] => destruct (N.leb_spec a b); try lia
    end.

(** What [json.dumps] writes for a character, [json.loads] reads as that
    character. *)
Lemma scanstring_escape (c : N) (acc rest : str) :
  escalar c = true ->
  Json.scanstring acc (Json.escape_char c ++ rest)
  = Json.scanstring (c :: acc) rest.
Proof.
  intros Hc. unfold escalar in Hc.
  apply andb_true_iff in Hc as [Hs Hmax]. apply N.ltb_lt in Hmax.
  assert (Hsur : (c < 0xD800 \/ 0xE000 <= c)%N).
  { apply orb_true_iff in Hs as [H|H];
      [left; apply N.ltb_lt, H | right; apply N.leb_le, H]. }
  clear Hs.
  destruct (N.eq_dec c 0x5C) as [->|H5C]; [reflexivity|].
  destruct (N.eq_dec c 0x22) as [->|H22]; [reflexivity|].
  destruct (N.eq_dec c 0x08) as [->|H08]; [reflexivity|].
  destruct (N.eq_dec c 0x0C) as [->|H0C]; [reflexivity|].
  destruct (N.eq_dec c 0x0A) as [->|H0A]; [reflexivity|].
  destruct (N.eq_dec c 0x0D) as [->|H0D]; [reflexivity|].
  destruct (N.eq_dec c 0x09) as [->|H09]; [reflexivity|].
  destruct (Z.le_gt_cases 0x20 (Z.of_N c)) as [Hlo|Hlo];
    [destruct (Z.le_gt_cases (Z.of_N c) 0x7E) as [Hhi|Hhi]|].
  - (* printable ASCII *)
    assert (He : Json.escape_char c = [c]).
    { unfold Json.escape_char. cbv zeta. testes. reflexivity. }
    rewrite He. cbn [app Json.scanstring].
    unfold dquote. change (chr "\") with 92%N. testes. reflexivity.
  - destruct (Z.lt_ge_cases (Z.of_N c) 0x10000) as [Hbmp|Hastral].
    + (* one escape of four digits *)
      assert (He : Json.escape_char c
                   = chr "\" :: chr "u" :: hex 4 (Z.of_N c)).
      { unfold Json.escape_char. cbv zeta. testes. reflexivity. }
      destruct (hex4_hex (Z.of_N c)) as (h1 & h2 & h3 & h4 & Hhex & Hval);
        [lia|].
      rewrite He, Hhex. cbn [app].
      rewrite (scanstring_u acc h1 h2 h3 h4 rest (Z.of_N c) Hval).
      * rewrite N2Z.id. reflexivity.
      * testes; reflexivity.
    + (* a surrogate pair *)
      set (v := Z.of_N c - 0x10000).
      assert (He : Json.escape_char c
                   = chr "\" :: chr "u"
                     :: hex 4 (0xD800 + (v / 1024) mod 1024)
                     ++ chr "\" :: chr "u" :: hex 4 (0xDC00 + v mod 1024)).
      { unfold Json.escape_char. cbv zeta. testes. reflexivity. }
      assert (Hv : 0 <= v < 0x100000) by (unfold v; lia).
      assert (Hq : 0 <= (v / 1024) mod 1024 < 1024)
        by (apply Z.mod_pos_bound; lia).
      assert (Hr : 0 <= v mod 1024 < 1024) by (apply Z.mod_pos_bound; lia).
      destruct (hex4_hex (0xD800 + (v / 1024) mod 1024))
        as (h1 & h2 & h3 & h4 & Hhex & Hval); [lia|].
      destruct (hex4_hex (0xDC00 + v mod 1024))
        as (g1 & g2 & g3 & g4 & Ghex & Gval); [lia|].
      rewrite He, Hhex, Ghex. cbn [app].
      rewrite (scanstring_par acc h1 h2 h3 h4 g1 g2 g3 g4 rest _ _ Hval)
        by (try exact Gval; testes; reflexivity).
      f_equal. f_equal.
      assert (Hsmall : (v / 1024) mod 1024 = v / 1024).
      { apply Z.mod_small. split; [apply Z.div_pos; lia|].
        apply Z.div_lt_upper_bound; lia. }
      rewrite Hsmall.
      assert (0x10000 + (0xD800 + v / 1024 - 0xD800) * 1024
              + (0xDC00 + v mod 1024 - 0xDC00) = Z.of_N c) as ->.
      { pose proof (Z.div_mod v 1024). unfold v in *. lia. }
      apply N2Z.id.
  - (* a control character without a short escape *)
    assert (He : Json.escape_char c
                 = chr "\" :: chr "u" :: hex 4 (Z.of_N c)).
    { unfold Json.escape_char. cbv zeta. testes. reflexivity. }
    destruct (hex4_hex (Z.of_N c)) as (h1 & h2 & h3 & h4 & Hhex & Hval);
      [lia|].
    rewrite He, Hhex. cbn [app].
    rewrite (scanstring_u acc h1 h2 h3 h4 rest (Z.of_N c) Hval).
    + rewrite N2Z.id. reflexivity.
    + testes; reflexivity.
Qed.

(** A whole string, up to its closing quote. *)
Lemma scanstring_basestring (s acc rest : str) :
  forallb escalar s = true ->
  Json.scanstring acc (flat_map Json.escape_char s ++ dquote :: rest)
  = Ok (rev acc ++ s, rest).
Proof.
  revert acc. induction s as [|c s IH]; intros acc Hs.
  - cbn [flat_map app Json.scanstring].
    change (dquote =? dquote)%N with true. cbv iota.
    rewrite app_nil_r. reflexivity.
  - cbn [forallb] in Hs. apply andb_true_iff in Hs as [Hc Hs].
    cbn [flat_map]. rewrite <- app_assoc.
    rewrite scanstring_escape by exact Hc.
    rewrite IH by exact Hs. cbn [rev]. rewrite <- app_assoc. reflexivity.
Qed.

(** The strings of a table that [json.loads] reads back as they were. *)
Definition tabela_escalar (d : dict str) : bool :=
  forallb (fun kv => forallb escalar (fst kv) && forallb escalar (snd kv)) d.

(** One member of an object as [json.dumps] writes it. *)
Definition membro (kv : str * str) : str :=
  Json.encode_basestring_ascii (fst kv) ++ lit ": "
  ++ Json.encode_basestring_ascii (snd kv).

Lemma membro_cabeca (kv : str * str) (rest : str) :
  membro kv ++ rest
  = dquote :: flat_map Json.escape_char (fst kv)
    ++ dquote :: chr ":" :: chr " " :: dquote
    :: flat_map Json.escape_char (snd kv) ++ dquote :: rest.
Proof.
  unfold membro, Json.encode_basestring_ascii.
  change (lit ": ") with [chr ":"; chr " "].
  cbn [app]. rewrite <- !app_assoc. cbn [app].
  rewrite <- !app_assoc. reflexivity.
Qed.

Lemma scan_members_dumps (d : dict str) :
  forall (fuel : nat) (acc : list (str * pyvalue)) (rest : str),
    d <> [] -> tabela_escalar d = true -> (length d < fuel)%nat ->
    Json.scan_members fuel acc
      (join (lit ", ") (map membro d) ++ chr "}" :: rest)
    = Ok (rev acc ++ map (fun kv => (fst kv, PyStr (snd kv))) d, rest).
Proof.
  induction d as [|kv d IH]; intros fuel acc rest Hne Hesc Hfuel;
    [congruence|].
  cbn [tabela_escalar forallb] in Hesc.
  apply andb_true_iff in Hesc as [Hkv Hd].
  apply andb_true_iff in Hkv as [Hk Hv].
  destruct fuel as [|[|k]]; [simpl in Hfuel; lia | simpl in Hfuel; lia |].
  assert (Hpasso : forall tail,
    Json.scan_members (S (S k)) acc (membro kv ++ tail)
    = match Json.skip_ws tail with
      | c :: r2 =>
          if (c =? chr "}")%N
          then Ok (rev ((fst kv, PyStr (snd kv)) :: acc), r2)
          else if (c =? chr ",")%N
          then Json.scan_members (S k) ((fst kv, PyStr (snd kv)) :: acc)
                 (Json.skip_ws r2)
          else Raise JSONDecodeError
      | [] => Raise JSONDecodeError
      end).
  { intros tail. rewrite membro_cabeca.
    cbn [Json.scan_members].
    change (dquote =? dquote)%N with true. cbv iota.
    rewrite scanstring_basestring by exact Hk.
    cbn [bind rev app snd fst Json.skip_ws].
    change (Json.is_ws (chr ":")) with false. cbv iota.
    change (chr ":" =? chr ":")%N with true. cbv iota.
    cbn [Json.skip_ws].
    change (Json.is_ws (chr " ")) with true. cbv iota.
    change (Json.is_ws dquote) with false. cbv iota.
    cbn [Json.scan_once].
    change (dquote =? dquote)%N with true. cbv iota.
    rewrite scanstring_basestring by exact Hv.
    reflexivity. }
  destruct d as [|kv' d'].
  - cbn [map join]. rewrite Hpasso.
    cbn [Json.skip_ws].
    change (Json.is_ws (chr "}")) with false. cbv iota.
    change (chr "}" =? chr "}")%N with true. cbv iota.
    reflexivity.
  - change (map membro (kv :: kv' :: d'))
      with (membro kv :: map membro (kv' :: d')).
    change (join (lit ", ") (membro kv :: map membro (kv' :: d')))
      with (membro kv ++ lit ", " ++ join (lit ", ") (map membro (kv' :: d'))).
    rewrite <- !app_assoc. rewrite Hpasso.
    change (lit ", ") with [chr ","; chr " "]. cbn [app Json.skip_ws].
    change (Json.is_ws (chr ",")) with false. cbv iota.
    change (chr "," =? chr "}")%N with false.
    change (chr "," =? chr ",")%N with true. cbv iota.
    cbn [Json.skip_ws].
    change (Json.is_ws (chr " ")) with true. cbv iota.
    assert (Hhead : exists x r, join [chr ","; chr " "] (map membro (kv' :: d'))
                                ++ chr "}" :: rest = dquote :: r /\ x = r).
    { cbn [map]. destruct (map membro d');
        [cbn [join] | change (join ?s (?p :: ?q :: ?l))
                        with (p ++ s ++ join s (q :: l));
                      rewrite <- !app_assoc];
        rewrite membro_cabeca; eauto. }
    destruct Hhead as (x & r & Hr & _).
    assert (Hskip : Json.skip_ws
                      (join [chr ","; chr " "] (map membro (kv' :: d'))
                       ++ chr "}" :: rest)
                    = join [chr ","; chr " "] (map membro (kv' :: d'))
                      ++ chr "}" :: rest).
    { rewrite Hr. reflexivity. }
    rewrite Hskip.
    change [chr ","; chr " "] with (lit ", ").
    rewrite IH; [| discriminate | exact Hd | simpl in *; lia].
    cbn [rev map]. rewrite <- app_assoc. reflexivity.
Qed.

Lemma join_length (sep : str) (l : list str) :
  (forall p, In p l -> p <> []) -> (length l <= length (join sep l))%nat.
Proof.
  induction l as [|p [|q r] IH]; intros H.
  - simpl. lia.
  - cbn [join length]. specialize (H p (or_introl eq_refl)).
    destruct p; [congruence | simpl; lia].
  - change (join sep (p :: q :: r)) with (p ++ sep ++ join sep (q :: r)).
    rewrite !length_app.
    assert (Hq : (length (q :: r) <= length (join sep (q :: r)))%nat)
      by (apply IH; intros x Hx; apply H; right; exact Hx).
    specialize (H p (or_introl eq_refl)).
    destruct p; [congruence|]. cbn [length] in *. lia.
Qed.

Lemma dumps_membros (d : dict str) :
  Json.dumps d = chr "{" :: join (lit ", ") (map membro d) ++ [chr "}"].
Proof. reflexivity. Qed.

Lemma membros_cabeca (d : dict str) (rest : str) :
  d <> [] ->
  exists r, join (lit ", ") (map membro d) ++ rest = dquote :: r.
Proof.
  destruct d as [|kv [|kv' d']]; intros H; [congruence | |].
  - cbn [map join]. rewrite membro_cabeca. eauto.
  - change (join (lit ", ") (map membro (kv :: kv' :: d')))
      with (membro kv ++ lit ", " ++ join (lit ", ") (map membro (kv' :: d'))).
    rewrite <- !app_assoc. rewrite membro_cabeca. eauto.
Qed.

(** [json.loads(json.dumps(d))] is [d], for a table of distinct keys whose
    strings hold no surrogate. *)
Lemma loads_dumps (d : dict str) :
  NoDup (map fst d) -> tabela_escalar d = true ->
  Json.loads (Json.dumps d) = Ok (tabela_lida d).
Proof.
  intros Hnd Hesc. unfold Json.loads.
  assert (Hfuel : (length d < 2 * length (Json.dumps d) + 1)%nat).
  { rewrite dumps_membros. cbn [length]. rewrite length_app.
    pose proof (join_length (lit ", ") (map membro d)) as H.
    rewrite length_map in H. cbn [length].
    assert (length d <= length (join (lit ", ") (map membro d)))%nat; [|lia].
    apply H. intros p Hp. apply in_map_iff in Hp as [kv [<- _]].
    unfold membro, Json.encode_basestring_ascii. discriminate. }
  replace (2 * length (Json.dumps d) + 2)%nat
    with (S (2 * length (Json.dumps d) + 1)) by lia.
  revert Hfuel. generalize (2 * length (Json.dumps d) + 1)%nat. intros k Hk.
  rewrite dumps_membros.
  cbn [Json.skip_ws].
  change (Json.is_ws (chr "{")) with false. cbv iota.
  cbn [Json.scan_once].
  change (chr "{" =? dquote)%N with false.
  change (chr "{" =? chr "{")%N with true. cbv iota.
  destruct d as [|kv d'].
  - reflexivity.
  - destruct (membros_cabeca (kv :: d') [chr "}"]) as [r Hr]; [discriminate|].
    rewrite Hr. cbn [Json.skip_ws].
    change (Json.is_ws dquote) with false. cbv iota.
    change (dquote =? chr "}")%N with false. cbv iota.
    rewrite <- Hr.
    rewrite (scan_members_dumps (kv :: d') k [] [])
      by (try discriminate; assumption).
    cbn [bind fst snd rev app Json.skip_ws]. f_equal.
    unfold tabela_lida. f_equal. unfold Json.dict_of_pairs.
    apply (fold_dict_set _ []). cbn [app]. rewrite map_map.
    exact Hnd.
Qed.

(** ** The serialized table is ASCII, and UTF-8 keeps ASCII *)

Definition ascii7 (s : str) : Prop := Forall (fun c => (c < 128)%N) s.

Lemma hex_ascii7 (n : nat) (v : Z) : ascii7 (hex n v).
Proof.
  unfold ascii7. revert v. induction n as [|n IH]; intros v; [constructor|].
  cbn [hex]. apply Forall_app. split; [apply IH|].
  constructor; [|constructor].
  pose proof (Z.mod_pos_bound v 16 ltac:(lia)) as H.
  unfold hex_digit. destruct (Z.ltb_spec (v mod 16) 10); lia.
Qed.

Lemma escape_char_ascii7 (c : N) : ascii7 (Json.escape_char c).
Proof.
  unfold ascii7, Json.escape_char. cbv zeta.
  destruct ((0x20 <=? Z.of_N c) && (Z.of_N c <=? 0x7E)
            && negb (Z.of_N c =? 0x5C) && negb (Z.of_N c =? 0x22)) eqn:Hp.
  - repeat (apply andb_true_iff in Hp as [Hp ?]).
    constructor; [|constructor]. apply Z.leb_le in H1. lia.
  - repeat match goal with
      | |- context [if ?b then _ else _] => destruct b
      end;
      try (repeat constructor; fail);
      repeat first [ apply hex_ascii7
                   | apply Forall_app; split
                   | apply Forall_cons; [reflexivity|]
                   | apply Forall_nil ].
Qed.

Lemma ascii7_app (s t : str) : ascii7 s -> ascii7 t -> ascii7 (s ++ t).
Proof. intros Hs Ht. apply Forall_app. split; assumption. Qed.

Lemma ascii7_join (sep : str) (l : list str) :
  ascii7 sep -> (forall p, In p l -> ascii7 p) -> ascii7 (join sep l).
Proof.
  intros Hsep. induction l as [|p [|q r] IH]; intros H.
  - constructor.
  - apply H. left. reflexivity.
  - change (join sep (p :: q :: r)) with (p ++ sep ++ join sep (q :: r)).
    repeat apply ascii7_app; auto.
    + apply H. left. reflexivity.
    + apply IH. intros x Hx. apply H. right. exact Hx.
Qed.

Lemma lit_ascii7 (s : string) :
  forallb (fun c => (c <? 128)%N) (lit s) = true -> ascii7 (lit s).
Proof.
  intros H. apply Forall_forall. intros c Hc.
  rewrite forallb_forall in H. apply N.ltb_lt, H, Hc.
Qed.

Lemma basestring_ascii7 (s : str) : ascii7 (Json.encode_basestring_ascii s).
Proof.
  unfold Json.encode_basestring_ascii.
  apply ascii7_app; [repeat constructor|].
  apply ascii7_app; [|repeat constructor].
  unfold ascii7. apply Forall_flat_map. apply Forall_forall.
  intros c _. apply escape_char_ascii7.
Qed.

(** [json.dumps] with [ensure_ascii] writes ASCII only. *)
Lemma dumps_ascii7 (d : dict str) : ascii7 (Json.dumps d).
Proof.
  unfold Json.dumps.
  apply ascii7_app; [apply lit_ascii7; reflexivity|].
  apply ascii7_app; [|apply lit_ascii7; reflexivity].
  apply ascii7_join; [apply lit_ascii7; reflexivity|].
  intros p Hp. apply in_map_iff in Hp as [kv [<- _]].
  apply ascii7_app; [apply basestring_ascii7|].
  apply ascii7_app; [apply lit_ascii7; reflexivity|].
  apply basestring_ascii7.
Qed.

Lemma encode_ascii7 (s : str) :
  ascii7 s ->
  Utf8.encode s = Ok (map (fun c => byte_of_Z (Z.of_N c)) s).
Proof.
  induction 1 as [|c s Hc Hs IH]; [reflexivity|].
  cbn [Utf8.encode map]. cbv zeta.
  destruct (Z.ltb_spec (Z.of_N c) 0x80); [|lia].
  rewrite IH. reflexivity.
Qed.

Lemma decode_ascii7 (s acc : str) :
  ascii7 s ->
  Utf8.decode_desde acc (map (fun c => byte_of_Z (Z.of_N c)) s)
  = Ok (rev acc ++ s).
Proof.
  intros H. revert acc. induction H as [|c s Hc Hs IH]; intros acc.
  - simpl. rewrite app_nil_r. reflexivity.
  - cbn [map Utf8.decode_desde]. cbv zeta.
    rewrite Z_of_byte_of_Z, Z.mod_small by lia.
    destruct (Z.ltb_spec (Z.of_N c) 0x80); [|lia].
    rewrite IH. cbn [rev]. rewrite <- app_assoc, N2Z.id. reflexivity.
Qed.

(** What [_escrever_binario] serializes, [_ler_binario] parses back. *)
Lemma tabela_ida_e_volta (codigo : dict str) :
  NoDup (map fst codigo) -> tabela_escalar codigo = true ->
  exists json_data,
    Utf8.encode (Json.dumps codigo) = Ok json_data
    /\ bind (Utf8.decode json_data) Json.loads = Ok (tabela_lida codigo).
Proof.
  intros Hnd Hesc. eexists. split.
  - apply encode_ascii7, dumps_ascii7.
  - unfold Utf8.decode. rewrite decode_ascii7 by apply dumps_ascii7.
    cbn [rev app bind]. apply loads_dumps; assumption.
Qed.

(** ** The container, written and read back *)

(** X6.  What [_escrever_binario] writes into an empty pipe,
    [_ler_binario] reads back: for a non-empty text of binary digits below
    2^32 digits and a table of distinct keys whose strings hold no
    surrogate, with a codec that gives the serialized table back, the
    reader returns the same text and the same table, and leaves the pipe
    empty.  The first four bytes of the container hold the number of
    digits. *)
Theorem escrever_ler_binario (E : Externo) (texto : str) (codigo : dict str) :
  texto <> [] -> binario texto = true -> len texto < 2 ^ 32 ->
  NoDup (map fst codigo) -> tabela_escalar codigo = true ->
  (forall json_data,
      Utf8.encode (Json.dumps codigo) = Ok json_data ->
      zlib_decompress (zlib_compress json_data) = Ok json_data
      /\ len (zlib_compress json_data) < 2 ^ 32) ->
  exists container,
    _escrever_binario texto codigo [] = (Ok tt, container)
    /\ campo_bit_length container = len texto
    /\ _ler_binario container = (Ok (texto, tabela_lida codigo), []).
Proof.
  intros Hne Hb Hlen Hnd Hesc Hz.
  destruct (tabela_ida_e_volta codigo Hnd Hesc) as (json_data & Hj & Hl).
  destruct (Hz json_data Hj) as [Hz1 Hz2].
  destruct (container_ida_e_volta texto codigo json_data Hne Hb Hlen Hj
              Hz1 Hz2) as (container & Hw & Hc & Hr).
  exists container. split; [exact Hw|]. split; [exact Hc|].
  rewrite Hr. f_equal.
  destruct (Utf8.decode json_data) as [json_text|e]; cbn [bind] in *;
    [|discriminate].
  rewrite Hl. reflexivity.
Qed.

Lemma escrever_ler_binario_witness :
  exists container,
    _escrever_binario (E := Plataforma) (lit "0110")
      [(lit "a", lit "0"); (lit "b", lit "1")] []
    = (Ok tt, container)
    /\ campo_bit_length container = len (lit "0110")
    /\ _ler_binario (E := Plataforma) container
       = (Ok (lit "0110",
              tabela_lida [(lit "a", lit "0"); (lit "b", lit "1")]), []).
Proof.
  apply (escrever_ler_binario Plataforma).
  - discriminate.
  - reflexivity.
  - vm_compute. reflexivity.
  - repeat constructor; simpl; intuition discriminate.
  - reflexivity.
  - intros json_data H. vm_compute in H. inversion H; subst json_data.
    vm_compute. split; reflexivity.
Defined.

(** The length that does not fit the four bytes of its field is refused
    before anything is written. *)
Lemma escrever_binario_grande {E : Externo} {F : Type} {FL : FileLike F}
    (texto : str) (codigo : dict str) (arquivo : F) :
  2 ^ 32 <= len texto ->
  _escrever_binario texto codigo arquivo = (Raise OverflowError, arquivo).
Proof.
  intros H. unfold _escrever_binario, io_bind, io_lift, to_bytes.
  change (4 <? 0) with false. cbv iota.
  destruct (Z.ltb_spec (len texto) (256 ^ 4)) as [Hlt|Hge].
  - change (256 ^ 4) with (2 ^ 32) in Hlt. lia.
  - rewrite andb_false_r. reflexivity.
Qed.

Lemma binario_escalar (s : str) : binario s = true -> forallb escalar s = true.
Proof.
  unfold binario. intros H. apply forallb_forall. intros c Hc.
  rewrite forallb_forall in H. specialize (H c Hc).
  apply orb_true_iff in H as [H|H]; apply N.eqb_eq in H; subst c; reflexivity.
Qed.

(** Every list goes through the container unharmed. *)
Lemma lista_pelo_container (E : Externo) (l : list pyvalue) :
  forallb escalar (repr (PyList l)) = true -> zlib_fiel E l ->
  exists arvore bits,
    _construir_arvore_huffman (_calcular_frequencias (repr (PyList l)))
    = Ok arvore
    /\ _codificar_lista (repr (PyList l)) (_gerar_codigo_huffman arvore)
       = Ok bits
    /\ (len bits < 2 ^ 32 ->
        exists container,
          compactar_lista l [] = (CODES.SUCESSO, container)
          /\ campo_bit_length container = len bits
          /\ descompactar_lista container
             = descompactar_retorno (_texto_para_lista (repr (PyList l)), []))
    /\ (2 ^ 32 <= len bits ->
        forall (F : Type) (FL : FileLike F) (arquivo : F),
          compactar_lista l arquivo = (CODES.ERRO_CODIFICACAO, arquivo)).
Proof.
  intros Hesc Hz.
  destruct (repr_lista_colchetes l) as [Ha Hb].
  destruct (texto_ida_e_volta (repr (PyList l)) (chr "[") (chr "]") Ha Hb
              ltac:(discriminate))
    as (arvore & bits & Harv & Hcod & Hne & Hbin & Hdec).
  destruct (codigo_huffman_ok (repr (PyList l))
              (chr "[") (chr "]") Ha Hb ltac:(discriminate))
    as (arvore' & Harv' & Hnd & Hk & _ & Hbits).
  assert (arvore' = arvore) as -> by congruence. clear Harv'.
  exists arvore, bits. split; [exact Harv|]. split; [exact Hcod|]. split.
  - intros Hlen.
    assert (Htab : tabela_escalar (_gerar_codigo_huffman arvore) = true).
    { apply forallb_forall. intros kv Hkv. apply andb_true_iff. split.
      - assert (Hin : In (fst kv) (map fst (_gerar_codigo_huffman arvore)))
          by (apply in_map, Hkv).
        apply Hk in Hin as (c & Hc & ->).
        cbn [forallb]. rewrite andb_true_r.
        rewrite forallb_forall in Hesc. apply Hesc, Hc.
      - apply binario_escalar. apply (Hbits kv Hkv). }
    destruct (tabela_ida_e_volta _ Hnd Htab) as (json_data & Hj & Hl).
    destruct (compactar_descompactar l arvore bits json_data Harv Hcod Hne
                Hbin Hlen Hj Hz) as (container & Hc1 & Hc2 & Hc3).
    exists container. split; [exact Hc1|]. split; [exact Hc2|].
    rewrite Hc3. f_equal. f_equal.
    destruct (Utf8.decode json_data) as [json_text|e]; cbn [bind] in *;
      [|discriminate].
    rewrite Hl. cbn [bind ler_except depois_de_ler fst snd].
    rewrite Hdec. reflexivity.
  - intros Hlen F FL arquivo.
    unfold compactar_lista, compactar_corpo, io_bind, io_lift.
    rewrite Harv, Hcod, escrever_binario_grande by exact Hlen.
    reflexivity.
Qed.

(** What the interpreter prints and reads without refusing.  [str] of an
    integer of more than 4300 decimal digits raises [ValueError] (the
    default [int_max_str_digits] of CPython 3.11), as does [json.loads] on
    such a numeral; [repr] and [json.loads] raise [RecursionError] on
    containers nested deeper than the recursion limit (1000 frames by
    default).  [repr] above prints every value, so the lists of the round
    trips below are kept inside both limits: [nos_limites n v] holds when
    no integer of [v] has more than 4300 digits and [v] is nested less
    than [n] deep. *)
Definition max_str_digits : Z := 4300.

Definition inteiro_curto (z : Z) : bool :=
  len (str_int (Z.abs z)) <=? max_str_digits.

Fixpoint nos_limites (nivel : nat) (v : pyvalue) : bool :=
  match nivel with
  | O => false
  | S n =>
      match v with
      | PyInt z => inteiro_curto z
      | PyList l => forallb (nos_limites n) l
      | PyDict d => forallb (fun kv => nos_limites n (snd kv)) d
      | _ => true
      end
  end.

Definition lista_nos_limites (l : list pyvalue) : bool :=
  forallb (nos_limites 100) l.

(** X7.  Every list goes through the container unharmed, whatever it
    holds.  For a list inside the limits of the interpreter, whose text
    [str(lista)] has no surrogate, and a
    codec that gives the serialized table back: the tree is built and the
    text is encoded; when the bits are fewer than 2^32, [compactar_lista]
    returns [SUCESSO] and [descompactar_lista] on the container returns what
    [_texto_para_lista] makes of [str(lista)] itself; when they are not,
    [compactar_lista] returns [ERRO_CODIFICACAO] and writes nothing. *)
Theorem compactar_descompactar_lista (E : Externo) (l : list pyvalue) :
  lista_nos_limites l = true ->
  forallb escalar (repr (PyList l)) = true -> zlib_fiel E l ->
  exists arvore bits,
    _construir_arvore_huffman (_calcular_frequencias (repr (PyList l)))
    = Ok arvore
    /\ _codificar_lista (repr (PyList l)) (_gerar_codigo_huffman arvore)
       = Ok bits
    /\ (len bits < 2 ^ 32 ->
        exists container,
          compactar_lista l [] = (CODES.SUCESSO, container)
          /\ campo_bit_length container = len bits
          /\ descompactar_lista container
             = descompactar_retorno (_texto_para_lista (repr (PyList l)), []))
    /\ (2 ^ 32 <= len bits ->
        forall (F : Type) (FL : FileLike F) (arquivo : F),
          compactar_lista l arquivo = (CODES.ERRO_CODIFICACAO, arquivo)).
Proof. intros _. exact (lista_pelo_container E l). Qed.

(** The list [[{'a': 1, 'b': 'x'}]]. *)
Definition registro_exemplo : list pyvalue :=
  [PyDict [(lit "a", PyInt 1); (lit "b", PyStr (lit "x"))]].

Lemma compactar_descompactar_lista_witness :
  exists arvore bits,
    _construir_arvore_huffman
      (_calcular_frequencias (repr (E := Plataforma) (PyList registro_exemplo)))
    = Ok arvore
    /\ _codificar_lista (repr (E := Plataforma) (PyList registro_exemplo))
         (_gerar_codigo_huffman arvore)
       = Ok bits
    /\ (len bits < 2 ^ 32 ->
        exists container,
          compactar_lista (E := Plataforma) registro_exemplo [] = (CODES.SUCESSO, container)
          /\ campo_bit_length container = len bits
          /\ descompactar_lista (E := Plataforma) container
             = descompactar_retorno
                 (_texto_para_lista (repr (E := Plataforma) (PyList registro_exemplo)), []))
    /\ (2 ^ 32 <= len bits ->
        forall (F : Type) (FL : FileLike F) (arquivo : F),
          compactar_lista (E := Plataforma) registro_exemplo arquivo
          = (CODES.ERRO_CODIFICACAO, arquivo)).
Proof.
  apply (compactar_descompactar_lista Plataforma).
  - vm_compute. reflexivity.
  - vm_compute. reflexivity.
  - intros json_data H. vm_compute in H. inversion H; subst json_data.
    vm_compute. split; reflexivity.
Defined.

(** X8.  A text with two different characters or more survives the codec:
    [_construir_arvore_huffman] builds the tree of its frequencies,
    [_codificar_lista] encodes it into a non-empty string of ['0'] and
    ['1'], and [_decodificar_texto] on that string, with the table as
    [json.loads] returns it, gives the text back. *)
Theorem huffman_ida_e_volta (texto : str) (a b : N) :
  In a texto -> In b texto -> a <> b ->
  exists arvore bits,
    _construir_arvore_huffman (_calcular_frequencias texto) = Ok arvore
    /\ _codificar_lista texto (_gerar_codigo_huffman arvore) = Ok bits
    /\ bits <> []
    /\ binario bits = true
    /\ _decodificar_texto bits (tabela_lida (_gerar_codigo_huffman arvore))
       = Ok texto.
Proof. exact (texto_ida_e_volta texto a b). Qed.

Lemma huffman_ida_e_volta_witness :
  exists arvore bits,
    _construir_arvore_huffman (_calcular_frequencias (lit "abracadabra"))
    = Ok arvore
    /\ _codificar_lista (lit "abracadabra") (_gerar_codigo_huffman arvore)
       = Ok bits
    /\ bits <> []
    /\ binario bits = true
    /\ _decodificar_texto bits (tabela_lida (_gerar_codigo_huffman arvore))
       = Ok (lit "abracadabra").
Proof.
  apply (huffman_ida_e_volta (lit "abracadabra") (chr "a") (chr "b")).
  - left. reflexivity.
  - right. left. reflexivity.
  - discriminate.
Defined.

(** ** The bits that [_ler_binario] makes of the bytes *)

Lemma from_bytes_little_nonneg (bs : bytes) : 0 <= from_bytes_little bs.
Proof.
  induction bs as [|b r IH]; [reflexivity|].
  cbn [from_bytes_little fold_right]. fold (from_bytes_little r).
  pose proof (Z_of_byte_range b). lia.
Qed.

Lemma from_bytes_nonneg (bs : bytes) (order : byteorder) :
  0 <= from_bytes bs order.
Proof. destruct order; apply from_bytes_little_nonneg. Qed.

Lemma bin_pos_valor (p : positive) :
  binario (bin_pos p) = true /\ base2_desde 0 (bin_pos p) = Ok (Zpos p).
Proof.
  induction p as [p [Hb Hv]|p [Hb Hv]|]; cbn [bin_pos].
  - assert (H : binario (bin_pos p ++ [chr "1"]) = true)
      by (rewrite binario_app, Hb; reflexivity).
    split; [exact H|].
    destruct (base2_desde_app _ _ 0 H) as [v [Hv' Hvc]].
    rewrite Hvc. assert (v = Zpos p) as -> by congruence. reflexivity.
  - assert (H : binario (bin_pos p ++ [chr "0"]) = true)
      by (rewrite binario_app, Hb; reflexivity).
    split; [exact H|].
    destruct (base2_desde_app _ _ 0 H) as [v [Hv' Hvc]].
    rewrite Hvc. assert (v = Zpos p) as -> by congruence. reflexivity.
  - split; reflexivity.
Qed.

Lemma base2_desde_zeros (n : nat) (s : str) :
  base2_desde 0 (repeat (chr "0") n ++ s) = base2_desde 0 s.
Proof.
  induction n as [|n IH]; [reflexivity|].
  cbn [repeat app base2_desde].
  change (chr "0" =? chr "0")%N with true. cbv iota. exact IH.
Qed.

Lemma binario_zeros (n : nat) : binario (repeat (chr "0") n) = true.
Proof. induction n as [|n IH]; [reflexivity | exact IH]. Qed.

(** [bin(v)[2:]] of a number that is not negative: binary digits, the
    first of which is no sign, with the value [v]. *)
Lemma bin_2_valor (v : Z) :
  0 <= v ->
  exists c r, bin_2 v = c :: r /\ (c = chr "0" \/ c = chr "1")
              /\ binario (c :: r) = true /\ base2_desde 0 (c :: r) = Ok v.
Proof.
  intros Hv. destruct v as [|p|p]; [| |lia].
  - exists (chr "0"), []. repeat split. left. reflexivity.
  - destruct (bin_pos_cabeca p) as [t Ht].
    destruct (bin_pos_valor p) as [Hb Hval].
    exists (chr "1"), t. cbn [bin_2]. rewrite <- Ht. auto.
Qed.

(** X9.  The digits that [_ler_binario] makes of the bytes of the text
    (line 238) are never empty and never fewer than the length field says:
    a non-empty string of ['0'] and ['1'], of [tamanho] digits or of as many
    as the number in the bytes has when that is more, whose value in base 2
    is that number.  With a length field of zero and no byte the text is
    ['0'], of one digit. *)
Theorem unpack_valor (valor : bytes) (tamanho : Z) :
  binario (unpack valor tamanho) = true
  /\ int_base2 (unpack valor tamanho) = Ok (from_bytes valor big)
  /\ len (unpack valor tamanho)
     = Z.max tamanho (len (bin_2 (from_bytes valor big)))
  /\ 1 <= len (unpack valor tamanho)
  /\ unpack [] 0 = lit "0".
Proof.
  unfold unpack.
  destruct (bin_2_valor (from_bytes valor big) (from_bytes_nonneg _ _))
    as (c & r & Hbin & Hc & Hb & Hv).
  rewrite Hbin. rewrite zfill_digito by exact Hc.
  set (n := Z.to_nat (tamanho - len (c :: r))).
  split; [|split; [|split; [|split]]].
  - rewrite binario_app, binario_zeros, Hb. reflexivity.
  - unfold int_base2.
    destruct (repeat (chr "0") n ++ c :: r) eqn:He.
    + destruct n; discriminate He.
    + rewrite <- He, base2_desde_zeros. exact Hv.
  - unfold len. rewrite length_app, repeat_length. unfold n, len. lia.
  - unfold len. rewrite length_app. cbn [length]. lia.
  - reflexivity.
Qed.

(** ** The list that [_texto_para_lista] returns *)

(** X10.  [_texto_para_lista] returns nothing but a list of dictionaries,
    the one [json.loads] reads in the text with every ['] replaced by a
    double quote; a text that is not JSON, is no list or has an item that is
    no dictionary raises [ValueError], and no [JSONDecodeError] gets out
    (the only other exception is the [RecursionError] of the parser). *)
Theorem texto_para_lista_forma (texto : str) :
  match _texto_para_lista texto with
  | Ok itens =>
      forallb is_dict itens = true
      /\ Json.loads (replace (chr "'") dquote texto) = Ok (PyList itens)
  | Raise e => e = ValueError \/ e = RuntimeError
  end.
Proof.
  unfold _texto_para_lista, reraise.
  destruct (Json.loads (replace (chr "'") dquote texto)) as [v|e] eqn:Hl;
    cbn [bind].
  - destruct v; try (left; reflexivity).
    destruct (forallb is_dict l) eqn:Hd; [split; [exact Hd | reflexivity]|].
    left. reflexivity.
  - apply loads_raise in Hl as [-> | ->]; [left|right]; reflexivity.
Qed.

(** ** Codes that are no strings *)

(** A value that can be the key of a dictionary. *)
Definition hashable (v : pyvalue) : bool :=
  match v with PyList _ | PyDict _ => false | _ => true end.

Lemma inverter_hashable (items : list (str * pyvalue)) (inv : dict str) :
  if forallb (fun kv => hashable (snd kv)) items
  then exists inv', inverter items inv = Ok inv'
  else inverter items inv = Raise TypeError.
Proof.
  revert inv. induction items as [|[s c] r IH]; intros inv.
  - simpl. eauto.
  - cbn [forallb inverter snd].
    destruct c; cbn [hashable andb]; try apply IH; reflexivity.
Qed.

(** X11.  [_decodificar_texto] fails on the table alone, whatever the
    bits: a table that is no dictionary raises [AttributeError] (it has no
    [items]), a dictionary with a list or a dictionary as a code raises
    [TypeError] (the code cannot be a key), and with every other dictionary
    a text is returned. *)
Theorem decodificar_texto_tabela (bits : str) (tabela : pyvalue) :
  match tabela with
  | PyDict items =>
      if forallb (fun kv => hashable (snd kv)) items
      then exists texto, _decodificar_texto bits tabela = Ok texto
      else _decodificar_texto bits tabela = Raise TypeError
  | _ => _decodificar_texto bits tabela = Raise AttributeError
  end.
Proof.
  destruct tabela; try reflexivity.
  unfold _decodificar_texto.
  pose proof (inverter_hashable d []) as H.
  destruct (forallb (fun kv => hashable (snd kv)) d).
  - destruct H as [inv' ->]. cbn [bind]. eauto.
  - rewrite H. reflexivity.
Qed.

(** ** Encoding and decoding piece by piece *)

(** X12.  Encoding a text made of two pieces gives the bits of the first
    followed by the bits of the second, and fails when either piece has a
    character without a code. *)
Theorem codificar_lista_app (t1 t2 : str) (codigo_huffman : dict str) :
  _codificar_lista (t1 ++ t2) codigo_huffman
  = bind (_codificar_lista t1 codigo_huffman) (fun b1 =>
    bind (_codificar_lista t2 codigo_huffman) (fun b2 => Ok (b1 ++ b2))).
Proof.
  unfold _codificar_lista. rewrite !codificar_desde_spec.
  rewrite forallb_app, flat_map_app.
  destruct (forallb _ t1); cbn [andb bind]; [|reflexivity].
  destruct (forallb _ t2); reflexivity.
Qed.

Lemma decodificar_desde_acumulado (inv : dict str) (bits atual acc : str) :
  decodificar_desde inv atual acc bits
  = (fst (decodificar_desde inv atual [] bits),
     acc ++ snd (decodificar_desde inv atual [] bits)).
Proof.
  revert atual acc. induction bits as [|b r IH]; intros atual acc.
  - simpl. rewrite app_nil_r. reflexivity.
  - cbn [decodificar_desde].
    destruct (dict_get inv (atual ++ [b])) as [s|].
    + rewrite (IH [] (acc ++ s)), (IH [] ([] ++ s)).
      cbn [fst snd app]. rewrite app_assoc. reflexivity.
    + apply IH.
Qed.

(** X13.  Decoding goes on from where it stopped: when the first bits
    end on a code, with nothing pending, the text of the first bits
    followed by more bits is the text of the first followed by the text of
    the others. *)
Theorem decodificar_texto_app (b1 b2 : str) (codigo_huffman : dict str) :
  pendente codigo_huffman b1 = [] ->
  _decodificar_texto (b1 ++ b2) (tabela_lida codigo_huffman)
  = bind (_decodificar_texto b1 (tabela_lida codigo_huffman)) (fun t1 =>
    bind (_decodificar_texto b2 (tabela_lida codigo_huffman)) (fun t2 =>
    Ok (t1 ++ t2))).
Proof.
  intros Hp. rewrite !decodificar_tabela_lida. cbn [bind].
  rewrite decodificar_desde_app. unfold pendente in Hp. rewrite Hp.
  rewrite decodificar_desde_acumulado. reflexivity.
Qed.

Lemma decodificar_texto_app_witness :
  pendente [(lit "a", lit "0"); (lit "b", lit "10")] (lit "010") = []
  /\ _decodificar_texto (lit "010" ++ lit "100")
       (tabela_lida [(lit "a", lit "0"); (lit "b", lit "10")])
     = bind (_decodificar_texto (lit "010")
               (tabela_lida [(lit "a", lit "0"); (lit "b", lit "10")]))
         (fun t1 =>
          bind (_decodificar_texto (lit "100")
                  (tabela_lida [(lit "a", lit "0"); (lit "b", lit "10")]))
            (fun t2 => Ok (t1 ++ t2))).
Proof.
  split; [reflexivity|].
  apply (decodificar_texto_app (lit "010") (lit "100")
           [(lit "a", lit "0"); (lit "b", lit "10")]).
  reflexivity.
Defined.

(* ===================================================================== *)
(** * Records that come back as they were *)
(* ===================================================================== *)

(** ** Integers in decimal *)

(** The characters of the digits of a decimal number. *)
Definition digitos (d : Decimal.uint) : str :=
  lit (NilEmpty.string_of_uint d).

Lemma lit_String (a : ascii) (s : string) :
  lit (String a s) = N_of_ascii a :: lit s.
Proof. reflexivity. Qed.

Lemma digitos_is_digit (d : Decimal.uint) :
  forallb Json.is_digit (digitos d) = true.
Proof.
  unfold digitos.
  induction d; cbn [NilEmpty.string_of_uint]; try rewrite lit_String;
    cbn [forallb]; try rewrite IHd; reflexivity.
Qed.

Lemma decimal_desde_acc (d : Decimal.uint) (acc : positive) :
  Json.decimal_desde (Zpos acc) (digitos d) = Zpos (Pos.of_uint_acc d acc).
Proof.
  unfold digitos. revert acc.
  induction d; intros acc; cbn [NilEmpty.string_of_uint Pos.of_uint_acc];
    try rewrite lit_String; cbn [Json.decimal_desde];
    [reflexivity | rewrite <- IHd; f_equal ..];
    match goal with
    | |- context [Z.of_N (N_of_ascii ?a)] =>
        let v := eval vm_compute in (Z.of_N (N_of_ascii a)) in
        change (Z.of_N (N_of_ascii a)) with v
    end; lia.
Qed.

Lemma decimal_desde_uint (d : Decimal.uint) :
  Json.decimal_desde 0 (digitos d) = Z.of_N (Pos.of_uint d).
Proof.
  unfold digitos.
  induction d; cbn [NilEmpty.string_of_uint Pos.of_uint];
    try rewrite lit_String; cbn [Json.decimal_desde];
    [reflexivity | exact IHd
     | cbn [Z.of_N]; rewrite <- decimal_desde_acc; reflexivity ..].
Qed.

(** The digits of a positive number start with a digit that is not zero. *)
Lemma to_uint_cabeca (p : positive) :
  exists c r, digitos (Pos.to_uint p) = c :: r
              /\ Json.is_digit c = true /\ c <> chr "0".
Proof.
  pose proof (DecimalPos.Unsigned.to_of (Pos.to_uint p)) as H.
  rewrite DecimalPos.Unsigned.of_to in H. cbn [N.to_uint] in H.
  pose proof (DecimalPos.Unsigned.to_uint_nonzero p) as Hnz.
  unfold Decimal.unorm in H.
  pose proof (DecimalFacts.nzhead_nonzero (Pos.to_uint p)) as Hh.
  unfold digitos.
  destruct (Decimal.nzhead (Pos.to_uint p)) eqn:Hn; rewrite H in *;
    try congruence;
    try (exfalso; apply (Hh _ eq_refl));
    cbn [NilEmpty.string_of_uint]; rewrite lit_String;
    do 2 eexists; (split; [reflexivity|]); split;
    try reflexivity; discriminate.
Qed.

Lemma str_int_pos (p : positive) : str_int (Zpos p) = digitos (Pos.to_uint p).
Proof.
  unfold str_int, digitos. cbn [Z.to_int NilZero.string_of_int].
  unfold NilZero.string_of_uint.
  pose proof (DecimalPos.Unsigned.to_uint_nonnil p) as H.
  destruct (Pos.to_uint p); [congruence | reflexivity ..].
Qed.

Lemma str_int_neg (p : positive) :
  str_int (Zneg p) = chr "-" :: digitos (Pos.to_uint p).
Proof.
  unfold str_int, digitos. cbn [Z.to_int NilZero.string_of_int].
  rewrite lit_String. f_equal.
  unfold NilZero.string_of_uint.
  pose proof (DecimalPos.Unsigned.to_uint_nonnil p) as H.
  destruct (Pos.to_uint p); [congruence | reflexivity ..].
Qed.

(** Numerals for the character constants, for [lia]. *)
Ltac numerais :=
  unfold dquote;
  repeat match goal with
    | |- context [chr ?a] =>
        let v := eval vm_compute in (chr a) in change (chr a) with v
    | |- context [lit ?s] =>
        let v := eval vm_compute in (lit s) in change (lit s) with v
    end.

Lemma is_digit_faixa (c : N) :
  Json.is_digit c = true -> (48 <= c <= 57)%N.
Proof.
  unfold Json.is_digit. intros H. apply andb_true_iff in H as [H1 H2].
  apply N.leb_le in H1, H2. lia.
Qed.

(** What follows a value inside an object. *)
Definition fim_de_valor (rest : str) : Prop :=
  exists c r, rest = c :: r /\ (c = chr "," \/ c = chr "}").

Lemma span_digits_app (ds rest : str) :
  forallb Json.is_digit ds = true -> fim_de_valor rest ->
  Json.span_digits (ds ++ rest) = (ds, rest).
Proof.
  intros Hd (c & r & -> & Hc).
  induction ds as [|d ds IH].
  - destruct Hc as [-> | ->]; reflexivity.
  - cbn [forallb] in Hd. apply andb_true_iff in Hd as [H1 H2].
    cbn [app Json.span_digits]. rewrite H1, (IH H2). reflexivity.
Qed.

Lemma match_frac_fim (rest : str) :
  fim_de_valor rest -> Json.match_frac rest = ([], rest).
Proof.
  intros (c & r & -> & Hc). destruct r; destruct Hc as [-> | ->]; reflexivity.
Qed.

Lemma match_exp_fim (rest : str) :
  fim_de_valor rest -> Json.match_exp rest = ([], rest).
Proof.
  intros (c & r & -> & Hc). destruct Hc as [-> | ->]; reflexivity.
Qed.

Lemma match_number_digitos (c : N) (r rest : str) :
  Json.is_digit c = true -> c <> chr "0" ->
  forallb Json.is_digit r = true -> fim_de_valor rest ->
  Json.match_number (c :: r ++ rest)
  = Ok (PyInt (Json.decimal_desde 0 (c :: r)), rest)
  /\ Json.match_number (chr "-" :: c :: r ++ rest)
     = Ok (PyInt (- Json.decimal_desde 0 (c :: r)), rest).
Proof.
  intros Hc H0 Hr Hfim. pose proof (is_digit_faixa c Hc) as Hf.
  assert (Hm : (c =? chr "-")%N = false)
    by (numerais; apply N.eqb_neq; lia).
  assert (Hz : (c =? chr "0")%N = false) by (apply N.eqb_neq; exact H0).
  unfold Json.match_number, Json.match_integer. split.
  - rewrite Hm, Hz, Hc, (span_digits_app r rest Hr Hfim).
    cbn [app]. rewrite (match_frac_fim rest Hfim), (match_exp_fim rest Hfim).
    rewrite Hm. reflexivity.
  - change (chr "-" =? chr "-")%N with true. cbv iota.
    rewrite Hz, Hc, (span_digits_app r rest Hr Hfim).
    cbn [app]. rewrite (match_frac_fim rest Hfim), (match_exp_fim rest Hfim).
    change (chr "-" =? chr "-")%N with true. reflexivity.
Qed.

Lemma strip_prefix_outro (p : str) (c : N) (s : str) :
  match p with a :: _ => (a =? c)%N | [] => true end = false ->
  Json.strip_prefix p (c :: s) = None.
Proof.
  destruct p as [|a p]; [discriminate|].
  intros H. cbn [Json.strip_prefix]. rewrite H. reflexivity.
Qed.

Ltac outro := first [ reflexivity
                    | numerais; cbv beta iota; apply N.eqb_neq; lia ].

(** [json.loads] reads the decimal digits of an integer as that integer. *)
Lemma scan_once_int (k : nat) (z : Z) (rest : str) :
  fim_de_valor rest ->
  Json.scan_once (S k) (str_int z ++ rest) = Ok (PyInt z, rest).
Proof.
  intros Hfim. destruct z as [|p|p].
  - change (str_int 0) with [chr "0"]. cbn [app Json.scan_once].
    change (chr "0" =? dquote)%N with false.
    change (chr "0" =? chr "{")%N with false.
    change (chr "0" =? chr "[")%N with false. cbv iota.
    unfold Json.scan_atom.
    rewrite !strip_prefix_outro by outro.
    unfold Json.match_number, Json.match_integer.
    change (chr "0" =? chr "-")%N with false. cbv iota.
    change (chr "0" =? chr "0")%N with true. cbv iota.
    cbn [app]. rewrite (match_frac_fim rest Hfim), (match_exp_fim rest Hfim).
    reflexivity.
  - rewrite str_int_pos.
    destruct (to_uint_cabeca p) as (c & r & Hd & Hc & H0).
    pose proof (digitos_is_digit (Pos.to_uint p)) as Hall.
    pose proof (decimal_desde_uint (Pos.to_uint p)) as Hval.
    rewrite DecimalPos.Unsigned.of_to in Hval.
    rewrite Hd in *. cbn [forallb] in Hall.
    apply andb_true_iff in Hall as [_ Hr].
    pose proof (is_digit_faixa c Hc) as Hf.
    cbn [app Json.scan_once].
    replace (c =? dquote)%N with false
      by (symmetry; numerais; apply N.eqb_neq; lia).
    replace (c =? chr "{")%N with false
      by (symmetry; numerais; apply N.eqb_neq; lia).
    replace (c =? chr "[")%N with false
      by (symmetry; numerais; apply N.eqb_neq; lia).
    unfold Json.scan_atom.
    rewrite !strip_prefix_outro by outro.
    rewrite (proj1 (match_number_digitos c r rest Hc H0 Hr Hfim)), Hval.
    reflexivity.
  - rewrite str_int_neg.
    destruct (to_uint_cabeca p) as (c & r & Hd & Hc & H0).
    pose proof (digitos_is_digit (Pos.to_uint p)) as Hall.
    pose proof (decimal_desde_uint (Pos.to_uint p)) as Hval.
    rewrite DecimalPos.Unsigned.of_to in Hval.
    rewrite Hd in *. cbn [forallb] in Hall.
    apply andb_true_iff in Hall as [_ Hr].
    pose proof (is_digit_faixa c Hc) as Hf.
    cbn [app Json.scan_once].
    change (chr "-" =? dquote)%N with false.
    change (chr "-" =? chr "{")%N with false.
    change (chr "-" =? chr "[")%N with false. cbv iota.
    unfold Json.scan_atom.
    rewrite !strip_prefix_outro by outro.
    change (lit "-Infinity") with (chr "-" :: lit "Infinity").
    cbn [Json.strip_prefix].
    change (chr "-" =? chr "-")%N with true. cbv iota.
    change (lit "Infinity") with (chr "I" :: lit "nfinity").
    rewrite strip_prefix_outro by outro.
    rewrite (proj2 (match_number_digitos c r rest Hc H0 Hr Hfim)), Hval.
    reflexivity.
Qed.

(** ** Strings without quotes *)

Section Registros.
Context {E : Externo}.

(** A character that [repr] writes as it is, that is no quote and no
    backslash, and no surrogate. *)
Definition carater_simples (c : N) : bool :=
  negb (c =? chr "'")%N && negb (c =? dquote)%N && negb (c =? chr "\")%N
  && escalar c
  && (((0x20 <=? c) && (c <? 0x7F))%N
      || ((0x7F <? c)%N && unicode_isprintable c)).

Definition texto_simples (s : str) : bool := forallb carater_simples s.

(** A string of such characters, or an integer that [str] prints. *)
Definition valor_simples (v : pyvalue) : bool :=
  match v with
  | PyStr s => texto_simples s
  | PyInt z => inteiro_curto z
  | _ => false
  end.

(** A dictionary of distinct keys, with such keys and values. *)
Definition registro_simples (v : pyvalue) : Prop :=
  match v with
  | PyDict d =>
      NoDup (map fst d)
      /\ forallb (fun kv => texto_simples (fst kv) && valor_simples (snd kv)) d
         = true
  | _ => False
  end.

(** The [replace] of [_texto_para_lista]: every single quote becomes a
    double quote. *)
Definition trocar (s : str) : str := replace (chr "'") dquote s.

Lemma trocar_app (s t : str) : trocar (s ++ t) = trocar s ++ trocar t.
Proof. apply map_app. Qed.

Lemma trocar_join (sep : str) (l : list str) :
  trocar (join sep l) = join (trocar sep) (map trocar l).
Proof.
  induction l as [|p [|q r] IH]; [reflexivity | reflexivity |].
  change (join sep (p :: q :: r)) with (p ++ sep ++ join sep (q :: r)).
  rewrite !trocar_app, IH. reflexivity.
Qed.

Lemma carater_simples_faixa (c : N) :
  carater_simples c = true ->
  c <> chr "'" /\ c <> dquote /\ c <> chr "\" /\ escalar c = true
  /\ (((0x20 <= c)%N /\ (c < 0x7F)%N)
      \/ ((0x7F < c)%N /\ unicode_isprintable c = true)).
Proof.
  unfold carater_simples. intros H.
  repeat (apply andb_true_iff in H as [H ?]).
  repeat match goal with
    | H : negb _ = true |- _ => apply negb_true_iff, N.eqb_neq in H
    end.
  repeat split; try assumption.
  apply orb_true_iff in H0 as [H0|H0]; apply andb_true_iff in H0 as [H5 H6].
  - left. apply N.leb_le in H5. apply N.ltb_lt in H6. auto.
  - right. apply N.ltb_lt in H5. auto.
Qed.

Lemma repr_char_simples (c : N) :
  carater_simples c = true -> repr_char (chr "'") c = [c].
Proof.
  intros H. apply carater_simples_faixa in H as (H1 & H2 & H3 & _ & H4).
  unfold repr_char. cbv zeta.
  destruct (N.eqb_spec c (chr "'")); [contradiction|].
  destruct (N.eqb_spec c (chr "\")); [contradiction|]. cbn [orb].
  revert H1 H2 H3 n n0. numerais. intros.
  destruct H4 as [[Ha Hb]|[Ha Hb]].
  - testes; reflexivity.
  - testes; rewrite ?Hb; reflexivity.
Qed.

Lemma texto_simples_sem_aspas (s : str) :
  texto_simples s = true ->
  existsb (N.eqb (chr "'")) s = false /\ trocar s = s
  /\ flat_map (repr_char (chr "'")) s = s.
Proof.
  induction s as [|c s IH]; intros H; [repeat split|].
  cbn [texto_simples forallb] in H. apply andb_true_iff in H as [Hc Hs].
  destruct (IH Hs) as (I1 & I2 & I3).
  pose proof (carater_simples_faixa c Hc) as (H1 & _).
  split; [|split].
  - cbn [existsb]. rewrite I1.
    destruct (N.eqb_spec (chr "'") c); [congruence | reflexivity].
  - unfold trocar, replace in *. cbn [map]. rewrite I2.
    destruct (N.eqb_spec c (chr "'")); [contradiction | reflexivity].
  - cbn [flat_map]. rewrite I3, repr_char_simples by exact Hc. reflexivity.
Qed.

(** [repr] puts such a string between single quotes, and the replacement
    makes them double quotes. *)
Lemma trocar_repr_str (s : str) :
  texto_simples s = true ->
  trocar (repr_str s) = dquote :: s ++ [dquote].
Proof.
  intros H. destruct (texto_simples_sem_aspas s H) as (H1 & H2 & H3).
  unfold repr_str. rewrite H1. cbn [andb]. cbv zeta.
  rewrite H3. cbn [app]. unfold trocar, replace. cbn [map].
  change (chr "'" =? chr "'")%N with true. cbv iota.
  rewrite map_app. cbn [map].
  change (chr "'" =? chr "'")%N with true. cbv iota.
  f_equal. f_equal. exact H2.
Qed.

Lemma scanstring_simples (s acc rest : str) :
  texto_simples s = true ->
  Json.scanstring acc (s ++ dquote :: rest) = Ok (rev acc ++ s, rest).
Proof.
  revert acc. induction s as [|c s IH]; intros acc H.
  - cbn [app Json.scanstring].
    change (dquote =? dquote)%N with true. cbv iota.
    rewrite app_nil_r. reflexivity.
  - cbn [texto_simples forallb] in H. apply andb_true_iff in H as [Hc Hs].
    pose proof (carater_simples_faixa c Hc) as (_ & H2 & H3 & _ & H4).
    cbn [app Json.scanstring].
    destruct (N.eqb_spec c dquote); [contradiction|].
    destruct (N.eqb_spec c (chr "\")); [contradiction|].
    destruct (N.ltb_spec c 0x20); [lia|].
    rewrite IH by exact Hs. cbn [rev]. rewrite <- app_assoc. reflexivity.
Qed.

Lemma trocar_digitos (d : Decimal.uint) : trocar (digitos d) = digitos d.
Proof.
  unfold digitos.
  induction d; cbn [NilEmpty.string_of_uint]; try rewrite lit_String;
    [reflexivity | unfold trocar, replace in *; cbn [map]; rewrite IHd;
                   reflexivity ..].
Qed.

Lemma trocar_str_int (z : Z) : trocar (str_int z) = str_int z.
Proof.
  destruct z as [|p|p]; [reflexivity | |].
  - rewrite str_int_pos. apply trocar_digitos.
  - rewrite str_int_neg. unfold trocar, replace. cbn [map].
    change (chr "-" =? chr "'")%N with false. cbv iota. f_equal.
    apply trocar_digitos.
Qed.

(** The text of a value after the replacement. *)
Lemma trocar_repr_valor (v : pyvalue) :
  valor_simples v = true ->
  trocar (repr v)
  = match v with
    | PyStr s => dquote :: s ++ [dquote]
    | PyInt z => str_int z
    | _ => []
    end.
Proof.
  destruct v; try discriminate; intros H.
  - apply trocar_str_int.
  - apply trocar_repr_str, H.
Qed.

Lemma scan_once_valor (k : nat) (v : pyvalue) (rest : str) :
  valor_simples v = true -> fim_de_valor rest ->
  Json.scan_once (S k) (trocar (repr v) ++ rest) = Ok (v, rest)
  /\ Json.skip_ws (trocar (repr v) ++ rest) = trocar (repr v) ++ rest.
Proof.
  intros Hv Hfim. rewrite trocar_repr_valor by exact Hv.
  destruct v; try discriminate.
  - split; [apply scan_once_int, Hfim|].
    destruct z as [|p|p]; [reflexivity | |].
    + rewrite str_int_pos.
      destruct (to_uint_cabeca p) as (c & r & -> & Hc & _).
      apply is_digit_faixa in Hc. cbn [app Json.skip_ws].
      unfold Json.is_ws. testes. reflexivity.
    + rewrite str_int_neg. reflexivity.
  - split; [|reflexivity].
    cbn [app Json.scan_once].
    change (dquote =? dquote)%N with true. cbv iota.
    rewrite <- app_assoc. cbn [app].
    rewrite scanstring_simples by exact Hv. reflexivity.
Qed.

(** ** Dictionaries and the list *)

(** One member of a dictionary, as it stands in the text after the
    replacement. *)
Definition membro_trocado (kv : str * pyvalue) : str :=
  trocar (repr_str (fst kv) ++ lit ": " ++ repr (snd kv)).

Definition membro_simples (kv : str * pyvalue) : bool :=
  texto_simples (fst kv) && valor_simples (snd kv).

Lemma membro_trocado_forma (kv : str * pyvalue) (rest : str) :
  membro_simples kv = true ->
  membro_trocado kv ++ rest
  = dquote :: fst kv
    ++ dquote :: chr ":" :: chr " " :: trocar (repr (snd kv)) ++ rest.
Proof.
  intros H. apply andb_true_iff in H as [Hk Hv].
  unfold membro_trocado. rewrite !trocar_app, trocar_repr_str by exact Hk.
  change (trocar (lit ": ")) with [chr ":"; chr " "].
  cbn [app]. rewrite <- !app_assoc. reflexivity.
Qed.

Lemma scan_members_passo (k : nat) (acc : list (str * pyvalue))
    (kv : str * pyvalue) (tail : str) :
  membro_simples kv = true -> fim_de_valor tail ->
  Json.scan_members (S (S k)) acc (membro_trocado kv ++ tail)
  = match tail with
    | c :: r2 =>
        if (c =? chr "}")%N then Ok (rev (kv :: acc), r2)
        else if (c =? chr ",")%N
        then Json.scan_members (S k) (kv :: acc) (Json.skip_ws r2)
        else Raise JSONDecodeError
    | [] => Raise JSONDecodeError
    end.
Proof.
  intros H Hfim. rewrite membro_trocado_forma by exact H.
  apply andb_true_iff in H as [Hk Hv].
  destruct (scan_once_valor k (snd kv) tail Hv Hfim) as [Hscan Hws].
  cbn [Json.scan_members].
  change (dquote =? dquote)%N with true. cbv iota.
  rewrite scanstring_simples by exact Hk.
  cbn [bind rev app snd fst Json.skip_ws].
  change (Json.is_ws (chr ":")) with false. cbv iota.
  change (chr ":" =? chr ":")%N with true. cbv iota.
  cbn [Json.skip_ws].
  change (Json.is_ws (chr " ")) with true. cbv iota.
  rewrite Hws, Hscan. cbn [bind fst snd].
  destruct Hfim as (c & r & -> & [-> | ->]); destruct kv; reflexivity.
Qed.

Lemma membros_trocados_cabeca (d : list (str * pyvalue)) (rest : str) :
  d <> [] -> forallb membro_simples d = true ->
  exists r, join (lit ", ") (map membro_trocado d) ++ rest = dquote :: r.
Proof.
  destruct d as [|kv [|kv' d']]; intros Hne H; [congruence | |];
    cbn [forallb] in H; apply andb_true_iff in H as [Hkv _].
  - cbn [map join]. rewrite membro_trocado_forma by exact Hkv. eauto.
  - change (join (lit ", ") (map membro_trocado (kv :: kv' :: d')))
      with (membro_trocado kv ++ lit ", "
            ++ join (lit ", ") (map membro_trocado (kv' :: d'))).
    rewrite <- !app_assoc. rewrite membro_trocado_forma by exact Hkv. eauto.
Qed.

Lemma scan_members_registro (d : list (str * pyvalue)) :
  forall (fuel : nat) (acc : list (str * pyvalue)) (rest : str),
    d <> [] -> forallb membro_simples d = true -> (length d < fuel)%nat ->
    Json.scan_members fuel acc
      (join (lit ", ") (map membro_trocado d) ++ chr "}" :: rest)
    = Ok (rev acc ++ d, rest).
Proof.
  induction d as [|kv d IH]; intros fuel acc rest Hne Hs Hfuel;
    [congruence|].
  cbn [forallb] in Hs. apply andb_true_iff in Hs as [Hkv Hd].
  destruct fuel as [|[|k]]; [simpl in Hfuel; lia | simpl in Hfuel; lia |].
  destruct d as [|kv' d'].
  - cbn [map join].
    rewrite scan_members_passo;
      [| exact Hkv | exists (chr "}"), rest; auto].
    change (chr "}" =? chr "}")%N with true. cbv iota. reflexivity.
  - change (join (lit ", ") (map membro_trocado (kv :: kv' :: d')))
      with (membro_trocado kv ++ lit ", "
            ++ join (lit ", ") (map membro_trocado (kv' :: d'))).
    rewrite <- !app_assoc.
    change (lit ", ") with [chr ","; chr " "] at 1. cbn [app].
    rewrite scan_members_passo; [| exact Hkv | eexists _, _; auto].
    change (chr "," =? chr "}")%N with false.
    change (chr "," =? chr ",")%N with true. cbv iota.
    cbn [Json.skip_ws].
    change (Json.is_ws (chr " ")) with true. cbv iota.
    destruct (membros_trocados_cabeca (kv' :: d') (chr "}" :: rest))
      as [r Hr]; [discriminate | exact Hd |].
    assert (Hskip : Json.skip_ws
                      (join (lit ", ") (map membro_trocado (kv' :: d'))
                       ++ chr "}" :: rest)
                    = join (lit ", ") (map membro_trocado (kv' :: d'))
                      ++ chr "}" :: rest).
    { rewrite Hr. reflexivity. }
    rewrite Hskip.
    rewrite IH; [| discriminate | exact Hd | simpl in *; lia].
    cbn [rev]. rewrite <- app_assoc. reflexivity.
Qed.

Lemma trocar_repr_dict (d : list (str * pyvalue)) :
  trocar (repr (PyDict d))
  = chr "{" :: join (lit ", ") (map membro_trocado d) ++ [chr "}"].
Proof.
  cbn [repr]. rewrite !trocar_app, trocar_join, map_map. reflexivity.
Qed.

(** A dictionary, whatever follows it. *)
Lemma scan_once_registro (k : nat) (d : list (str * pyvalue)) (rest : str) :
  registro_simples (PyDict d) -> (length d < k)%nat ->
  Json.scan_once (S k) (trocar (repr (PyDict d)) ++ rest)
  = Ok (PyDict d, rest).
Proof.
  intros [Hnd Hs] Hk. rewrite trocar_repr_dict.
  cbn [app Json.scan_once].
  change (chr "{" =? dquote)%N with false.
  change (chr "{" =? chr "{")%N with true. cbv iota.
  rewrite <- app_assoc. cbn [app].
  destruct d as [|kv d'].
  - reflexivity.
  - destruct (membros_trocados_cabeca (kv :: d') (chr "}" :: rest))
      as [r Hr]; [discriminate | exact Hs |].
    rewrite Hr. cbn [Json.skip_ws].
    change (Json.is_ws dquote) with false. cbv iota.
    change (dquote =? chr "}")%N with false. cbv iota.
    rewrite <- Hr.
    rewrite scan_members_registro by (try discriminate; assumption).
    cbn [bind fst snd rev app]. f_equal. f_equal. f_equal.
    unfold Json.dict_of_pairs. apply (fold_dict_set _ []). exact Hnd.
Qed.

Lemma scan_items_S (k : nat) (acc : list pyvalue) (s : str) :
  Json.scan_items (S k) acc s
  = bind (Json.scan_once k s) (fun vr =>
    match Json.skip_ws (snd vr) with
    | d :: r =>
        if (d =? chr "]")%N then Ok (rev (fst vr :: acc), r)
        else if (d =? chr ",")%N
        then Json.scan_items k (fst vr :: acc) (Json.skip_ws r)
        else Raise JSONDecodeError
    | [] => Raise JSONDecodeError
    end).
Proof. reflexivity. Qed.

Lemma scan_items_registros (l : list pyvalue) (m : nat) :
  forall (fuel : nat) (acc : list pyvalue) (rest : str),
    l <> [] -> Forall registro_simples l ->
    (forall d, In (PyDict d) l -> (length d < m)%nat) ->
    (length l + m < fuel)%nat ->
    Json.scan_items fuel acc
      (join (lit ", ") (map (fun v => trocar (repr v)) l) ++ chr "]" :: rest)
    = Ok (rev acc ++ l, rest).
Proof.
  induction l as [|v l IH]; intros fuel acc rest Hne Hall Hm Hfuel;
    [congruence|].
  inversion Hall as [|? ? Hv Hl]; subst.
  destruct v as [| | | | | |d]; try contradiction.
  assert (Hd : (length d < m)%nat) by (apply Hm; left; reflexivity).
  destruct fuel as [|[|k]]; [simpl in Hfuel; lia | simpl in Hfuel; lia |].
  destruct l as [|v' l'].
  - cbn [map join]. rewrite scan_items_S.
    rewrite scan_once_registro by (try exact Hv; simpl in *; lia).
    cbn [bind fst snd Json.skip_ws].
    change (Json.is_ws (chr "]")) with false. cbv iota.
    change (chr "]" =? chr "]")%N with true. cbv iota. reflexivity.
  - change (join (lit ", ")
              (map (fun v => trocar (repr v)) (PyDict d :: v' :: l')))
      with (trocar (repr (PyDict d)) ++ lit ", "
            ++ join (lit ", ") (map (fun v => trocar (repr v)) (v' :: l'))).
    rewrite <- !app_assoc. rewrite scan_items_S.
    rewrite scan_once_registro by (try exact Hv; simpl in *; lia).
    change (lit ", ") with [chr ","; chr " "] at 1.
    cbn [bind fst snd app Json.skip_ws].
    change (Json.is_ws (chr ",")) with false. cbv iota.
    change (chr "," =? chr "]")%N with false.
    change (chr "," =? chr ",")%N with true. cbv iota.
    cbn [Json.skip_ws].
    change (Json.is_ws (chr " ")) with true. cbv iota.
    assert (Hskip : forall t,
      Json.skip_ws
        (join (lit ", ") (map (fun v => trocar (repr v)) (v' :: l')) ++ t)
      = join (lit ", ") (map (fun v => trocar (repr v)) (v' :: l')) ++ t).
    { intros t. inversion Hl as [|? ? Hv' _]; subst.
      destruct v' as [| | | | | |d']; try contradiction.
      cbn [map]. destruct (map (fun v => trocar (repr v)) l');
        [cbn [join] | change (join ?s (?p :: ?q :: ?r))
                        with (p ++ s ++ join s (q :: r));
                      rewrite <- !app_assoc];
        rewrite trocar_repr_dict; reflexivity. }
    rewrite Hskip.
    rewrite IH;
      [| discriminate | exact Hl
       | intros d0 Hd0; apply Hm; right; exact Hd0 | simpl in *; lia].
    cbn [rev]. rewrite <- app_assoc. reflexivity.
Qed.

Lemma join_parte (sep p : str) (l : list str) :
  In p l -> (length p <= length (join sep l))%nat.
Proof.
  induction l as [|q [|q' r] IH]; intros H; [destruct H | |].
  - destruct H as [->|[]]. cbn [join]. lia.
  - change (join sep (q :: q' :: r)) with (q ++ sep ++ join sep (q' :: r)).
    rewrite !length_app. destruct H as [->|H]; [lia|].
    specialize (IH H). lia.
Qed.

Lemma length_trocar (s : str) : length (trocar s) = length s.
Proof. apply length_map. Qed.

Lemma trocar_repr_lista (l : list pyvalue) :
  trocar (repr (PyList l))
  = chr "[" :: join (lit ", ") (map (fun v => trocar (repr v)) l)
    ++ [chr "]"].
Proof.
  cbn [repr]. rewrite !trocar_app, trocar_join, map_map. reflexivity.
Qed.

(** The text of a list of such dictionaries, after the replacement, is
    read by [json.loads] as the list. *)
Lemma loads_registros (l : list pyvalue) :
  Forall registro_simples l ->
  Json.loads (trocar (repr (PyList l))) = Ok (PyList l).
Proof.
  intros Hall. unfold Json.loads.
  remember (trocar (repr (PyList l))) as T eqn:HT.
  rewrite trocar_repr_lista in HT.
  set (itens := join (lit ", ") (map (fun v => trocar (repr v)) l)) in *.
  assert (HlenT : length T = S (S (length itens))).
  { subst T. cbn [length]. rewrite length_app. cbn [length]. lia. }
  assert (Hl : (length l <= length itens)%nat).
  { unfold itens.
    pose proof (join_length (lit ", ") (map (fun v => trocar (repr v)) l))
      as H.
    rewrite length_map in H. apply H.
    intros p Hp. apply in_map_iff in Hp as [v [<- Hv]].
    rewrite Forall_forall in Hall. specialize (Hall v Hv).
    destruct v; try contradiction.
    rewrite trocar_repr_dict. discriminate. }
  assert (Hd : forall d, In (PyDict d) l -> (length d < S (length T))%nat).
  { intros d Hin.
    assert (H1 : (length (trocar (repr (PyDict d))) <= length itens)%nat).
    { apply join_parte. apply in_map_iff. exists (PyDict d). auto. }
    rewrite trocar_repr_dict in H1. cbn [length] in H1.
    rewrite length_app in H1.
    pose proof (join_length (lit ", ") (map membro_trocado d)) as H2.
    rewrite length_map in H2.
    assert (length d <= length (join (lit ", ") (map membro_trocado d)))%nat;
      [|lia].
    apply H2. intros p Hp. apply in_map_iff in Hp as [kv [<- _]].
    unfold membro_trocado, repr_str. rewrite trocar_app. cbn [app].
    unfold trocar at 1, replace. cbn [map]. discriminate. }
  replace (2 * length T + 2)%nat with (S (2 * length T + 1)) by lia.
  assert (Hfuel : (length l + S (length T) < 2 * length T + 1)%nat) by lia.
  revert Hfuel Hd. generalize (S (length T)) as m.
  generalize (2 * length T + 1)%nat as k. intros k m Hfuel Hd.
  subst T. cbn [Json.skip_ws].
  change (Json.is_ws (chr "[")) with false. cbv iota.
  cbn [Json.scan_once].
  change (chr "[" =? dquote)%N with false.
  change (chr "[" =? chr "{")%N with false.
  change (chr "[" =? chr "[")%N with true. cbv iota.
  destruct l as [|v l'].
  - reflexivity.
  - assert (Hhead : exists r, itens ++ [chr "]"] = chr "{" :: r).
    { unfold itens. inversion Hall as [|? ? Hv _]; subst.
      destruct v; try contradiction.
      cbn [map]. destruct (map (fun v => trocar (repr v)) l');
        [cbn [join] | change (join ?s (?p :: ?q :: ?r))
                        with (p ++ s ++ join s (q :: r));
                      rewrite <- !app_assoc];
        rewrite trocar_repr_dict; cbn [app]; eauto. }
    destruct Hhead as [r Hr]. rewrite Hr. cbn [Json.skip_ws].
    change (Json.is_ws (chr "{")) with false. cbv iota.
    change (chr "{" =? chr "]")%N with false. cbv iota.
    rewrite <- Hr. unfold itens.
    rewrite (scan_items_registros (v :: l') m k [] [])
      by (try discriminate; assumption).
    reflexivity.
Qed.

Lemma registros_sao_dicts (l : list pyvalue) :
  Forall registro_simples l -> forallb is_dict l = true.
Proof.
  intros H. apply forallb_forall. intros v Hv.
  rewrite Forall_forall in H. specialize (H v Hv).
  destruct v; try contradiction. reflexivity.
Qed.

Lemma texto_para_lista_repr (l : list pyvalue) :
  Forall registro_simples l -> _texto_para_lista (repr (PyList l)) = Ok l.
Proof.
  intros H. unfold _texto_para_lista.
  change (replace (chr "'") dquote (repr (PyList l)))
    with (trocar (repr (PyList l))).
  rewrite loads_registros by exact H. cbn [bind].
  rewrite registros_sao_dicts by exact H. reflexivity.
Qed.

End Registros.

(** ** The text of such a list holds no surrogate *)

Lemma forallb_join (P : N -> bool) (sep : str) (l : list str) :
  forallb P sep = true -> (forall p, In p l -> forallb P p = true) ->
  forallb P (join sep l) = true.
Proof.
  intros Hsep. induction l as [|p [|q r] IH]; intros H.
  - reflexivity.
  - apply H. left. reflexivity.
  - change (join sep (p :: q :: r)) with (p ++ sep ++ join sep (q :: r)).
    rewrite !forallb_app, Hsep, (H p (or_introl eq_refl)), IH;
      [reflexivity|].
    intros x Hx. apply H. right. exact Hx.
Qed.

Lemma digitos_escalar (d : Decimal.uint) :
  forallb escalar (digitos d) = true.
Proof.
  unfold digitos.
  induction d; cbn [NilEmpty.string_of_uint]; try rewrite lit_String;
    cbn [forallb]; try rewrite IHd; reflexivity.
Qed.

Lemma str_int_escalar (z : Z) : forallb escalar (str_int z) = true.
Proof.
  destruct z as [|p|p]; [reflexivity | |].
  - rewrite str_int_pos. apply digitos_escalar.
  - rewrite str_int_neg. cbn [forallb]. rewrite digitos_escalar. reflexivity.
Qed.

Section Registros_escalares.
Context {E : Externo}.

Lemma texto_simples_escalar (s : str) :
  texto_simples s = true -> forallb escalar s = true.
Proof.
  intros H. apply forallb_forall. intros c Hc.
  unfold texto_simples in H. rewrite forallb_forall in H.
  specialize (H c Hc). apply carater_simples_faixa in H. tauto.
Qed.

Lemma repr_str_escalar (s : str) :
  texto_simples s = true -> forallb escalar (repr_str s) = true.
Proof.
  intros H. destruct (texto_simples_sem_aspas s H) as (H1 & _ & H3).
  unfold repr_str. rewrite H1. cbn [andb]. cbv zeta. rewrite H3.
  rewrite !forallb_app, (texto_simples_escalar s H). reflexivity.
Qed.

Lemma repr_registros_escalar (l : list pyvalue) :
  Forall registro_simples l -> forallb escalar (repr (PyList l)) = true.
Proof.
  intros Hall. cbn [repr]. rewrite !forallb_app.
  rewrite forallb_join; [reflexivity | reflexivity |].
  intros p Hp. apply in_map_iff in Hp as [v [<- Hv]].
  rewrite Forall_forall in Hall. specialize (Hall v Hv).
  destruct v as [| | | | | |d]; try contradiction.
  destruct Hall as [_ Hs]. cbn [repr]. rewrite !forallb_app.
  rewrite forallb_join; [reflexivity | reflexivity |].
  intros q Hq. apply in_map_iff in Hq as [kv [<- Hkv]].
  rewrite forallb_forall in Hs. specialize (Hs kv Hkv).
  apply andb_true_iff in Hs as [Hk Hval].
  rewrite !forallb_app, (repr_str_escalar (fst kv) Hk).
  destruct (snd kv); try discriminate; cbn [repr andb forallb].
  - rewrite str_int_escalar. reflexivity.
  - rewrite (repr_str_escalar s Hval). reflexivity.
Qed.

End Registros_escalares.

(** ** The round trip of such lists *)

(** X14.  For a list of dictionaries of distinct keys whose keys and
    values are strings of printable characters without quotes and
    backslashes, or integers of at most 4300 digits, [_texto_para_lista]
    applied to [str(lista)]
    returns the list: the replacement of the single quotes turns that text
    into the JSON text of the list. *)
Theorem texto_para_lista_registros (E : Externo) (l : list pyvalue) :
  Forall registro_simples l ->
  _texto_para_lista (repr (PyList l)) = Ok l
  /\ Json.loads (replace (chr "'") dquote (repr (PyList l))) = Ok (PyList l).
Proof.
  intros H. split; [apply texto_para_lista_repr, H|].
  apply (loads_registros l H).
Qed.

Lemma texto_para_lista_registros_witness :
  _texto_para_lista (repr (E := Plataforma) (PyList registro_exemplo))
  = Ok registro_exemplo
  /\ Json.loads (replace (chr "'") dquote
                   (repr (E := Plataforma) (PyList registro_exemplo)))
     = Ok (PyList registro_exemplo).
Proof.
  apply (texto_para_lista_registros Plataforma registro_exemplo).
  constructor; [|constructor]. split; [|reflexivity].
  repeat constructor; simpl; intuition discriminate.
Defined.

(** X15.  Such a list comes back as it was.  With a codec that gives the
    serialized table back, the tree is built and the text encoded, and when
    the bits are fewer than 2^32, [compactar_lista] on an empty pipe returns
    [SUCESSO] and [descompactar_lista] on what was written returns
    [SUCESSO] with the list itself, leaving the pipe empty. *)
Theorem registros_ida_e_volta (E : Externo) (l : list pyvalue) :
  Forall registro_simples l -> zlib_fiel E l ->
  exists arvore bits,
    _construir_arvore_huffman (_calcular_frequencias (repr (PyList l)))
    = Ok arvore
    /\ _codificar_lista (repr (PyList l)) (_gerar_codigo_huffman arvore)
       = Ok bits
    /\ (len bits < 2 ^ 32 ->
        exists container,
          compactar_lista l [] = (CODES.SUCESSO, container)
          /\ descompactar_lista container = ((CODES.SUCESSO, Lista l), [])).
Proof.
  intros Hs Hz.
  destruct (lista_pelo_container E l (repr_registros_escalar l Hs) Hz)
    as (arvore & bits & Ha & Hb & Hsmall & _).
  exists arvore, bits. split; [exact Ha|]. split; [exact Hb|].
  intros Hlen. destruct (Hsmall Hlen) as (container & H1 & _ & H3).
  exists container. split; [exact H1|].
  rewrite H3, texto_para_lista_repr by exact Hs. reflexivity.
Qed.

Lemma registros_ida_e_volta_witness :
  exists arvore bits,
    _construir_arvore_huffman
      (_calcular_frequencias
         (repr (E := Plataforma) (PyList registro_exemplo)))
    = Ok arvore
    /\ _codificar_lista (repr (E := Plataforma) (PyList registro_exemplo))
         (_gerar_codigo_huffman arvore)
       = Ok bits
    /\ (len bits < 2 ^ 32 ->
        exists container,
          compactar_lista (E := Plataforma) registro_exemplo []
          = (CODES.SUCESSO, container)
          /\ descompactar_lista (E := Plataforma) container
             = ((CODES.SUCESSO, Lista registro_exemplo), [])).
Proof.
  apply (registros_ida_e_volta Plataforma registro_exemplo).
  - constructor; [|constructor]. split; [|reflexivity].
    repeat constructor; simpl; intuition discriminate.
  - intros json_data H. vm_compute in H. inversion H; subst json_data.
    vm_compute. split; reflexivity.
Defined.

(* ===================================================================== *)
(** * The size of the encoded text, and decoding any bits *)
(* ===================================================================== *)

(** ** The number of bits *)

Definition soma (l : list Z) : Z := fold_right Z.add 0 l.

(** The code of a key of the table; no code counts as the empty code. *)
Definition codigo_da_chave (codigo_huffman : dict str) (k : str) : str :=
  match dict_get codigo_huffman k with
  | Some codigo => codigo
  | None => []
  end.

(** The frequencies weighted by [peso]. *)
Definition ponderada (peso : str -> Z) (frequencias : dict Z) : Z :=
  soma (map (fun sf => snd sf * peso (fst sf)) frequencias).

Lemma ponderada_dict_set (peso : str -> Z) (d : dict Z) (k : str) :
  ponderada peso
    (dict_set k (match dict_get d k with Some n => n | None => 0 end + 1) d)
  = ponderada peso d + peso k.
Proof.
  unfold ponderada, soma.
  induction d as [|[k' v'] r IH]; cbn [dict_set dict_get].
  - cbn [map fold_right fst snd]. lia.
  - destruct (str_eqb k' k) eqn:He.
    + apply str_eqb_eq in He. subst k'. cbn [map fold_right fst snd]. lia.
    + cbn [map fold_right fst snd] in *. rewrite IH. lia.
Qed.

Lemma ponderada_frequencias (peso : str -> Z) (texto : str) (acc : dict Z) :
  ponderada peso
    (fold_left
       (fun frequencias caractere =>
          dict_set [caractere]
            (match dict_get frequencias [caractere] with
             | Some n => n
             | None => 0
             end + 1)
            frequencias) texto acc)
  = ponderada peso acc + soma (map (fun c => peso [c]) texto).
Proof.
  revert acc. induction texto as [|c r IH]; intros acc.
  - cbn [fold_left map soma fold_right]. lia.
  - cbn [fold_left map]. rewrite IH, ponderada_dict_set. cbn [soma fold_right].
    fold (soma (map (fun c0 => peso [c0]) r)). lia.
Qed.

Lemma len_flat_map (g : N -> str) (texto : str) :
  len (flat_map g texto) = soma (map (fun c => len (g c)) texto).
Proof.
  unfold len. induction texto as [|c r IH]; [reflexivity|].
  cbn [flat_map map soma fold_right]. rewrite length_app, Nat2Z.inj_add.
  fold (soma (map (fun c0 => Z.of_nat (length (g c0))) r)). lia.
Qed.

(** X16.  The number of bits [_codificar_lista] returns is the sum, over
    the entries of the frequency table of the text, of the frequency times
    the length of the code of the character. *)
Theorem comprimento_codificado (texto bits : str) (codigo_huffman : dict str) :
  _codificar_lista texto codigo_huffman = Ok bits ->
  len bits
  = soma (map (fun sf => snd sf * len (codigo_da_chave codigo_huffman (fst sf)))
            (_calcular_frequencias texto)).
Proof.
  intros H. unfold _codificar_lista in H. rewrite codificar_desde_spec in H.
  destruct (forallb _ texto); [|discriminate].
  inversion H; subst bits. cbn [app]. rewrite len_flat_map.
  pose proof (ponderada_frequencias
                (fun k => len (codigo_da_chave codigo_huffman k)) texto [])
    as Hp.
  unfold ponderada in Hp. unfold _calcular_frequencias. rewrite Hp.
  reflexivity.
Qed.

Lemma comprimento_codificado_witness :
  len (lit "0100110")
  = soma (map (fun sf =>
                 snd sf
                 * len (codigo_da_chave
                          [(lit "a", lit "0"); (lit "b", lit "10");
                           (lit "c", lit "11")] (fst sf)))
            (_calcular_frequencias (lit "abaca"))).
Proof.
  apply (comprimento_codificado (lit "abaca") (lit "0100110")
           [(lit "a", lit "0"); (lit "b", lit "10"); (lit "c", lit "11")]).
  reflexivity.
Defined.

(** ** Decoding any bits *)

Lemma invertido_In (codigo : dict str) (acc : dict str) (c s : str) :
  dict_get (fold_left (fun inv sc => dict_set (snd sc) (fst sc) inv) codigo acc)
    c = Some s ->
  In (s, c) codigo \/ dict_get acc c = Some s.
Proof.
  revert acc. induction codigo as [|[s0 c0] r IH]; intros acc H.
  - right. exact H.
  - cbn [fold_left fst snd] in H. apply IH in H as [H|H].
    + left. right. exact H.
    + rewrite dict_get_set in H. destruct (str_eqb c0 c) eqn:He.
      * apply str_eqb_eq in He. subst c0. inversion H; subst s0.
        left. left. reflexivity.
      * right. exact H.
Qed.

Section Qualquer_bits.

Variable codigo_huffman : dict str.
Hypothesis chaves_distintas : NoDup (map fst codigo_huffman).
Hypothesis chaves_de_um_caractere :
  forall k, In k (map fst codigo_huffman) -> exists c, k = [c].

(** What the loop has decoded encodes to the bits it has consumed. *)
Lemma decodificar_desde_consumidos (bits atual texto : str) :
  exists t,
    snd (decodificar_desde (codigo_invertido codigo_huffman) atual texto bits)
    = texto ++ t
    /\ forallb (fun c => dict_in [c] codigo_huffman) t = true
    /\ flat_map (codigo_de codigo_huffman) t
       ++ fst (decodificar_desde (codigo_invertido codigo_huffman)
                 atual texto bits)
       = atual ++ bits.
Proof.
  revert atual texto. induction bits as [|b r IH]; intros atual texto.
  - exists []. cbn. rewrite !app_nil_r. auto.
  - cbn [decodificar_desde].
    destruct (dict_get (codigo_invertido codigo_huffman) (atual ++ [b]))
      as [s|] eqn:Hg.
    + destruct (IH [] (texto ++ s)) as (t & H1 & H2 & H3).
      apply invertido_In in Hg as [Hin|Hg]; [|discriminate].
      destruct (chaves_de_um_caractere s) as [c ->];
        [apply (in_map fst) in Hin; exact Hin|].
      pose proof (In_dict_get _ _ _ chaves_distintas Hin) as Hc.
      exists (c :: t). split; [|split].
      * rewrite H1, <- app_assoc. reflexivity.
      * cbn [forallb]. unfold dict_in at 1. rewrite Hc, H2. reflexivity.
      * cbn [flat_map]. unfold codigo_de at 1. rewrite Hc.
        rewrite <- !app_assoc, H3. reflexivity.
    + destruct (IH (atual ++ [b]) texto) as (t & H1 & H2 & H3).
      exists t. split; [exact H1|]. split; [exact H2|].
      rewrite H3, <- app_assoc. reflexivity.
Qed.

End Qualquer_bits.

(** X17.  Decoding invents nothing.  With a table of distinct
    one-character symbols, whatever the bits: the text that
    [_decodificar_texto] returns is encoded by [_codificar_lista] into the
    bits that were given, less the bits left pending at the end. *)
Theorem decodificar_codificar (codigo_huffman : dict str) (bits : str) :
  NoDup (map fst codigo_huffman) ->
  (forall k, In k (map fst codigo_huffman) -> exists c, k = [c]) ->
  exists texto consumidos,
    _decodificar_texto bits (tabela_lida codigo_huffman) = Ok texto
    /\ _codificar_lista texto codigo_huffman = Ok consumidos
    /\ bits = consumidos ++ pendente codigo_huffman bits.
Proof.
  intros Hnd Hum.
  destruct (decodificar_desde_consumidos codigo_huffman Hnd Hum bits [] [])
    as (t & H1 & H2 & H3).
  exists t, (flat_map (codigo_de codigo_huffman) t).
  split; [|split].
  - rewrite decodificar_tabela_lida, H1. reflexivity.
  - unfold _codificar_lista. rewrite codificar_desde_spec, H2. reflexivity.
  - unfold pendente. rewrite H3. reflexivity.
Qed.

Lemma decodificar_codificar_witness :
  exists texto consumidos,
    _decodificar_texto (lit "0101")
      (tabela_lida [(lit "a", lit "0"); (lit "b", lit "10")]) = Ok texto
    /\ _codificar_lista texto [(lit "a", lit "0"); (lit "b", lit "10")]
       = Ok consumidos
    /\ lit "0101"
       = consumidos
         ++ pendente [(lit "a", lit "0"); (lit "b", lit "10")] (lit "0101").
Proof.
  apply (decodificar_codificar [(lit "a", lit "0"); (lit "b", lit "10")]
           (lit "0101")).
  - repeat constructor; simpl; intuition discriminate.
  - intros k [<-|[<-|[]]]; eexists; reflexivity.
Defined.

(** ** What the two public functions hand back *)

Lemma texto_para_lista_dicts (texto : str) (l : list pyvalue) :
  _texto_para_lista texto = Ok l -> forallb is_dict l = true.
Proof.
  unfold _texto_para_lista, reraise.
  destruct (Json.loads _) as [v|e]; cbn [bind].
  - destruct v; try discriminate.
    destruct (forallb is_dict l0) eqn:Hd; [|discriminate].
    intros H. inversion H; subst. exact Hd.
  - destruct (isinstance_JSONDecodeError e); discriminate.
Qed.

(** X18.  Whenever [descompactar_lista] returns [SUCESSO], what it
    returns beside the code is a list whose items are all dictionaries,
    whatever the file holds and whatever the platform. *)
Theorem descompactar_lista_sucesso (E : Externo) (F : Type)
    (FL : FileLike F) (arquivo : F) (l : list pyvalue) :
  fst (descompactar_lista arquivo) = (CODES.SUCESSO, Lista l) ->
  forallb is_dict l = true.
Proof.
  unfold descompactar_lista, descompactar_corpo, io_bind, io_lift.
  destruct (_ler_binario arquivo) as [[[t c]|e] arq']; cbn [fst snd].
  - destruct (_decodificar_texto t c) as [d|e]; cbn [descompactar_retorno fst].
    + pose proof (texto_para_lista_dicts d) as H.
      destruct (_texto_para_lista d) as [itens|e];
        cbn [descompactar_retorno fst].
      * intros Heq. inversion Heq; subst. apply H. reflexivity.
      * destruct (isinstance_OSError e), (isinstance_ValueError e);
          discriminate.
    + destruct (isinstance_OSError e), (isinstance_ValueError e);
        discriminate.
  - cbn [descompactar_retorno fst].
    destruct (isinstance_OSError e), (isinstance_ValueError e); discriminate.
Qed.

Lemma descompactar_lista_sucesso_witness :
  forallb is_dict registro_exemplo = true.
Proof.
  apply (descompactar_lista_sucesso Plataforma bytes Pipe
           (snd (compactar_lista (E := Plataforma) registro_exemplo []))).
  vm_compute. reflexivity.
Defined.

(** ** The layout of the container *)

(** X19.  The container that [_escrever_binario] appends to an
    in-memory file, for a non-empty text of binary digits: four bytes with
    the number of digits, least significant first; the digits as one
    number, most significant byte first, in as many bytes as cover them;
    four bytes with the length of the compressed table; the compressed
    table, which is the [zlib] of the ASCII bytes of [json.dumps] of the
    table.  Its length is 8 plus the two variable parts. *)
Theorem escrever_binario_formato (E : Externo) (texto : str)
    (codigo_huffman : dict str) (arquivo : bytes) :
  texto <> [] -> binario texto = true -> len texto < 2 ^ 32 ->
  (forall json_data,
      Utf8.encode (Json.dumps codigo_huffman) = Ok json_data ->
      len (zlib_compress json_data) < 2 ^ 32) ->
  exists (v : Z) (valor json_data : bytes),
    int_base2 texto = Ok v
    /\ len valor = (len texto + 7) / 8
    /\ from_bytes valor big = v
    /\ json_data
       = map (fun c => byte_of_Z (Z.of_N c)) (Json.dumps codigo_huffman)
    /\ _escrever_binario texto codigo_huffman arquivo
       = (Ok tt,
          arquivo ++ bytes_little 4 (len texto) ++ valor
          ++ bytes_little 4 (len (zlib_compress json_data))
          ++ zlib_compress json_data)
    /\ len (snd (_escrever_binario texto codigo_huffman arquivo))
       = len arquivo + 8 + (len texto + 7) / 8
         + len (zlib_compress json_data).
Proof.
  intros Hne Hb Hlen Hz.
  destruct (pack_unpack_lema texto Hne Hb)
    as (v & valor & Hv & Hp & Hsize & Hval & _).
  pose proof (encode_ascii7 _ (dumps_ascii7 codigo_huffman)) as Hj.
  specialize (Hz _ Hj).
  exists v, valor, (map (fun c => byte_of_Z (Z.of_N c))
                      (Json.dumps codigo_huffman)).
  split; [exact Hv|]. split; [exact Hsize|]. split; [exact Hval|].
  split; [reflexivity|].
  rewrite (escrever_binario_campos texto codigo_huffman valor _ arquivo
             Hlen Hp Hj Hz).
  split; [reflexivity|].
  cbn [snd]. unfold len in *. rewrite !length_app, !length_bytes_little.
  lia.
Qed.

Lemma escrever_binario_formato_witness :
  exists (v : Z) (valor json_data : bytes),
    int_base2 (lit "0110") = Ok v
    /\ len valor = (len (lit "0110") + 7) / 8
    /\ from_bytes valor big = v
    /\ json_data
       = map (fun c => byte_of_Z (Z.of_N c))
           (Json.dumps [(lit "a", lit "0"); (lit "b", lit "1")])
    /\ _escrever_binario (E := Plataforma) (lit "0110")
         [(lit "a", lit "0"); (lit "b", lit "1")] []
       = (Ok tt,
          [] ++ bytes_little 4 (len (lit "0110")) ++ valor
          ++ bytes_little 4 (len (zlib_compress (Externo := Plataforma)
                                    json_data))
          ++ zlib_compress (Externo := Plataforma) json_data)
    /\ len (snd (_escrever_binario (E := Plataforma) (lit "0110")
                   [(lit "a", lit "0"); (lit "b", lit "1")] []))
       = len (@nil Byte.byte) + 8 + (len (lit "0110") + 7) / 8
         + len (zlib_compress (Externo := Plataforma) json_data).
Proof.
  apply (escrever_binario_formato Plataforma (lit "0110")
           [(lit "a", lit "0"); (lit "b", lit "1")] []).
  - discriminate.
  - reflexivity.
  - vm_compute. reflexivity.
  - intros json_data H. vm_compute in H. inversion H; subst json_data.
    vm_compute. reflexivity.
Defined.

(** ** One container after another *)

Section Em_sequencia.
Context {E : Externo}.

(** Reading a container leaves what follows it in the pipe. *)
Lemma ler_binario_seguido (tamanho tlen : Z) (valor blob resto : bytes) :
  0 <= tamanho < 2 ^ 32 -> len valor = (tamanho + 7) / 8 ->
  0 <= tlen < 2 ^ 32 -> len blob = tlen ->
  _ler_binario
    (bytes_little 4 tamanho ++ valor ++ bytes_little 4 tlen ++ blob ++ resto)
  = (ler_except
       (bind (bind (zlib_decompress blob) Utf8.decode) (fun json_data =>
        bind (Json.loads json_data) (fun codigo_huffman =>
        Ok (unpack valor tamanho, codigo_huffman)))),
     resto).
Proof.
  intros Ht Hv Hl Hb. unfold _ler_binario, io_bind.
  rewrite (ler_exato 4 (bytes_little 4 tamanho))
    by (unfold len; rewrite length_bytes_little; reflexivity).
  rewrite from_bytes_little_4 by exact Ht.
  rewrite (ler_exato ((tamanho + 7) / 8) valor) by exact Hv.
  rewrite (ler_exato 4 (bytes_little 4 tlen))
    by (unfold len; rewrite length_bytes_little; reflexivity).
  rewrite from_bytes_little_4 by exact Hl.
  rewrite (ler_exato tlen blob) by exact Hb.
  unfold io_lift, io_ret.
  destruct (zlib_decompress blob) as [d|e]; [|reflexivity].
  cbn [bind]. destruct (Utf8.decode d) as [j|e]; [|reflexivity].
  cbn [bind]. destruct (Json.loads j) as [c|e]; reflexivity.
Qed.

(** What [compactar_lista] writes for a list is read from the front of
    any pipe that starts with it. *)
Lemma descompactar_seguido (l : list pyvalue) (container : bytes) :
  forallb escalar (repr (PyList l)) = true -> zlib_fiel E l ->
  compactar_lista l [] = (CODES.SUCESSO, container) ->
  forall resto,
    descompactar_lista (container ++ resto)
    = descompactar_retorno (_texto_para_lista (repr (PyList l)), resto).
Proof.
  intros Hesc Hz Hc resto.
  destruct (repr_lista_colchetes l) as [Ha Hb].
  destruct (texto_ida_e_volta (repr (PyList l)) (chr "[") (chr "]") Ha Hb
              ltac:(discriminate))
    as (arvore & bits & Harv & Hcod & Hne & Hbin & Hdec).
  destruct (codigo_huffman_ok (repr (PyList l))
              (chr "[") (chr "]") Ha Hb ltac:(discriminate))
    as (arvore' & Harv' & Hnd & Hk & _ & Hbits).
  assert (arvore' = arvore) as -> by congruence. clear Harv'.
  destruct (Z.lt_ge_cases (len bits) (2 ^ 32)) as [Hlen|Hlen].
  2:{ exfalso. revert Hc.
      unfold compactar_lista, compactar_corpo, io_bind, io_lift.
      rewrite Harv, Hcod, escrever_binario_grande by exact Hlen.
      discriminate. }
  assert (Htab : tabela_escalar (_gerar_codigo_huffman arvore) = true).
  { apply forallb_forall. intros kv Hkv. apply andb_true_iff. split.
    - assert (Hin : In (fst kv) (map fst (_gerar_codigo_huffman arvore)))
        by (apply in_map, Hkv).
      apply Hk in Hin as (c & Hc' & ->).
      cbn [forallb]. rewrite andb_true_r.
      rewrite forallb_forall in Hesc. apply Hesc, Hc'.
    - apply binario_escalar. apply (Hbits kv Hkv). }
  destruct (tabela_ida_e_volta _ Hnd Htab) as (json_data & Hj & Hl).
  destruct (Hz json_data) as [Hz1 Hz2].
  { unfold tabela_json. rewrite Harv. exact Hj. }
  destruct (pack_unpack_lema bits Hne Hbin)
    as (v & valor & _ & Hp & Hsize & _ & Hun).
  assert (Hcont : container
                  = bytes_little 4 (len bits) ++ valor
                    ++ bytes_little 4 (len (zlib_compress json_data))
                    ++ zlib_compress json_data).
  { revert Hc.
    unfold compactar_lista, compactar_corpo, io_bind, io_lift.
    rewrite Harv, Hcod.
    rewrite (escrever_binario_campos bits _ valor json_data [])
      by assumption.
    cbn [compactar_retorno app]. intros H. inversion H. reflexivity. }
  subst container. rewrite <- !app_assoc.
  unfold descompactar_lista, descompactar_corpo, io_bind, io_lift.
  rewrite ler_binario_seguido;
    [| unfold len in *; lia | exact Hsize | unfold len in *; lia
     | reflexivity].
  rewrite Hz1, Hun. cbn [bind].
  destruct (Utf8.decode json_data) as [json_text|e]; cbn [bind] in *;
    [|discriminate].
  rewrite Hl. cbn [bind ler_except fst snd]. rewrite Hdec. reflexivity.
Qed.

End Em_sequencia.

(** X20.  Containers can be written one after the other and are read in
    the order they were written.  When [compactar_lista] returns [SUCESSO]
    for a list (inside the limits of the interpreter, whose text has no
    surrogate, with a codec that gives the table back) and appends
    [container], the same call on a file that
    already holds bytes appends the same container after them, and
    [descompactar_lista] on a file that starts with the container returns
    what [_texto_para_lista] makes of [str(lista)] and leaves in the file
    exactly the bytes that follow the container. *)
Theorem containers_em_sequencia (E : Externo) (l : list pyvalue)
    (container antes resto : bytes) :
  lista_nos_limites l = true ->
  forallb escalar (repr (PyList l)) = true -> zlib_fiel E l ->
  compactar_lista l [] = (CODES.SUCESSO, container) ->
  compactar_lista l antes = (CODES.SUCESSO, antes ++ container)
  /\ descompactar_lista (container ++ resto)
     = descompactar_retorno (_texto_para_lista (repr (PyList l)), resto).
Proof.
  intros _ Hesc Hz Hc. split.
  - revert Hc. unfold compactar_lista.
    rewrite (anexa_compactar l antes).
    destruct (compactar_corpo (F := bytes) l []) as [[u|e] w];
      cbn [compactar_retorno fst snd].
    + intros H. inversion H. reflexivity.
    + destruct (isinstance_OSError e), (isinstance_ValueError e);
        discriminate.
  - apply descompactar_seguido; assumption.
Qed.

Lemma containers_em_sequencia_witness :
  compactar_lista (E := Plataforma) registro_exemplo
    (snd (compactar_lista (E := Plataforma) [] []))
  = (CODES.SUCESSO,
     snd (compactar_lista (E := Plataforma) [] [])
     ++ snd (compactar_lista (E := Plataforma) registro_exemplo []))
  /\ descompactar_lista (E := Plataforma)
       (snd (compactar_lista (E := Plataforma) registro_exemplo [])
        ++ snd (compactar_lista (E := Plataforma) [] []))
     = descompactar_retorno
         (_texto_para_lista
            (repr (E := Plataforma) (PyList registro_exemplo)),
          snd (compactar_lista (E := Plataforma) [] [])).
Proof.
  apply (containers_em_sequencia Plataforma registro_exemplo).
  - vm_compute. reflexivity.
  - vm_compute. reflexivity.
  - intros json_data H. vm_compute in H. inversion H; subst json_data.
    vm_compute. split; reflexivity.
  - vm_compute. reflexivity.
Defined.

(* ===================================================================== *)
(** * A list that comes back as another list *)
(* ===================================================================== *)

Section Aspas.
Context {E : Externo}.

(** A string value that holds the text of the end of a value, a comma and
    the start of another member: [v1', 'k2': 'v2]. *)
Definition valor_com_aspas (v1 k2 v2 : str) : str :=
  v1 ++ lit "', '" ++ k2 ++ lit "': '" ++ v2.

Lemma repr_char_aspas (c : N) :
  carater_simples c = true -> repr_char dquote c = [c].
Proof.
  intros H. apply carater_simples_faixa in H as (H1 & H2 & H3 & _ & H4).
  unfold repr_char. cbv zeta.
  destruct (N.eqb_spec c dquote); [contradiction|].
  destruct (N.eqb_spec c (chr "\")); [contradiction|]. cbn [orb].
  revert H1 H2 H3 n n0. numerais. intros.
  destruct H4 as [[Ha Hb]|[Ha Hb]].
  - testes; reflexivity.
  - testes; rewrite ?Hb; reflexivity.
Qed.

Lemma flat_map_repr_char_aspas (s : str) :
  texto_simples s = true -> flat_map (repr_char dquote) s = s.
Proof.
  induction s as [|c s IH]; intros H; [reflexivity|].
  cbn [texto_simples forallb] in H. apply andb_true_iff in H as [Hc Hs].
  cbn [flat_map]. rewrite repr_char_aspas, IH by assumption. reflexivity.
Qed.

Lemma texto_simples_sem_aspas_duplas (s : str) :
  texto_simples s = true -> existsb (N.eqb dquote) s = false.
Proof.
  induction s as [|c s IH]; intros H; [reflexivity|].
  cbn [texto_simples forallb] in H. apply andb_true_iff in H as [Hc Hs].
  apply carater_simples_faixa in Hc as (_ & H2 & _).
  cbn [existsb]. rewrite IH by exact Hs.
  destruct (N.eqb_spec dquote c); [congruence | reflexivity].
Qed.

(** [repr] writes such a value between double quotes, and the replacement
    turns its single quotes into double quotes too. *)
Lemma trocar_repr_valor_com_aspas (v1 k2 v2 : str) :
  texto_simples v1 = true -> texto_simples k2 = true ->
  texto_simples v2 = true ->
  trocar (repr_str (valor_com_aspas v1 k2 v2))
  = dquote :: v1 ++ dquote :: chr "," :: chr " " :: dquote :: k2
    ++ dquote :: chr ":" :: chr " " :: dquote :: v2 ++ [dquote].
Proof.
  intros H1 H2 H3. unfold repr_str, valor_com_aspas.
  assert (Hs : existsb (N.eqb (chr "'"))
                 (v1 ++ lit "', '" ++ k2 ++ lit "': '" ++ v2) = true).
  { rewrite existsb_app. apply orb_true_iff. right. reflexivity. }
  assert (Hd : existsb (N.eqb dquote)
                 (v1 ++ lit "', '" ++ k2 ++ lit "': '" ++ v2) = false).
  { rewrite !existsb_app.
    rewrite (texto_simples_sem_aspas_duplas v1 H1),
      (texto_simples_sem_aspas_duplas k2 H2),
      (texto_simples_sem_aspas_duplas v2 H3).
    reflexivity. }
  rewrite Hs, Hd. cbn [negb andb]. cbv zeta.
  rewrite !flat_map_app.
  rewrite (flat_map_repr_char_aspas v1 H1), (flat_map_repr_char_aspas k2 H2),
    (flat_map_repr_char_aspas v2 H3).
  change (flat_map (repr_char dquote) (lit "', '")) with (lit "', '").
  change (flat_map (repr_char dquote) (lit "': '")) with (lit "': '").
  rewrite !trocar_app.
  destruct (texto_simples_sem_aspas v1 H1) as (_ & -> & _).
  destruct (texto_simples_sem_aspas k2 H2) as (_ & -> & _).
  destruct (texto_simples_sem_aspas v2 H3) as (_ & -> & _).
  change (trocar [dquote]) with [dquote].
  change (trocar (lit "', '")) with [dquote; chr ","; chr " "; dquote].
  change (trocar (lit "': '")) with [dquote; chr ":"; chr " "; dquote].
  repeat (progress (rewrite <- ?app_assoc; cbn [app])). reflexivity.
Qed.

(** After the replacement, the text of the list with the one member is the
    text of the list with the two members. *)
Lemma trocar_repr_aspas (k1 v1 k2 v2 : str) :
  texto_simples k1 = true -> texto_simples v1 = true ->
  texto_simples k2 = true -> texto_simples v2 = true ->
  trocar (repr (PyList [PyDict [(k1, PyStr (valor_com_aspas v1 k2 v2))]]))
  = trocar (repr (PyList [PyDict [(k1, PyStr v1); (k2, PyStr v2)]])).
Proof.
  intros Hk1 Hv1 Hk2 Hv2.
  rewrite !trocar_repr_lista. cbn [map join].
  rewrite !trocar_repr_dict. cbn [map join].
  unfold membro_trocado. cbn [fst snd repr].
  rewrite !trocar_app.
  rewrite trocar_repr_valor_com_aspas by assumption.
  rewrite (trocar_repr_str k1 Hk1), (trocar_repr_str v1 Hv1),
    (trocar_repr_str k2 Hk2), (trocar_repr_str v2 Hv2).
  change (trocar (lit ": ")) with [chr ":"; chr " "].
  change (lit ", ") with [chr ","; chr " "].
  repeat (progress (rewrite <- ?app_assoc; cbn [app])). reflexivity.
Qed.

Lemma texto_para_lista_aspas (k1 v1 k2 v2 : str) :
  texto_simples k1 = true -> texto_simples v1 = true ->
  texto_simples k2 = true -> texto_simples v2 = true -> k1 <> k2 ->
  _texto_para_lista
    (repr (PyList [PyDict [(k1, PyStr (valor_com_aspas v1 k2 v2))]]))
  = Ok [PyDict [(k1, PyStr v1); (k2, PyStr v2)]].
Proof.
  intros Hk1 Hv1 Hk2 Hv2 Hne.
  assert (Hgood : Forall registro_simples
                    [PyDict [(k1, PyStr v1); (k2, PyStr v2)]]).
  { constructor; [|constructor]. split.
    - cbn [map fst]. constructor; [|constructor; [|constructor]].
      + intros [H|[]]. congruence.
      + intros [].
    - cbn [forallb fst snd valor_simples]. rewrite Hk1, Hv1, Hk2, Hv2.
      reflexivity. }
  rewrite <- (texto_para_lista_repr _ Hgood).
  unfold _texto_para_lista.
  change (replace (chr "'") dquote ?s) with (trocar s).
  rewrite trocar_repr_aspas by assumption. reflexivity.
Qed.

Lemma repr_str_valor_com_aspas (v1 k2 v2 : str) :
  texto_simples v1 = true -> texto_simples k2 = true ->
  texto_simples v2 = true ->
  repr_str (valor_com_aspas v1 k2 v2)
  = dquote :: valor_com_aspas v1 k2 v2 ++ [dquote].
Proof.
  intros H1 H2 H3. unfold repr_str, valor_com_aspas.
  assert (Hs : existsb (N.eqb (chr "'"))
                 (v1 ++ lit "', '" ++ k2 ++ lit "': '" ++ v2) = true).
  { rewrite existsb_app. apply orb_true_iff. right. reflexivity. }
  assert (Hd : existsb (N.eqb dquote)
                 (v1 ++ lit "', '" ++ k2 ++ lit "': '" ++ v2) = false).
  { rewrite !existsb_app.
    rewrite (texto_simples_sem_aspas_duplas v1 H1),
      (texto_simples_sem_aspas_duplas k2 H2),
      (texto_simples_sem_aspas_duplas v2 H3).
    reflexivity. }
  rewrite Hs, Hd. cbn [negb andb]. cbv zeta.
  rewrite !flat_map_app.
  rewrite (flat_map_repr_char_aspas v1 H1), (flat_map_repr_char_aspas k2 H2),
    (flat_map_repr_char_aspas v2 H3).
  reflexivity.
Qed.

(** The list of one dictionary with the one member, and the list that
    comes back for it. *)
Definition lista_com_aspas (k1 v1 k2 v2 : str) : list pyvalue :=
  [PyDict [(k1, PyStr (valor_com_aspas v1 k2 v2))]].

Definition lista_partida (k1 v1 k2 v2 : str) : list pyvalue :=
  [PyDict [(k1, PyStr v1); (k2, PyStr v2)]].

Lemma repr_lista_com_aspas_escalar (k1 v1 k2 v2 : str) :
  texto_simples k1 = true -> texto_simples v1 = true ->
  texto_simples k2 = true -> texto_simples v2 = true ->
  forallb escalar (repr (PyList (lista_com_aspas k1 v1 k2 v2))) = true.
Proof.
  intros Hk1 Hv1 Hk2 Hv2. unfold lista_com_aspas.
  cbn [repr map join fst snd].
  rewrite repr_str_valor_com_aspas by assumption. unfold valor_com_aspas.
  cbn [app]. rewrite !forallb_app. cbn [forallb].
  rewrite !forallb_app.
  rewrite (repr_str_escalar k1 Hk1), (texto_simples_escalar v1 Hv1),
    (texto_simples_escalar k2 Hk2), (texto_simples_escalar v2 Hv2).
  reflexivity.
Qed.

End Aspas.

(** X21.  [SUCESSO] does not mean the same list.  A string value that
    holds a single quote is written by [str] between double quotes, and the
    replacement of [_texto_para_lista] turns the quotes inside it into
    delimiters: for keys [k1], [k2] and strings [v1], [v2] of printable
    characters without quotes and backslashes, the list with the one
    dictionary [{k1: v1 + "', '" + k2 + "': '" + v2}] is compacted with
    [SUCESSO] and decompacted with [SUCESSO] as the list with the
    dictionary of two members [{k1: v1, k2: v2}], another list. *)
Theorem aspas_mudam_a_lista (E : Externo) (k1 v1 k2 v2 : str) :
  texto_simples k1 = true -> texto_simples v1 = true ->
  texto_simples k2 = true -> texto_simples v2 = true -> k1 <> k2 ->
  _texto_para_lista (repr (PyList (lista_com_aspas k1 v1 k2 v2)))
  = Ok (lista_partida k1 v1 k2 v2)
  /\ lista_com_aspas k1 v1 k2 v2 <> lista_partida k1 v1 k2 v2
  /\ (zlib_fiel E (lista_com_aspas k1 v1 k2 v2) ->
      exists arvore bits,
        _construir_arvore_huffman
          (_calcular_frequencias
             (repr (PyList (lista_com_aspas k1 v1 k2 v2))))
        = Ok arvore
        /\ _codificar_lista (repr (PyList (lista_com_aspas k1 v1 k2 v2)))
             (_gerar_codigo_huffman arvore)
           = Ok bits
        /\ (len bits < 2 ^ 32 ->
            exists container,
              compactar_lista (lista_com_aspas k1 v1 k2 v2) []
              = (CODES.SUCESSO, container)
              /\ descompactar_lista container
                 = ((CODES.SUCESSO, Lista (lista_partida k1 v1 k2 v2)), []))).
Proof.
  intros Hk1 Hv1 Hk2 Hv2 Hne.
  pose proof (texto_para_lista_aspas k1 v1 k2 v2 Hk1 Hv1 Hk2 Hv2 Hne) as Ht.
  split; [exact Ht|]. split; [unfold lista_com_aspas, lista_partida;
                              intros H; inversion H|].
  intros Hz.
  destruct (lista_pelo_container E _
              (repr_lista_com_aspas_escalar k1 v1 k2 v2 Hk1 Hv1 Hk2 Hv2) Hz)
    as (arvore & bits & Ha & Hb & Hsmall & _).
  exists arvore, bits. split; [exact Ha|]. split; [exact Hb|].
  intros Hlen. destruct (Hsmall Hlen) as (container & H1 & _ & H3).
  exists container. split; [exact H1|].
  rewrite H3. unfold lista_com_aspas in Ht |- *. rewrite Ht. reflexivity.
Qed.

Lemma aspas_mudam_a_lista_witness :
  _texto_para_lista
    (repr (E := Plataforma)
       (PyList (lista_com_aspas (lit "a") (lit "x") (lit "b") (lit "y"))))
  = Ok (lista_partida (lit "a") (lit "x") (lit "b") (lit "y"))
  /\ lista_com_aspas (lit "a") (lit "x") (lit "b") (lit "y")
     <> lista_partida (lit "a") (lit "x") (lit "b") (lit "y")
  /\ (zlib_fiel Plataforma
        (lista_com_aspas (lit "a") (lit "x") (lit "b") (lit "y")) ->
      exists arvore bits,
        _construir_arvore_huffman
          (_calcular_frequencias
             (repr (E := Plataforma)
                (PyList (lista_com_aspas (lit "a") (lit "x") (lit "b")
                           (lit "y")))))
        = Ok arvore
        /\ _codificar_lista
             (repr (E := Plataforma)
                (PyList (lista_com_aspas (lit "a") (lit "x") (lit "b")
                           (lit "y"))))
             (_gerar_codigo_huffman arvore)
           = Ok bits
        /\ (len bits < 2 ^ 32 ->
            exists container,
              compactar_lista (E := Plataforma)
                (lista_com_aspas (lit "a") (lit "x") (lit "b") (lit "y")) []
              = (CODES.SUCESSO, container)
              /\ descompactar_lista (E := Plataforma) container
                 = ((CODES.SUCESSO,
                     Lista (lista_partida (lit "a") (lit "x") (lit "b")
                              (lit "y"))), []))).
Proof.
  apply (aspas_mudam_a_lista Plataforma (lit "a") (lit "x") (lit "b")
           (lit "y")); try reflexivity.
  discriminate.
Defined.

(* ===================================================================== *)
(** * The lengths of the codes *)
(* ===================================================================== *)

(** What holds of the first entries and is kept by the merge holds of the
    entries the loop ends with. *)
Lemma huffman_loop_Forall (P : entrada -> Prop) :
  (forall lo hi, P lo -> P hi -> P (fundir lo hi)) ->
  forall (fuel : nat) (heap : list entrada),
    Forall P heap -> Forall P (huffman_loop fuel heap).
Proof.
  intros Hf. induction fuel as [|k IH]; intros heap H; [exact H|].
  cbn [huffman_loop]. destruct (1 <? length heap)%nat; [|exact H].
  pose proof (sort_perm entrada_ltb heap) as Hs.
  assert (H' : Forall P (Py.sort entrada_ltb heap))
    by (eapply Permutation_Forall; [apply Permutation_sym, Hs | exact H]).
  destruct (Py.sort entrada_ltb heap) as [|lo [|hi resto]];
    try exact H.
  inversion H' as [|? ? Hlo H'']; subst.
  inversion H'' as [|? ? Hhi Hresto]; subst.
  apply IH. apply Forall_app. split; [exact Hresto|].
  constructor; [|constructor]. apply Hf; assumption.
Qed.

(** What holds of the one entry the loop ends with holds of the tree. *)
Lemma construir_arvore_raiz (P : entrada -> Prop)
    (frequencias : dict Z) (arvore : list par) :
  (forall lo hi, P lo -> P hi -> P (fundir lo hi)) ->
  (forall sf, In sf frequencias -> P (snd sf, [(fst sf, @nil N)])) ->
  _construir_arvore_huffman frequencias = Ok arvore ->
  exists raiz,
    P raiz /\ Permutation arvore (snd raiz)
    /\ length (snd raiz) = length frequencias.
Proof.
  intros Hf H0. unfold _construir_arvore_huffman. cbv zeta.
  set (heap := map (fun sf => (snd sf, [(fst sf, @nil N)])) frequencias).
  assert (Hinit : Forall P heap).
  { apply Forall_forall. intros e He. unfold heap in He.
    apply in_map_iff in He as [sf [<- Hsf]]. apply H0, Hsf. }
  pose proof (huffman_loop_Forall P Hf (length heap) heap Hinit) as Hfim.
  pose proof (huffman_loop_simbolos (length heap) heap) as Hsym.
  assert (Hsimb : map fst (pares heap) = map fst frequencias).
  { unfold heap. rewrite pares_heap_inicial, map_map. reflexivity. }
  rewrite Hsimb in Hsym.
  destruct (huffman_loop (length heap) heap) as [|raiz [|e r]] eqn:Hloop;
    [discriminate | |].
  - intros H. inversion H; subst arvore. exists raiz.
    inversion Hfim; subst. split; [assumption|].
    split; [apply sort_perm|].
    apply Permutation_length in Hsym. unfold pares in Hsym.
    cbn [flat_map] in Hsym. rewrite app_nil_r, !length_map in Hsym.
    exact Hsym.
  - exfalso.
    assert (Ht : (length (raiz :: e :: r) <= 1)%nat)
      by (rewrite <- Hloop; apply huffman_loop_termina).
    simpl in Ht. lia.
Qed.

(** ** No code is as long as the table *)

(** An entry with leaves, whose codes are shorter than the number of its
    leaves. *)
Definition codigos_curtos (e : entrada) : Prop :=
  snd e <> []
  /\ forall p, In p (snd e) -> (length (snd p) < length (snd e))%nat.

Lemma fundir_codigos_curtos (lo hi : entrada) :
  codigos_curtos lo -> codigos_curtos hi -> codigos_curtos (fundir lo hi).
Proof.
  intros [Hl0 Hl] [Hh0 Hh]. unfold codigos_curtos. cbn [fundir snd].
  assert (Hlo : (1 <= length (snd lo))%nat)
    by (destruct (snd lo); [congruence | simpl; lia]).
  assert (Hhi : (1 <= length (snd hi))%nat)
    by (destruct (snd hi); [congruence | simpl; lia]).
  split.
  - destruct (snd lo); [congruence | discriminate].
  - intros p Hp. rewrite length_app, !length_map.
    apply in_app_or in Hp as [Hp|Hp];
      apply In_prefixar in Hp as [p0 [Hp0 ->]]; cbn [snd length].
    + specialize (Hl p0 Hp0). lia.
    + specialize (Hh p0 Hp0). lia.
Qed.

(** X22.  [_construir_arvore_huffman] returns as many pairs as the table
    has entries, and every code is shorter than that number: with [n]
    symbols no code has more than [n - 1] digits. *)
Theorem codigos_mais_curtos_que_a_tabela (frequencias : dict Z)
    (arvore : list par) :
  _construir_arvore_huffman frequencias = Ok arvore ->
  length arvore = length frequencias
  /\ forall p, In p arvore -> (length (snd p) < length frequencias)%nat.
Proof.
  intros H.
  destruct (construir_arvore_raiz codigos_curtos frequencias arvore
              fundir_codigos_curtos) as (raiz & [_ Hr] & Hperm & Hlen);
    [| exact H |].
  - intros sf _. split; [discriminate|].
    intros p [<-|[]]. simpl. lia.
  - split.
    + rewrite (Permutation_length Hperm). exact Hlen.
    + intros p Hp. rewrite <- Hlen. apply Hr.
      apply (Permutation_in _ Hperm), Hp.
Qed.

Lemma codigos_mais_curtos_que_a_tabela_witness :
  length [(lit "a", lit "1"); (lit "b", lit "00");
          (lit "c", lit "010"); (lit "d", lit "011")]
  = length [(lit "a", 5); (lit "b", 2); (lit "c", 1); (lit "d", 1)]
  /\ forall p,
       In p [(lit "a", lit "1"); (lit "b", lit "00");
             (lit "c", lit "010"); (lit "d", lit "011")] ->
       (length (snd p)
        < length [(lit "a", 5); (lit "b", 2); (lit "c", 1); (lit "d", 1)])%nat.
Proof.
  apply (codigos_mais_curtos_que_a_tabela
           [(lit "a", 5); (lit "b", 2); (lit "c", 1); (lit "d", 1)]).
  vm_compute. reflexivity.
Defined.

(** ** The codes fill the code space *)

(** The codes of the leaves weighted by the share of the strings of [L]
    digits that start with each. *)
Definition kraft (L : Z) (ps : list par) : Z :=
  soma (map (fun p => 2 ^ (L - len (snd p))) ps).

Definition completa (e : entrada) : Prop :=
  snd e <> []
  /\ forall L, (forall p, In p (snd e) -> len (snd p) <= L) ->
               kraft L (snd e) = 2 ^ L.

Lemma soma_app (l1 l2 : list Z) : soma (l1 ++ l2) = soma l1 + soma l2.
Proof.
  unfold soma. induction l1 as [|x r IH]; cbn [app fold_right]; lia.
Qed.

Lemma soma_perm (l1 l2 : list Z) : Permutation l1 l2 -> soma l1 = soma l2.
Proof.
  unfold soma. induction 1; cbn [fold_right]; lia.
Qed.

Lemma kraft_prefixar (bit : N) (L : Z) (ps : list par) :
  kraft L (map (prefixar bit) ps) = kraft (L - 1) ps.
Proof.
  unfold kraft. rewrite map_map. f_equal. apply map_ext. intros [s c].
  cbn [prefixar snd]. apply f_equal. unfold len. cbn [length]. lia.
Qed.

Lemma kraft_app (L : Z) (ps qs : list par) :
  kraft L (ps ++ qs) = kraft L ps + kraft L qs.
Proof. unfold kraft. rewrite map_app. apply soma_app. Qed.

Lemma fundir_completa (lo hi : entrada) :
  completa lo -> completa hi -> completa (fundir lo hi).
Proof.
  intros [Hl0 Hl] [Hh0 Hh]. unfold completa. cbn [fundir snd]. split.
  - destruct (snd lo); [congruence | discriminate].
  - intros L HL. rewrite kraft_app, !kraft_prefixar.
    assert (H1 : 1 <= L).
    { destruct (snd lo) as [|p0 r] eqn:Hs; [congruence|].
      specialize (HL (prefixar (chr "0") p0)).
      cbn [map app] in HL. specialize (HL (or_introl eq_refl)).
      unfold len in HL. cbn [prefixar snd length] in HL. lia. }
    rewrite Hl, Hh.
    + replace L with (L - 1 + 1) at 3 by lia.
      rewrite Z.pow_add_r by lia. change (2 ^ 1) with 2. lia.
    + intros p Hp.
      specialize (HL (prefixar (chr "1") p)
                    (in_or_app _ _ _ (or_intror (in_map _ _ _ Hp)))).
      unfold len in *. cbn [prefixar snd length] in HL. lia.
    + intros p Hp.
      specialize (HL (prefixar (chr "0") p)
                    (in_or_app _ _ _ (or_introl (in_map _ _ _ Hp)))).
      unfold len in *. cbn [prefixar snd length] in HL. lia.
Qed.

(** X23.  The codes of [_construir_arvore_huffman] leave no gap (the
    equality of Kraft): for a length [L] that no code exceeds, the numbers
    of strings of [L] digits that start with each code add up to all the
    [2 ^ L] strings. *)
Theorem codigos_completos (frequencias : dict Z) (arvore : list par)
    (L : Z) :
  _construir_arvore_huffman frequencias = Ok arvore ->
  (forall p, In p arvore -> len (snd p) <= L) ->
  soma (map (fun p => 2 ^ (L - len (snd p))) arvore) = 2 ^ L.
Proof.
  intros H HL.
  destruct (construir_arvore_raiz completa frequencias arvore
              fundir_completa) as (raiz & [_ Hr] & Hperm & _);
    [| exact H |].
  - intros sf _. split; [discriminate|].
    intros L0 H0. unfold kraft, soma, len. cbn [map fold_right snd length].
    rewrite Z.sub_0_r. lia.
  - rewrite (soma_perm _ _ (Permutation_map _ Hperm)).
    apply Hr. intros p Hp. apply HL.
    apply (Permutation_in _ (Permutation_sym Hperm)), Hp.
Qed.

Lemma codigos_completos_witness :
  soma (map (fun p => 2 ^ (3 - len (snd p)))
          [(lit "a", lit "1"); (lit "b", lit "00");
           (lit "c", lit "010"); (lit "d", lit "011")])
  = 2 ^ 3.
Proof.
  apply (codigos_completos
           [(lit "a", 5); (lit "b", 2); (lit "c", 1); (lit "d", 1)]).
  - vm_compute. reflexivity.
  - intros p [<-|[<-|[<-|[<-|[]]]]]; vm_compute; discriminate.
Defined.

(* ===================================================================== *)
(** * Values that JSON does not have *)
(* ===================================================================== *)

Section Sem_JSON.
Context {E : Externo}.

(** [None], [True] and [False], which [str] writes with these names. *)
Definition sem_json (v : pyvalue) : bool :=
  match v with PyNone | PyBool _ => true | _ => false end.

Lemma scan_once_sem_json (k : nat) (v : pyvalue) (rest : str) :
  sem_json v = true ->
  Json.scan_once (S k) (trocar (repr v) ++ rest) = Raise JSONDecodeError
  /\ Json.skip_ws (trocar (repr v) ++ rest) = trocar (repr v) ++ rest.
Proof.
  destruct v as [|[|]| | | | |]; try discriminate; intros _; split;
    reflexivity.
Qed.

Lemma membro_trocado_chave (k : str) (v : pyvalue) (rest : str) :
  texto_simples k = true ->
  membro_trocado (k, v) ++ rest
  = dquote :: k ++ dquote :: chr ":" :: chr " " :: trocar (repr v) ++ rest.
Proof.
  intros Hk. unfold membro_trocado. cbn [fst snd].
  rewrite !trocar_app, trocar_repr_str by exact Hk.
  change (trocar (lit ": ")) with [chr ":"; chr " "].
  cbn [app]. rewrite <- !app_assoc. reflexivity.
Qed.

(** The scanner stops at the member whose value is one of them. *)
Lemma scan_members_sem_json_passo (k : nat) (acc : list (str * pyvalue))
    (chave : str) (v : pyvalue) (tail : str) :
  texto_simples chave = true -> sem_json v = true ->
  Json.scan_members (S (S k)) acc (membro_trocado (chave, v) ++ tail)
  = Raise JSONDecodeError.
Proof.
  intros Hk Hv. rewrite membro_trocado_chave by exact Hk.
  destruct (scan_once_sem_json k v tail Hv) as [Hscan Hws].
  cbn [Json.scan_members].
  change (dquote =? dquote)%N with true. cbv iota.
  rewrite scanstring_simples by exact Hk.
  cbn [bind rev app snd fst Json.skip_ws].
  change (Json.is_ws (chr ":")) with false. cbv iota.
  change (chr ":" =? chr ":")%N with true. cbv iota.
  cbn [Json.skip_ws].
  change (Json.is_ws (chr " ")) with true. cbv iota.
  rewrite Hws, Hscan. reflexivity.
Qed.

(** A list of members: the first are as before, then comes a member with
    such a value, then any members. *)
Definition membros_ate_sem_json (d1 : list (str * pyvalue)) (chave : str)
    (v : pyvalue) : Prop :=
  forallb membro_simples d1 = true /\ texto_simples chave = true
  /\ sem_json v = true.

Lemma join_cons (sep p : str) (l : list str) :
  l <> [] -> join sep (p :: l) = p ++ sep ++ join sep l.
Proof. destruct l; [congruence | reflexivity]. Qed.

Lemma membros_sem_json_cabeca (d1 d2 : list (str * pyvalue)) (chave : str)
    (v : pyvalue) (rest : str) :
  membros_ate_sem_json d1 chave v ->
  exists r,
    join (lit ", ") (map membro_trocado (d1 ++ (chave, v) :: d2)) ++ rest
    = dquote :: r.
Proof.
  intros (H1 & Hk & _).
  destruct d1 as [|kv d1'].
  - cbn [app map]. destruct d2 as [|kv2 d2'].
    + cbn [map join]. rewrite membro_trocado_chave by exact Hk. eauto.
    + rewrite join_cons by discriminate. rewrite <- !app_assoc.
      rewrite membro_trocado_chave by exact Hk. eauto.
  - cbn [forallb] in H1. apply andb_true_iff in H1 as [Hkv _].
    cbn [app map]. rewrite join_cons by (destruct d1'; discriminate).
    rewrite <- !app_assoc. rewrite membro_trocado_forma by exact Hkv. eauto.
Qed.

Lemma scan_members_sem_json (d1 d2 : list (str * pyvalue)) (chave : str)
    (v : pyvalue) :
  forall (fuel : nat) (acc : list (str * pyvalue)) (rest : str),
    membros_ate_sem_json d1 chave v -> (length d1 + 1 < fuel)%nat ->
    Json.scan_members fuel acc
      (join (lit ", ") (map membro_trocado (d1 ++ (chave, v) :: d2))
       ++ chr "}" :: rest)
    = Raise JSONDecodeError.
Proof.
  induction d1 as [|kv d1 IH]; intros fuel acc rest (H1 & Hk & Hv) Hfuel.
  - destruct fuel as [|[|k]]; [simpl in Hfuel; lia | simpl in Hfuel; lia |].
    cbn [app map]. destruct d2 as [|kv2 d2'].
    + cbn [map join]. apply scan_members_sem_json_passo; assumption.
    + rewrite join_cons by discriminate. rewrite <- !app_assoc.
      apply scan_members_sem_json_passo; assumption.
  - cbn [forallb] in H1. apply andb_true_iff in H1 as [Hkv Hd1].
    destruct fuel as [|[|k]]; [simpl in Hfuel; lia | simpl in Hfuel; lia |].
    cbn [app map]. rewrite join_cons by (destruct d1; discriminate).
    rewrite <- !app_assoc.
    change (lit ", ") with [chr ","; chr " "] at 1. cbn [app].
    rewrite scan_members_passo; [| exact Hkv | eexists _, _; auto].
    change (chr "," =? chr "}")%N with false.
    change (chr "," =? chr ",")%N with true. cbv iota.
    cbn [Json.skip_ws].
    change (Json.is_ws (chr " ")) with true. cbv iota.
    destruct (membros_sem_json_cabeca d1 d2 chave v (chr "}" :: rest))
      as [r Hr]; [repeat split; assumption|].
    assert (Hskip : Json.skip_ws
                      (join (lit ", ")
                         (map membro_trocado (d1 ++ (chave, v) :: d2))
                       ++ chr "}" :: rest)
                    = join (lit ", ")
                        (map membro_trocado (d1 ++ (chave, v) :: d2))
                      ++ chr "}" :: rest).
    { rewrite Hr. reflexivity. }
    rewrite Hskip.
    apply IH; [repeat split; assumption | simpl in *; lia].
Qed.

Lemma scan_once_registro_sem_json (k : nat) (d1 d2 : list (str * pyvalue))
    (chave : str) (v : pyvalue) (rest : str) :
  membros_ate_sem_json d1 chave v -> (length d1 + 1 < k)%nat ->
  Json.scan_once (S k)
    (trocar (repr (PyDict (d1 ++ (chave, v) :: d2))) ++ rest)
  = Raise JSONDecodeError.
Proof.
  intros H Hk. rewrite trocar_repr_dict.
  cbn [app Json.scan_once].
  change (chr "{" =? dquote)%N with false.
  change (chr "{" =? chr "{")%N with true. cbv iota.
  rewrite <- app_assoc. cbn [app].
  destruct (membros_sem_json_cabeca d1 d2 chave v (chr "}" :: rest) H)
    as [r Hr].
  rewrite Hr. cbn [Json.skip_ws].
  change (Json.is_ws dquote) with false. cbv iota.
  change (dquote =? chr "}")%N with false. cbv iota.
  rewrite <- Hr.
  rewrite scan_members_sem_json by assumption. reflexivity.
Qed.

Lemma itens_cabeca (l : list pyvalue) (rest : str) :
  (exists d l', l = PyDict d :: l') ->
  exists r,
    join (lit ", ") (map (fun v => trocar (repr v)) l) ++ rest = chr "{" :: r.
Proof.
  intros (d & l' & ->). cbn [map]. destruct l' as [|v' l''].
  - cbn [map join]. rewrite trocar_repr_dict. cbn [app]. eauto.
  - rewrite join_cons by discriminate. rewrite <- !app_assoc.
    rewrite trocar_repr_dict. cbn [app]. eauto.
Qed.

Lemma scan_items_sem_json (l1 l2 : list pyvalue)
    (d1 d2 : list (str * pyvalue)) (chave : str) (v : pyvalue) (m : nat) :
  forall (fuel : nat) (acc : list pyvalue) (rest : str),
    Forall registro_simples l1 -> membros_ate_sem_json d1 chave v ->
    (forall d, In (PyDict d) l1 -> (length d < m)%nat) ->
    (length d1 + 1 < m)%nat -> (length l1 + m + 1 < fuel)%nat ->
    Json.scan_items fuel acc
      (join (lit ", ")
         (map (fun v => trocar (repr v))
            (l1 ++ PyDict (d1 ++ (chave, v) :: d2) :: l2))
       ++ chr "]" :: rest)
    = Raise JSONDecodeError.
Proof.
  induction l1 as [|x l1 IH]; intros fuel acc rest Hall Hbad Hm Hd1 Hfuel.
  - destruct fuel as [|[|k]]; [simpl in Hfuel; lia | simpl in Hfuel; lia |].
    cbn [app map]. rewrite scan_items_S.
    destruct l2 as [|y l2'].
    + cbn [map join].
      rewrite scan_once_registro_sem_json by (try assumption; simpl in *; lia).
      reflexivity.
    + rewrite join_cons by discriminate. rewrite <- !app_assoc.
      rewrite scan_once_registro_sem_json by (try assumption; simpl in *; lia).
      reflexivity.
  - inversion Hall as [|? ? Hx Hl]; subst.
    destruct x as [| | | | | |d]; try contradiction.
    assert (Hd : (length d < m)%nat) by (apply Hm; left; reflexivity).
    destruct fuel as [|[|k]]; [simpl in Hfuel; lia | simpl in Hfuel; lia |].
    cbn [app map]. rewrite join_cons by (destruct l1; discriminate).
    rewrite <- !app_assoc. rewrite scan_items_S.
    rewrite scan_once_registro by (try exact Hx; simpl in *; lia).
    change (lit ", ") with [chr ","; chr " "] at 1.
    cbn [bind fst snd app Json.skip_ws].
    change (Json.is_ws (chr ",")) with false. cbv iota.
    change (chr "," =? chr "]")%N with false.
    change (chr "," =? chr ",")%N with true. cbv iota.
    cbn [Json.skip_ws].
    change (Json.is_ws (chr " ")) with true. cbv iota.
    destruct (itens_cabeca (l1 ++ PyDict (d1 ++ (chave, v) :: d2) :: l2)
                (chr "]" :: rest)) as [r Hr].
    { destruct l1 as [|y l1']; [cbn [app]; eauto|].
      inversion Hl as [|? ? Hy _]; subst.
      destruct y; try contradiction. cbn [app]. eauto. }
    assert (Hskip : Json.skip_ws
                      (join (lit ", ")
                         (map (fun v => trocar (repr v))
                            (l1 ++ PyDict (d1 ++ (chave, v) :: d2) :: l2))
                       ++ chr "]" :: rest)
                    = join (lit ", ")
                        (map (fun v => trocar (repr v))
                           (l1 ++ PyDict (d1 ++ (chave, v) :: d2) :: l2))
                      ++ chr "]" :: rest).
    { rewrite Hr. reflexivity. }
    rewrite Hskip.
    apply IH; try assumption.
    + intros d0 Hd0. apply Hm. right. exact Hd0.
    + simpl in *. lia.
Qed.

(** The list: dictionaries as before, then a dictionary with such a
    member, then anything. *)
Definition lista_com_sem_json (l1 l2 : list pyvalue)
    (d1 d2 : list (str * pyvalue)) (chave : str) (v : pyvalue)
  : list pyvalue :=
  l1 ++ PyDict (d1 ++ (chave, v) :: d2) :: l2.

Lemma join_prefixo_length (sep : str) (a b : list str) :
  (length (join sep a) <= length (join sep (a ++ b)))%nat.
Proof.
  induction a as [|p [|q r] IH].
  - simpl. lia.
  - cbn [app]. destruct b as [|x b'].
    + cbn [join]. lia.
    + rewrite (join_cons sep p (x :: b')) by discriminate.
      cbn [join]. rewrite length_app. lia.
  - change ((p :: q :: r) ++ b) with (p :: ((q :: r) ++ b)).
    rewrite (join_cons sep p (q :: r)), (join_cons sep p ((q :: r) ++ b))
      by discriminate.
    rewrite !length_app. lia.
Qed.

Lemma loads_sem_json (l1 l2 : list pyvalue) (d1 d2 : list (str * pyvalue))
    (chave : str) (v : pyvalue) :
  Forall registro_simples l1 -> membros_ate_sem_json d1 chave v ->
  Json.loads (trocar (repr (PyList (lista_com_sem_json l1 l2 d1 d2 chave v))))
  = Raise JSONDecodeError.
Proof.
  intros Hall Hbad. unfold Json.loads, lista_com_sem_json.
  set (ruim := PyDict (d1 ++ (chave, v) :: d2)).
  set (l := l1 ++ ruim :: l2).
  remember (trocar (repr (PyList l))) as T eqn:HT.
  rewrite trocar_repr_lista in HT.
  set (itens := join (lit ", ") (map (fun v => trocar (repr v)) l)) in *.
  assert (HlenT : length T = S (S (length itens))).
  { subst T. cbn [length]. rewrite length_app. cbn [length]. lia. }
  assert (Hparte : forall x, In x l ->
                     (length (trocar (repr x)) <= length itens)%nat).
  { intros x Hx. apply join_parte. apply in_map_iff. exists x. auto. }
  assert (Hdict : forall d, In (PyDict d) l -> (length d + 2 <= length T)%nat).
  { intros d Hin. specialize (Hparte _ Hin).
    rewrite trocar_repr_dict in Hparte. cbn [length] in Hparte.
    rewrite length_app in Hparte. cbn [length] in Hparte.
    pose proof (join_length (lit ", ") (map membro_trocado d)) as H2.
    rewrite length_map in H2.
    assert (length d <= length (join (lit ", ") (map membro_trocado d)))%nat;
      [|lia].
    apply H2. intros p Hp. apply in_map_iff in Hp as [kv [<- _]].
    unfold membro_trocado, repr_str. rewrite trocar_app. cbn [app].
    unfold trocar at 1, replace. cbn [map]. discriminate. }
  assert (Hl1 : (length l1 + 1 <= length itens)%nat).
  { pose proof (join_prefixo_length (lit ", ")
                  (map (fun v => trocar (repr v)) (l1 ++ [ruim]))
                  (map (fun v => trocar (repr v)) l2)) as Hp.
    rewrite <- map_app, <- app_assoc in Hp. cbn [app] in Hp.
    fold l in Hp. fold itens in Hp.
    pose proof (join_length (lit ", ")
                  (map (fun v => trocar (repr v)) (l1 ++ [ruim]))) as H.
    rewrite length_map, length_app in H. cbn [length] in H.
    assert (length l1 + 1
            <= length (join (lit ", ")
                         (map (fun v => trocar (repr v)) (l1 ++ [ruim]))))%nat;
      [|lia].
    apply H. intros p Hp'. apply in_map_iff in Hp' as [x [<- Hx]].
    apply in_app_or in Hx as [Hx|[<-|[]]].
    - rewrite Forall_forall in Hall. specialize (Hall x Hx).
      destruct x; try contradiction. rewrite trocar_repr_dict. discriminate.
    - unfold ruim. rewrite trocar_repr_dict. discriminate. }
  assert (Hd1 : (length d1 + 1 < S (length T))%nat).
  { assert (Hin : In ruim l)
      by (unfold l; apply in_or_app; right; left; reflexivity).
    specialize (Hdict _ Hin). rewrite length_app in Hdict.
    cbn [length] in Hdict. lia. }
  assert (Hd : forall d, In (PyDict d) l1 -> (length d < S (length T))%nat).
  { intros d Hin.
    assert (Hin' : In (PyDict d) l)
      by (unfold l; apply in_or_app; left; exact Hin).
    specialize (Hdict _ Hin'). lia. }
  replace (2 * length T + 2)%nat with (S (2 * length T + 1)) by lia.
  assert (Hfuel : (length l1 + S (length T) + 1 < 2 * length T + 1)%nat)
    by lia.
  revert Hfuel Hd Hd1. generalize (S (length T)) as m.
  generalize (2 * length T + 1)%nat as k. intros k m Hfuel Hd Hd1.
  subst T. cbn [Json.skip_ws].
  change (Json.is_ws (chr "[")) with false. cbv iota.
  cbn [Json.scan_once].
  change (chr "[" =? dquote)%N with false.
  change (chr "[" =? chr "{")%N with false.
  change (chr "[" =? chr "[")%N with true. cbv iota.
  destruct (itens_cabeca l [chr "]"]) as [r Hr].
  { unfold l. destruct l1 as [|y l1']; [cbn [app]; unfold ruim; eauto|].
    inversion Hall as [|? ? Hy _]; subst.
    destruct y; try contradiction. cbn [app]. eauto. }
  fold itens in Hr. rewrite Hr. cbn [Json.skip_ws].
  change (Json.is_ws (chr "{")) with false. cbv iota.
  change (chr "{" =? chr "]")%N with false. cbv iota.
  rewrite <- Hr. unfold itens, l, ruim.
  rewrite (scan_items_sem_json l1 l2 d1 d2 chave v m k [] [])
    by assumption.
  reflexivity.
Qed.

Lemma texto_para_lista_sem_json (l1 l2 : list pyvalue)
    (d1 d2 : list (str * pyvalue)) (chave : str) (v : pyvalue) :
  Forall registro_simples l1 -> membros_ate_sem_json d1 chave v ->
  _texto_para_lista (repr (PyList (lista_com_sem_json l1 l2 d1 d2 chave v)))
  = Raise ValueError.
Proof.
  intros H1 H2. unfold _texto_para_lista.
  change (replace (chr "'") dquote ?s) with (trocar s).
  rewrite loads_sem_json by assumption. reflexivity.
Qed.

End Sem_JSON.

(** X24.  A value [None], [True] or [False] makes the list unreadable.
    For a list inside the limits of the interpreter, whose first
    dictionary with such a value is preceded by dictionaries of distinct
    keys, with quote-free printable strings and integers, and in which
    that value is preceded by members of that kind and has such a key,
    whatever comes after: [_texto_para_lista] applied to [str(lista)] raises [ValueError],
    since JSON writes [null], [true] and [false]; so [compactar_lista]
    returns [SUCESSO] and [descompactar_lista] on what it wrote returns
    [ERRO_DECODIFICACAO]. *)
Theorem sem_json_nao_volta (E : Externo) (l1 l2 : list pyvalue)
    (d1 d2 : list (str * pyvalue)) (chave : str) (v : pyvalue) :
  lista_nos_limites (lista_com_sem_json l1 l2 d1 d2 chave v) = true ->
  Forall registro_simples l1 -> forallb membro_simples d1 = true ->
  texto_simples chave = true -> sem_json v = true ->
  _texto_para_lista (repr (PyList (lista_com_sem_json l1 l2 d1 d2 chave v)))
  = Raise ValueError
  /\ (forallb escalar
        (repr (PyList (lista_com_sem_json l1 l2 d1 d2 chave v))) = true ->
      zlib_fiel E (lista_com_sem_json l1 l2 d1 d2 chave v) ->
      exists arvore bits,
        _construir_arvore_huffman
          (_calcular_frequencias
             (repr (PyList (lista_com_sem_json l1 l2 d1 d2 chave v))))
        = Ok arvore
        /\ _codificar_lista
             (repr (PyList (lista_com_sem_json l1 l2 d1 d2 chave v)))
             (_gerar_codigo_huffman arvore)
           = Ok bits
        /\ (len bits < 2 ^ 32 ->
            exists container,
              compactar_lista (lista_com_sem_json l1 l2 d1 d2 chave v) []
              = (CODES.SUCESSO, container)
              /\ descompactar_lista container
                 = ((CODES.ERRO_DECODIFICACAO, Mensagem ValueError), []))).
Proof.
  intros _ Hl1 Hd1 Hk Hv.
  pose proof (texto_para_lista_sem_json l1 l2 d1 d2 chave v Hl1
                (conj Hd1 (conj Hk Hv))) as Ht.
  split; [exact Ht|]. intros Hesc Hz.
  destruct (lista_pelo_container E _ Hesc Hz)
    as (arvore & bits & Ha & Hb & Hsmall & _).
  exists arvore, bits. split; [exact Ha|]. split; [exact Hb|].
  intros Hlen. destruct (Hsmall Hlen) as (container & H1 & _ & H3).
  exists container. split; [exact H1|].
  rewrite H3, Ht. reflexivity.
Qed.

(** The list [[{'a': 1, 'b': 'x'}, {'feito': False, 'n': None}]]. *)
Definition registros_com_booleano : list pyvalue :=
  lista_com_sem_json registro_exemplo [] []
    [(lit "n", PyNone)] (lit "feito") (PyBool false).

Lemma sem_json_nao_volta_witness :
  _texto_para_lista (repr (E := Plataforma) (PyList registros_com_booleano))
  = Raise ValueError
  /\ (forallb escalar
        (repr (E := Plataforma) (PyList registros_com_booleano)) = true ->
      zlib_fiel Plataforma registros_com_booleano ->
      exists arvore bits,
        _construir_arvore_huffman
          (_calcular_frequencias
             (repr (E := Plataforma) (PyList registros_com_booleano)))
        = Ok arvore
        /\ _codificar_lista
             (repr (E := Plataforma) (PyList registros_com_booleano))
             (_gerar_codigo_huffman arvore)
           = Ok bits
        /\ (len bits < 2 ^ 32 ->
            exists container,
              compactar_lista (E := Plataforma) registros_com_booleano []
              = (CODES.SUCESSO, container)
              /\ descompactar_lista (E := Plataforma) container
                 = ((CODES.ERRO_DECODIFICACAO, Mensagem ValueError), []))).
Proof.
  apply (sem_json_nao_volta Plataforma registro_exemplo [] []
           [(lit "n", PyNone)] (lit "feito") (PyBool false)).
  - vm_compute. reflexivity.
  - constructor; [|constructor]. split; [|vm_compute; reflexivity].
    repeat constructor; simpl; intuition discriminate.
  - reflexivity.
  - reflexivity.
  - reflexivity.
Defined.
